(** * vend-hub product matcher: a shallow embedding of [prototype/src/matcher.ts]

    The development follows the TypeScript source function by function.

    - JavaScript numbers are IEEE-754 doubles.  The embedding keeps the
      special values ([NaN], [+Infinity], [-Infinity]) with their IEEE
      arithmetic and comparison rules, and represents finite values by exact
      rationals: rounding error, overflow and underflow of finite
      arithmetic are not modelled, and the two zeros are not distinguished
      (no reachable expression of the matcher divides by a zero).  The
      general properties below relate results through the comparisons and
      the operations of the code itself, or bound them by ranges; the
      worked examples give their values in exact arithmetic.
    - JavaScript strings are modelled by [string]; a character is read as the
      code unit U+0000..U+00FF.
    - Optional fields ([brand?: string]) are [option] values; the truthiness
      tests of the source ([!x], [Boolean(x && y)]) are written out. *)

From Stdlib Require Import ZArith QArith Qround Qabs Lqa Lia.
From Stdlib Require Import Bool List Permutation String Ascii.
Import ListNotations.

Close Scope Q_scope.

(* ================================================================== *)
(** * Part I. Definitions                                              *)
(* ================================================================== *)

(** ** JavaScript numbers *)

Inductive number : Type :=
| NaN
| Infinity (negative : bool)
| Finite (q : Q).

Declare Scope js_scope.
Delimit Scope js_scope with js.
Bind Scope js_scope with number.

Definition Qnegative (q : Q) : bool := (Qnum q <? 0)%Z.
Definition Qzero (q : Q) : bool := (Qnum q =? 0)%Z.
Definition Qlt_bool (a b : Q) : bool := negb (Qle_bool b a).

Definition of_nat (n : nat) : number := Finite (inject_Z (Z.of_nat n)).
Definition of_Z (z : Z) : number := Finite (inject_Z z).

(** The literals that occur in the source. *)
Definition num_0 : number := Finite 0.
Definition num_1 : number := Finite 1.
Definition num_2 : number := Finite 2.
Definition num_0_05 : number := Finite (5 # 100)%Q.
Definition num_0_2 : number := Finite (2 # 10)%Q.
Definition num_0_25 : number := Finite (25 # 100)%Q.
Definition num_0_6 : number := Finite (6 # 10)%Q.
Definition num_0_65 : number := Finite (65 # 100)%Q.
Definition num_0_7 : number := Finite (7 # 10)%Q.
Definition num_0_82 : number := Finite (82 # 100)%Q.
Definition num_1_5 : number := Finite (15 # 10)%Q.

(** [-x] *)
Definition neg (x : number) : number :=
  match x with
  | NaN => NaN
  | Infinity s => Infinity (negb s)
  | Finite a => Finite (- a)%Q
  end.

(** [x + y] *)
Definition add (x y : number) : number :=
  match x, y with
  | NaN, _ | _, NaN => NaN
  | Infinity s, Infinity t => if Bool.eqb s t then Infinity s else NaN
  | Infinity s, Finite _ => Infinity s
  | Finite _, Infinity t => Infinity t
  | Finite a, Finite b => Finite (a + b)%Q
  end.

(** [x - y] *)
Definition sub (x y : number) : number := add x (neg y).

(** [x * y] *)
Definition mul (x y : number) : number :=
  match x, y with
  | NaN, _ | _, NaN => NaN
  | Infinity s, Infinity t => Infinity (xorb s t)
  | Infinity s, Finite b =>
      if Qzero b then NaN else Infinity (xorb s (Qnegative b))
  | Finite a, Infinity t =>
      if Qzero a then NaN else Infinity (xorb (Qnegative a) t)
  | Finite a, Finite b => Finite (a * b)%Q
  end.

(** [x / y] *)
Definition div (x y : number) : number :=
  match x, y with
  | NaN, _ | _, NaN => NaN
  | Infinity _, Infinity _ => NaN
  | Infinity s, Finite b => Infinity (xorb s (Qnegative b))
  | Finite _, Infinity _ => Finite 0
  | Finite a, Finite b =>
      if Qzero b
      then (if Qzero a then NaN else Infinity (Qnegative a))
      else Finite (a / b)%Q
  end.

(** [x < y] *)
Definition ltb (x y : number) : bool :=
  match x, y with
  | NaN, _ | _, NaN => false
  | Infinity s, Infinity t => s && negb t
  | Infinity s, Finite _ => s
  | Finite _, Infinity t => negb t
  | Finite a, Finite b => Qlt_bool a b
  end.

(** [x <= y] *)
Definition leb (x y : number) : bool :=
  match x, y with
  | NaN, _ | _, NaN => false
  | Infinity s, Infinity t => s || negb t
  | Infinity s, Finite _ => s
  | Finite _, Infinity t => negb t
  | Finite a, Finite b => Qle_bool a b
  end.

(** [x > y] and [x >= y] *)
Definition gtb (x y : number) : bool := ltb y x.
Definition geb (x y : number) : bool := leb y x.

(** [x === y] on numbers *)
Definition eqb (x y : number) : bool :=
  match x, y with
  | Infinity s, Infinity t => Bool.eqb s t
  | Finite a, Finite b => Qeq_bool a b
  | _, _ => false
  end.

Notation "x + y" := (add x y) : js_scope.
Notation "x - y" := (sub x y) : js_scope.
Notation "x * y" := (mul x y) : js_scope.
Notation "x / y" := (div x y) : js_scope.
Notation "x <? y" := (ltb x y) : js_scope.
Notation "x <=? y" := (leb x y) : js_scope.
Notation "x >? y" := (gtb x y) : js_scope.
Notation "x >=? y" := (geb x y) : js_scope.
Notation "x === y" := (eqb x y) (at level 70, no associativity) : js_scope.

(** [Boolean(x)] for a number: [NaN] and zero are falsy. *)
Definition truthy (x : number) : bool :=
  match x with
  | NaN => false
  | Infinity _ => true
  | Finite a => negb (Qzero a)
  end.

Definition isNaN (x : number) : bool :=
  match x with NaN => true | _ => false end.

(** [Math.max(x, y)], [Math.min(x, y)]: [NaN] if either argument is. *)
Definition Math_max (x y : number) : number :=
  match x, y with
  | NaN, _ | _, NaN => NaN
  | _, _ => if (x <? y)%js then y else x
  end.

Definition Math_min (x y : number) : number :=
  match x, y with
  | NaN, _ | _, NaN => NaN
  | _, _ => if (y <? x)%js then y else x
  end.

(** [Math.abs(x)] *)
Definition Math_abs (x : number) : number :=
  match x with
  | NaN => NaN
  | Infinity _ => Infinity false
  | Finite a => Finite (Qabs a)
  end.

(** [Math.round(x)]: the nearest integer, halves towards [+Infinity]. *)
Definition Math_round (x : number) : number :=
  match x with
  | Finite a => Finite (inject_Z (Qfloor (a + (1 # 2))%Q))
  | _ => x
  end.

(** Value equality of numbers ([==] on the finite part). *)
Definition same (x y : number) : Prop :=
  match x, y with
  | NaN, NaN => True
  | Infinity s, Infinity t => s = t
  | Finite a, Finite b => (a == b)%Q
  | _, _ => False
  end.

(** ** JavaScript strings *)

Local Open Scope string_scope.

Definition code (c : ascii) : nat := nat_of_ascii c.

Definition between (lo hi : nat) (c : ascii) : bool :=
  (lo <=? code c)%nat && (code c <=? hi)%nat.

(** [\s] restricted to U+0000..U+00FF: TAB, LF, VT, FF, CR, SPACE, NBSP.
    [String.prototype.trim] strips the same characters. *)
Definition is_space (c : ascii) : bool :=
  between 9 13 c || (code c =? 32)%nat || (code c =? 160)%nat.

(** [\d] *)
Definition is_digit (c : ascii) : bool := between 48 57 c.

(** [[a-z]] *)
Definition is_lower (c : ascii) : bool := between 97 122 c.

(** One character of [toLowerCase]: A-Z, and the Latin-1 capitals
    U+00C0..U+00DE except the multiplication sign U+00D7. *)
Definition lower_char (c : ascii) : ascii :=
  if between 65 90 c || (between 192 222 c && negb (code c =? 215)%nat)
  then ascii_of_nat (code c + 32)
  else c.

Fixpoint map_chars (f : ascii -> ascii) (s : string) : string :=
  match s with
  | EmptyString => EmptyString
  | String c rest => String (f c) (map_chars f rest)
  end.

Definition toLowerCase (s : string) : string := map_chars lower_char s.

Fixpoint trimStart (s : string) : string :=
  match s with
  | EmptyString => EmptyString
  | String c rest => if is_space c then trimStart rest else s
  end.

(** The string without its trailing white space. *)
Fixpoint trimEnd (s : string) : string :=
  match s with
  | EmptyString => EmptyString
  | String c rest =>
      match trimEnd rest with
      | EmptyString => if is_space c then EmptyString else String c EmptyString
      | kept => String c kept
      end
  end.

Definition trim (s : string) : string := trimEnd (trimStart s).

(** [Boolean(s)] for a string. *)
Definition nonempty (s : string) : bool :=
  match s with EmptyString => false | _ => true end.

(** [s.startsWith(p)], with the rest of [s] after [p]. *)
Fixpoint strip_prefix (p s : string) : option string :=
  match p, s with
  | EmptyString, _ => Some s
  | String a p', String b s' => if Ascii.eqb a b then strip_prefix p' s' else None
  | String _ _, EmptyString => None
  end.

Definition startsWith (p s : string) : bool :=
  match strip_prefix p s with Some _ => true | None => false end.

(** [s.includes(key)] *)
Fixpoint includes (s key : string) : bool :=
  startsWith key s ||
  match s with
  | EmptyString => false
  | String _ rest => includes rest key
  end.

(** [s.replace(/re/g, rep)] for a pattern without empty matches: [m] gives
    the length of the match of [re] that starts at the head of its argument.
    The scan goes left to right and resumes after each match; [skip] counts
    the characters of the current match still to be dropped. *)
Fixpoint replaceAll (m : string -> option nat) (rep : string) (skip : nat)
  (s : string) : string :=
  match s with
  | EmptyString => EmptyString
  | String c rest =>
      match skip with
      | S k => replaceAll m rep k rest
      | O =>
          match m s with
          | Some (S n) => rep ++ replaceAll m rep n rest
          | _ => String c (replaceAll m rep 0 rest)
          end
      end
  end.

(** Number of leading characters that satisfy [p]. *)
Fixpoint span_length (p : ascii -> bool) (s : string) : nat :=
  match s with
  | String c rest => if p c then S (span_length p rest) else 0
  | EmptyString => 0
  end.

Fixpoint drop (n : nat) (s : string) : string :=
  match n, s with
  | S k, String _ rest => drop k rest
  | _, _ => s
  end.

(** [/fl\.?\s*oz/] at the head of [s]. *)
Definition match_fl_oz (s : string) : option nat :=
  match strip_prefix "fl" s with
  | None => None
  | Some r1 =>
      let dot := if startsWith "." r1 then 1 else 0 in
      let r2 := drop dot r1 in
      let ws := span_length is_space r2 in
      if startsWith "oz" (drop ws r2) then Some (2 + dot + ws + 2) else None
  end.

(** [/ounces?/] at the head of [s]. *)
Definition match_ounces (s : string) : option nat :=
  match strip_prefix "ounce" s with
  | None => None
  | Some r => if startsWith "s" r then Some 6 else Some 5
  end.

(** [/oz\./] at the head of [s]. *)
Definition match_oz_dot (s : string) : option nat :=
  if startsWith "oz." s then Some 3 else None.

Definition space : ascii := " "%char.

(** [/-/g] and [/[^a-z0-9\s]/g], both replaced by a space. *)
Definition hyphen_to_space (c : ascii) : ascii :=
  if Ascii.eqb c "-"%char then space else c.

Definition keep_alnum_space (c : ascii) : ascii :=
  if is_lower c || is_digit c || is_space c then c else space.

(** [s.replace(/\s+/g, " ")]: [inside] tells that the previous character
    belonged to a run of white space already replaced. *)
Fixpoint collapse_spaces (inside : bool) (s : string) : string :=
  match s with
  | EmptyString => EmptyString
  | String c rest =>
      if is_space c
      then (if inside then collapse_spaces true rest
            else String space (collapse_spaces true rest))
      else String c (collapse_spaces false rest)
  end.

(** [normalizeName] (matcher.ts, lines 404-415). *)
Definition normalizeName (value : string) : string :=
  let lower := toLowerCase value in
  let replaced :=
    trim
      (collapse_spaces false
         (map_chars keep_alnum_space
            (map_chars hyphen_to_space
               (replaceAll match_oz_dot "oz" 0
                  (replaceAll match_ounces "oz" 0
                     (replaceAll match_fl_oz "oz" 0 lower)))))) in
  replaced.

(** ** Static tables *)

(** A value read out of the [BRAND_SYNONYMS] object.  The table is a plain
    object literal, so [BRAND_SYNONYMS[key]] also finds the members that every
    object inherits from [Object.prototype]; such a member is a function or an
    object, never a string. *)
Inductive jsval : Type :=
| Str (s : string)
| Inherited (member : string).

Definition jsval_eqb (v w : jsval) : bool :=
  match v, w with
  | Str s, Str t => String.eqb s t
  | Inherited m, Inherited n => String.eqb m n
  | _, _ => false
  end.

(** [Boolean(v)]: the empty string is falsy, functions and objects are truthy. *)
Definition jsval_truthy (v : jsval) : bool :=
  match v with
  | Str s => nonempty s
  | Inherited _ => true
  end.

(** The own properties of [BRAND_SYNONYMS], in insertion order. *)
Definition BRAND_SYNONYMS : list (string * string) :=
  [ ("coke", "coca cola");
    ("coca-cola", "coca cola");
    ("coca", "coca cola");
    ("coca cola", "coca cola");
    ("diet coke", "diet coca cola");
    ("coca-cola diet", "diet coca cola");
    ("diet coca cola", "diet coca cola");
    ("coca cola diet", "diet coca cola");
    ("pepsi cola", "pepsi");
    ("pepsi-cola", "pepsi");
    ("redbull", "red bull");
    ("redbull energy", "red bull");
    ("redbull energy drink", "red bull");
    ("red bull", "red bull");
    ("snickers", "snickers");
    ("lays", "lays");
    ("doritos", "doritos");
    ("aquafina", "aquafina");
    ("dasani", "dasani") ].

(** The members of [Object.prototype]. *)
Definition Object_prototype : list string :=
  [ "constructor"; "__defineGetter__"; "__defineSetter__"; "hasOwnProperty";
    "__lookupGetter__"; "__lookupSetter__"; "isPrototypeOf";
    "propertyIsEnumerable"; "toString"; "valueOf"; "__proto__";
    "toLocaleString" ].

Fixpoint assoc (key : string) (table : list (string * string)) : option string :=
  match table with
  | [] => None
  | (k, v) :: rest => if String.eqb k key then Some v else assoc key rest
  end.

Definition mem (x : string) (l : list string) : bool :=
  existsb (String.eqb x) l.

(** [BRAND_SYNONYMS[key]]; [None] is [undefined]. *)
Definition BRAND_SYNONYMS_get (key : string) : option jsval :=
  match assoc key BRAND_SYNONYMS with
  | Some v => Some (Str v)
  | None => if mem key Object_prototype then Some (Inherited key) else None
  end.

Definition STOP_WORDS : list string :=
  [ "the"; "and"; "with"; "regular"; "classic"; "bottle"; "can"; "drink";
    "bar"; "chips"; "original" ].

Definition DIET_KEYWORDS : list string :=
  [ "diet"; "zero"; "sugar-free"; "sugarfree"; "lite" ].

Definition UNIT_TOKENS : list string :=
  [ "oz"; "ounce"; "ounces"; "ml"; "g"; "lb"; "lbs" ].

(** ** Normalizer *)

(** [value.split(sep)] for a one-character separator: the pieces between the
    separators, empty pieces included. *)
Fixpoint split_on (sep : ascii) (s : string) : list string :=
  match s with
  | EmptyString => [EmptyString]
  | String c rest =>
      if Ascii.eqb c sep then EmptyString :: split_on sep rest
      else match split_on sep rest with
           | piece :: pieces => String c piece :: pieces
           | [] => [String c EmptyString]
           end
  end.

(** [/^\d+(?:\.\d+)?$/.test(token)] *)
Definition is_numeric_token (token : string) : bool :=
  let n := span_length is_digit token in
  let rest := drop n token in
  (0 <? n)%nat &&
  match rest with
  | EmptyString => true
  | String c frac =>
      Ascii.eqb c "."%char &&
      (0 <? span_length is_digit frac)%nat &&
      negb (nonempty (drop (span_length is_digit frac) frac))
  end.

(** The merging loop of [tokenize]: a numeric token followed by a unit token
    becomes one token, and the unit is consumed. *)
Fixpoint merge_units (rawTokens : list string) : list string :=
  match rawTokens with
  | [] => []
  | token :: rest =>
      match rest with
      | next :: rest' =>
          if is_numeric_token token && nonempty next && mem next UNIT_TOKENS
          then (token ++ next) :: merge_units rest'
          else token :: merge_units rest
      | [] => [token]
      end
  end.

(** [canonicalizeToken] (lines 441-446). *)
Definition canonicalizeToken (token : string) : jsval :=
  match BRAND_SYNONYMS_get token with
  | Some v => if jsval_truthy v then v else Str token
  | None => Str token
  end.

(** [tokenize] (lines 417-439). *)
Definition tokenize (value : string) : list jsval :=
  if negb (nonempty value) then []
  else
    let rawTokens := filter nonempty (map trim (split_on space value)) in
    let merged := merge_units rawTokens in
    map canonicalizeToken
      (filter (fun token => nonempty token && negb (mem token STOP_WORDS)) merged).

(** The outcome of a call that may throw. *)
Inductive completion (A : Type) : Type :=
| Return (result : A)
| Throw (error : string).
Arguments Return {A} result.
Arguments Throw {A} error.

(** [canonicalizeBrand] (lines 448-455) on a string argument. *)
Definition canonicalizeBrand_string (brand : string) : option jsval :=
  if negb (nonempty brand) then None
  else
    let lower := trim (toLowerCase brand) in
    match BRAND_SYNONYMS_get lower with
    | Some v => if jsval_truthy v then Some v else Some (Str lower)
    | None => Some (Str lower)
    end.

(** [canonicalizeBrand] on whatever the caller passes: [undefined], a string,
    or an inherited member, which is truthy and has no [toLowerCase]. *)
Definition canonicalizeBrand (brand : option jsval) : completion (option jsval) :=
  match brand with
  | None => Return None
  | Some (Str s) => Return (canonicalizeBrand_string s)
  | Some (Inherited _) => Throw "TypeError: brand.toLowerCase is not a function"
  end.

(** [Object.keys(BRAND_SYNONYMS).sort((a, b) => b.length - a.length)]: the
    sort is stable, keys of one length keep their insertion order. *)
Fixpoint insert_by_length (key : string) (sorted : list string) : list string :=
  match sorted with
  | [] => [key]
  | k :: rest =>
      if (String.length k <? String.length key)%nat then key :: sorted
      else k :: insert_by_length key rest
  end.

Definition synonymKeys : list string :=
  fold_left (fun sorted key => insert_by_length key sorted)
    (map fst BRAND_SYNONYMS) [].

(** [normalized.split(/[\s,]+/).filter(Boolean)]: the maximal runs of
    characters other than white space and commas.  [current] is the run being
    read, reversed. *)
Definition is_separator (c : ascii) : bool :=
  is_space c || Ascii.eqb c ","%char.

Fixpoint rev_string (acc s : string) : string :=
  match s with
  | EmptyString => acc
  | String c rest => rev_string (String c acc) rest
  end.

Definition flush (current : string) (tokens : list string) : list string :=
  match current with
  | EmptyString => tokens
  | _ => rev_string EmptyString current :: tokens
  end.

Fixpoint split_separators (current : string) (s : string) : list string :=
  match s with
  | EmptyString => flush current []
  | String c rest =>
      if is_separator c then flush current (split_separators EmptyString rest)
      else split_separators (String c current) rest
  end.

(** The [for (const token of tokens)] loop of [extractBrand]. *)
Fixpoint first_canonical (tokens : list string) : option jsval :=
  match tokens with
  | [] => None
  | token :: rest =>
      match canonicalizeBrand_string token with
      | Some canonical =>
          if jsval_truthy canonical then Some canonical else first_canonical rest
      | None => first_canonical rest
      end
  end.

(** [extractBrand] (lines 457-476); [None] is [undefined]. *)
Definition extractBrand (rawName : string) : option jsval :=
  let normalized := toLowerCase rawName in
  match find (fun key => includes normalized key) synonymKeys with
  | Some key => BRAND_SYNONYMS_get key
  | None =>
      let tokens := split_separators EmptyString normalized in
      match tokens with
      | [] => None
      | first :: _ =>
          match first_canonical tokens with
          | Some canonical => Some canonical
          | None => Some (Str first)
          end
      end
  end.

(** A raw CSV record, [Record<string, string>]. *)
Definition row : Type := list (string * string).

(** The [rawName] of [normalize365Record] and [normalizeHahaRecord]:
    [row[field]?.trim() ?? ""]. *)
Definition rawName_of (field : string) (r : row) : string :=
  match assoc field r with
  | Some name => trim name
  | None => EmptyString
  end.

(** The [brand] field of the two normalizers:
    [canonicalizeBrand(extractBrand(rawName))]. *)
Definition normalize365Record_brand (r : row) : completion (option jsval) :=
  canonicalizeBrand (extractBrand (rawName_of "PRDNAME" r)).

Definition normalizeHahaRecord_brand (r : row) : completion (option jsval) :=
  canonicalizeBrand (extractBrand (rawName_of "product_name" r)).

(** [detectDiet] (lines 511-514). *)
Definition detectDiet (rawName : string) : bool :=
  let lower := toLowerCase rawName in
  existsb (fun keyword => includes lower keyword) DIET_KEYWORDS.

(** ** Size parsing (lines 478-498) *)

Fixpoint take (n : nat) (s : string) : string :=
  match n, s with
  | S k, String c rest => String c (take k rest)
  | _, _ => EmptyString
  end.

(** The value of a string of decimal digits. *)
Fixpoint digits_value (acc : Z) (s : string) : Z :=
  match s with
  | EmptyString => acc
  | String c rest => digits_value (10 * acc + Z.of_nat (code c - 48))%Z rest
  end.

(** [parseFloat] on the text of [(\d+(?:\.\d+)?)]: a decimal at or above
    [2^1024 - 2^970] rounds to [Infinity]; below, the value is kept exact,
    also where it is too small for a double and [parseFloat] gives 0. *)
Definition parseFloat_decimal (whole fraction : string) : number :=
  let scale := (10 ^ Z.of_nat (String.length fraction))%Z in
  let numerator := (digits_value 0 whole * scale + digits_value 0 fraction)%Z in
  if (2 ^ 1024 - 2 ^ 970 <=? numerator / scale)%Z then Infinity false
  else Finite (Qmake numerator (Z.to_pos scale)).

Inductive SizeUnit : Type := FluidOunce | Millilitre | Gram.

(** [(fl\s*oz|oz|ounce|oz\.|ml|g)] at the head of [s], case-insensitive;
    [unit.includes("ml")] and [unit.includes("g")] then tell the unit. *)
Definition match_unit (s : string) : option SizeUnit :=
  let lower := toLowerCase s in
  if match strip_prefix "fl" lower with
     | Some r => startsWith "oz" (drop (span_length is_space r) r)
     | None => false
     end
  then Some FluidOunce
  else if startsWith "oz" lower then Some FluidOunce
  else if startsWith "ounce" lower then Some FluidOunce
  else if startsWith "ml" lower then Some Millilitre
  else if startsWith "g" lower then Some Gram
  else None.

(** The regular expression of [parseSize] at the head of [s]: the digits,
    the optional fraction, white space, the unit. *)
Definition match_size (s : string) : option (number * SizeUnit) :=
  let n := span_length is_digit s in
  if (n =? 0)%nat then None
  else
    let whole := take n s in
    let afterWhole := drop n s in
    let fractionLength :=
      match afterWhole with
      | String c r => if Ascii.eqb c "."%char then span_length is_digit r else 0%nat
      | EmptyString => 0%nat
      end in
    let fraction := take fractionLength (drop 1 afterWhole) in
    let afterNumber :=
      if (fractionLength =? 0)%nat then afterWhole
      else drop (S fractionLength) afterWhole in
    let afterSpace := drop (span_length is_space afterNumber) afterNumber in
    match match_unit afterSpace with
    | Some unit => Some (parseFloat_decimal whole fraction, unit)
    | None => None
    end.

(** [rawName.match(sizeRegex)]: the leftmost match. *)
Fixpoint find_size (s : string) : option (number * SizeUnit) :=
  match match_size s with
  | Some found => Some found
  | None =>
      match s with
      | EmptyString => None
      | String _ rest => find_size rest
      end
  end.

(** The [sizeOz] field of the result of [parseSize]. *)
Definition parseSize_sizeOz (rawName : string) : option number :=
  match find_size rawName with
  | None => None
  | Some (value, unit) =>
      Some match unit with
           | Millilitre => (value * Finite (33814 # 1000000)%Q)%js
           | Gram => (value / Finite (283495 # 10000)%Q)%js
           | FluidOunce => value
           end
  end.

(** ** Number parsing (lines 516-521) *)

(** [[0-9.\-]] *)
Definition is_numeric_char (c : ascii) : bool :=
  is_digit c || Ascii.eqb c "."%char || Ascii.eqb c "-"%char.

(** [value.replace(/[^0-9.\-]/g, "")]: the characters that satisfy [p]. *)
Fixpoint keep_chars (p : ascii -> bool) (s : string) : string :=
  match s with
  | EmptyString => EmptyString
  | String c rest =>
      if p c then String c (keep_chars p rest) else keep_chars p rest
  end.

(** [Number.parseFloat] on a string of digits, dots and minus signs: the
    longest prefix that is a decimal literal, an optional minus sign, then
    digits with an optional dot and fraction, or a dot and a fraction;
    [NaN] where no digit is found there. *)
Definition parseFloat_sanitized (s : string) : number :=
  let negative := startsWith "-" s in
  let body := if negative then drop 1 s else s in
  let n := span_length is_digit body in
  let whole := take n body in
  let afterWhole := drop n body in
  let fraction :=
    match afterWhole with
    | String c r =>
        if Ascii.eqb c "."%char then take (span_length is_digit r) r
        else EmptyString
    | EmptyString => EmptyString
    end in
  if (n =? 0)%nat && (String.length fraction =? 0)%nat then NaN
  else
    let magnitude := parseFloat_decimal whole fraction in
    if negative then neg magnitude else magnitude.

(** [parseNumber]; [None] is [undefined]. *)
Definition parseNumber (value : option string) : option number :=
  match value with
  | None => None
  | Some v =>
      if negb (nonempty v) then None
      else
        let sanitized := keep_chars is_numeric_char v in
        let parsed := parseFloat_sanitized sanitized in
        if isNaN parsed then None else Some parsed
  end.

(** The [price] field of the two normalizers:
    [parseNumber(row["PRICE"] ?? row["TOTALPRICE"])] and
    [parseNumber(row["price_unit"] ?? row["product_actual_payment_amount"])]. *)
Definition first_defined (primary fallback : string) (r : row) : option string :=
  match assoc primary r with
  | Some text => Some text
  | None => assoc fallback r
  end.

Definition normalize365Record_price (r : row) : option number :=
  parseNumber (first_defined "PRICE" "TOTALPRICE" r).

Definition normalizeHahaRecord_price (r : row) : option number :=
  parseNumber (first_defined "price_unit" "product_actual_payment_amount" r).

(** A number that is not [NaN], not negative and not [-Infinity]. *)
Definition notNegative (x : number) : Prop :=
  match x with
  | NaN => False
  | Infinity negative => negative = false
  | Finite q => (0 <= q)%Q
  end.

(** ** Data model (lines 3-60) *)

Local Open Scope js_scope.

Inductive Source : Type := Source365 | SourceHaha.

Record NormalizedProduct : Type := {
  source : Source;
  sourceId : string;
  rawName : string;
  normalizedName : string;
  tokens : list jsval; (* string[]; [canonicalizeToken] may store a member *)
  brand : option string;
  sizeOz : option number;
  sizeLabel : option string;
  price : option number;
  category : option string;
  isDiet : bool;
  scancode : option string;
  features : list (string * option string);
  raw : row
}.

Module Scores.
Record FeatureScores : Type := {
  upc : number;
  name : number;
  brand : number;
  size : number;
  category : number;
  price : number;
  dietPenalty : number
}.
End Scores.
Abbreviation FeatureScores := Scores.FeatureScores.

Module Summary.
Record ProductSummary : Type := {
  source : Source;
  sourceId : string;
  name : string;
  brand : option string;
  sizeOz : option number;
  sizeLabel : option string;
  price : option number;
  category : option string;
  scancode : option string;
  extra : list (string * option string)
}.
End Summary.
Abbreviation ProductSummary := Summary.ProductSummary.

Inductive Decision : Type := auto | review.

Record MatchRecord : Type := {
  productA : ProductSummary;
  productB : ProductSummary;
  confidence : number;
  decision : Decision;
  featureScores : FeatureScores
}.

Record MatchResult : Type := {
  matches : list MatchRecord;
  unmatchedA : list ProductSummary;
  unmatchedB : list ProductSummary
}.

Record MatchOptions : Type := {
  autoAcceptThreshold : number;
  reviewThreshold : number
}.

(** [Partial<MatchOptions>]: [None] is a key that the caller left out.  A
    key given with the value [undefined] coerces to [NaN] wherever the
    matcher uses it and is the option [Some NaN] here. *)
Module Partial.
Record MatchOptions : Type := {
  autoAcceptThreshold : option number;
  reviewThreshold : option number
}.
End Partial.

Definition DEFAULT_OPTIONS : MatchOptions :=
  {| autoAcceptThreshold := num_0_82; reviewThreshold := num_0_6 |}.

(** [{ ...DEFAULT_OPTIONS, ...options }] *)
Definition resolveOptions (options : Partial.MatchOptions) : MatchOptions :=
  {| autoAcceptThreshold :=
       match Partial.autoAcceptThreshold options with
       | Some t => t
       | None => autoAcceptThreshold DEFAULT_OPTIONS
       end;
     reviewThreshold :=
       match Partial.reviewThreshold options with
       | Some t => t
       | None => reviewThreshold DEFAULT_OPTIONS
       end |}.

(** ** Helpers (lines 523-553) *)

(** [clamp] *)
Definition clamp (value min max : number) : number :=
  Math_min max (Math_max min value).

(** [round], with its default [decimals = 2]: [Math.pow(10, 2)] is [100]. *)
Definition round (value : number) : number :=
  let factor := Finite 100 in
  Math_round (value * factor) / factor.

(** [Boolean(s)] for an optional string, and [!s]. *)
Definition present (s : option string) : bool :=
  match s with
  | Some t => nonempty t
  | None => false
  end.

(** [Boolean(x)] for an optional number. *)
Definition present_number (x : option number) : bool :=
  match x with
  | Some n => truthy n
  | None => false
  end.

Fixpoint all_chars (p : ascii -> bool) (s : string) : bool :=
  match s with
  | EmptyString => true
  | String c rest => p c && all_chars p rest
  end.

(** [isLikelyUPC]: [/^\d{8,14}$/] *)
Definition isLikelyUPC (value : option string) : bool :=
  match value with
  | None => false
  | Some v =>
      if negb (nonempty v) then false
      else all_chars is_digit v &&
           (8 <=? String.length v)%nat && (String.length v <=? 14)%nat
  end.

(** [new Set(values)], in insertion order. *)
Definition Set_add (x : jsval) (s : list jsval) : list jsval :=
  if existsb (jsval_eqb x) s then s else s ++ [x].

Definition Set_of (values : list jsval) : list jsval :=
  fold_left (fun s x => Set_add x s) values [].

Definition Set_has (s : list jsval) (x : jsval) : bool :=
  existsb (jsval_eqb x) s.

(** [buildBigrams] *)
Fixpoint bigrams_of (s : string) : list string :=
  match s with
  | String a (String b _ as rest) =>
      String a (String b EmptyString) :: bigrams_of rest
  | _ => []
  end.

Definition buildBigrams (value : string) : list string :=
  let sanitized := trim (collapse_spaces false value) in
  if (String.length sanitized <? 2)%nat then [] else bigrams_of sanitized.

(** [countOccurrences]: a [Map] from gram to count, in insertion order. *)
Fixpoint Map_get (counts : list (string * nat)) (key : string) : option nat :=
  match counts with
  | [] => None
  | (k, n) :: rest => if String.eqb k key then Some n else Map_get rest key
  end.

Fixpoint Map_set (counts : list (string * nat)) (key : string) (n : nat)
  : list (string * nat) :=
  match counts with
  | [] => [(key, n)]
  | (k, m) :: rest =>
      if String.eqb k key then (k, n) :: rest else (k, m) :: Map_set rest key n
  end.

Definition countOccurrences (values : list string) : list (string * nat) :=
  fold_left
    (fun counts value =>
       Map_set counts value
         (match Map_get counts value with Some n => n | None => 0 end + 1)%nat)
    values [].

(** ** Feature scores (lines 286-375) *)

(** [scoreUPC] *)
Definition scoreUPC (a b : NormalizedProduct) : number :=
  if negb (present (scancode a)) || negb (present (scancode b)) then num_0
  else
    match scancode a, scancode b with
    | Some x, Some y => if String.eqb x y then num_1 else num_0
    | _, _ => num_0
    end.

(** [scoreNameTokens].  The intersection is counted over the list [tokensA],
    as in the source ([tokensA.filter(...)]), not over the set [setA]. *)
Definition scoreNameTokens (tokensA tokensB : list jsval) : number :=
  if (List.length tokensA =? 0)%nat || (List.length tokensB =? 0)%nat then num_0
  else
    let setB := Set_of tokensB in
    let intersectionSize := List.length (filter (Set_has setB) tokensA) in
    let unionSize := List.length (Set_of (tokensA ++ tokensB)) in
    if (unionSize =? 0)%nat then num_0
    else of_nat intersectionSize / of_nat unionSize.

(** [scoreCharacterBigram] *)
Definition scoreCharacterBigram (a b : string) : number :=
  let gramsA := buildBigrams a in
  let gramsB := buildBigrams b in
  if (List.length gramsA =? 0)%nat || (List.length gramsB =? 0)%nat then num_0
  else
    let countsA := countOccurrences gramsA in
    let countsB := countOccurrences gramsB in
    let intersection :=
      fold_left
        (fun acc entry =>
           match Map_get countsB (fst entry) with
           | Some countB =>
               if (countB =? 0)%nat then acc
               else (acc + Nat.min (snd entry) countB)%nat
           | None => acc
           end)
        countsA 0%nat in
    of_nat (2 * intersection) / of_nat (List.length gramsA + List.length gramsB).

(** [scoreNameSimilarity] *)
Definition scoreNameSimilarity (a b : NormalizedProduct) : number :=
  let tokenScore := scoreNameTokens (tokens a) (tokens b) in
  let bigramScore := scoreCharacterBigram (normalizedName a) (normalizedName b) in
  Math_max tokenScore bigramScore.

Definition option_jsval_eqb (v w : option jsval) : bool :=
  match v, w with
  | Some x, Some y => jsval_eqb x y
  | None, None => true
  | _, _ => false
  end.

(** [scoreBrand] *)
Definition scoreBrand (brandA brandB : option string) : number :=
  if negb (present brandA) && negb (present brandB) then num_0
  else if negb (present brandA) || negb (present brandB) then num_0_2
  else
    match brandA, brandB with
    | Some x, Some y =>
        if String.eqb x y then num_1
        else
          let canonicalA := canonicalizeBrand_string x in
          let canonicalB := canonicalizeBrand_string y in
          if option_jsval_eqb canonicalA canonicalB then num_0_7 else num_0
    | _, _ => num_0
    end.

(** [scoreSize] *)
Definition scoreSize (sizeA sizeB : option number) : number :=
  match sizeA, sizeB with
  | Some x, Some y =>
      if negb (truthy x) || negb (truthy y) then num_0
      else
        let diff := Math_abs (x - y) in
        let max := Math_max x y in
        let normalizedDiff := diff / max in
        let score := Math_max num_0 (num_1 - normalizedDiff * num_1_5) in
        clamp score num_0 num_1
  | _, _ => num_0
  end.

(** [canonicalizeCategory] *)
Definition canonicalizeCategory (value : option string) : option string :=
  match value with
  | None => None
  | Some v =>
      if negb (nonempty v) then None
      else
        let normalized := toLowerCase v in
        if includes normalized "soda" || includes normalized "cola"
        then Some "beverage soda"%string
        else if includes normalized "water" then Some "beverage water"%string
        else if includes normalized "energy" then Some "beverage energy"%string
        else if includes normalized "chips" then Some "snack chips"%string
        else if includes normalized "candy" || includes normalized "chocolate"
        then Some "snack candy"%string
        else Some normalized
  end.

Definition option_string_eqb (v w : option string) : bool :=
  match v, w with
  | Some x, Some y => String.eqb x y
  | None, None => true
  | _, _ => false
  end.

(** [s.split(" ")[0]] *)
Definition first_word (s : string) : string :=
  match split_on space s with
  | w :: _ => w
  | [] => EmptyString
  end.

(** [scoreCategory] *)
Definition scoreCategory (categoryA categoryB : option string) : number :=
  if negb (present categoryA) && negb (present categoryB) then num_0
  else if negb (present categoryA) || negb (present categoryB) then num_0_2
  else
    let normalizedA := canonicalizeCategory categoryA in
    let normalizedB := canonicalizeCategory categoryB in
    if option_string_eqb normalizedA normalizedB then num_1
    else
      match normalizedA, normalizedB with
      | Some x, Some y =>
          if nonempty x && nonempty y && String.eqb (first_word x) (first_word y)
          then num_0_6 else num_0
      | _, _ => num_0
      end.

(** [scoreNumericSimilarity] *)
Definition scoreNumericSimilarity (a b : option number) (tolerance : number)
  : number :=
  match a, b with
  | Some x, Some y =>
      if (x === num_0) && (y === num_0) then num_1
      else if (x === num_0) || (y === num_0) then num_0
      else
        let diff := Math_abs (x - y) in
        let avg := (x + y) / num_2 in
        if avg === num_0 then num_0
        else
          let ratio := diff / avg in
          if ratio <=? tolerance then num_1 - ratio / tolerance else num_0
  | _, _ => num_0
  end.

(** [scoreDietPenalty] *)
Definition scoreDietPenalty (aIsDiet bIsDiet : bool) : number :=
  if Bool.eqb aIsDiet bIsDiet then num_0 else num_1.

(** [computeFeatureScores] (lines 239-249) *)
Definition computeFeatureScores (a b : NormalizedProduct) : FeatureScores :=
  let upc := scoreUPC a b in
  let name := scoreNameSimilarity a b in
  let brand := scoreBrand (brand a) (brand b) in
  let size := scoreSize (sizeOz a) (sizeOz b) in
  let category := scoreCategory (category a) (category b) in
  let price := scoreNumericSimilarity (price a) (price b) num_0_25 in
  let dietPenalty := scoreDietPenalty (isDiet a) (isDiet b) in
  {| Scores.upc := upc; Scores.name := name; Scores.brand := brand;
     Scores.size := size; Scores.category := category; Scores.price := price;
     Scores.dietPenalty := dietPenalty |}.

(** ** Confidence (lines 251-284) *)

Record component : Type := {
  score : number;
  weight : number;
  available : bool
}.

Definition components (scores : FeatureScores) (productA productB : NormalizedProduct)
  : list component :=
  [ {| score := Scores.upc scores; weight := num_0_25;
       available := isLikelyUPC (scancode productA) && isLikelyUPC (scancode productB) |};
    {| score := Scores.name scores; weight := num_0_25; available := true |};
    {| score := Scores.brand scores; weight := num_0_2;
       available := present (brand productA) && present (brand productB) |};
    {| score := Scores.size scores; weight := num_0_2;
       available :=
         present_number (sizeOz productA) && present_number (sizeOz productB) |};
    {| score := Scores.category scores; weight := num_0_05;
       available := present (category productA) && present (category productB) |};
    {| score := Scores.price scores; weight := num_0_05;
       available :=
         match price productA, price productB with
         | Some _, Some _ => true
         | _, _ => false
         end |} ].

(** [computeConfidence] *)
Definition computeConfidence (scores : FeatureScores)
  (productA productB : NormalizedProduct) : number :=
  let components := components scores productA productB in
  let weightSum :=
    fold_left (fun sum c => if available c then sum + weight c else sum)
      components num_0 in
  if weightSum === num_0 then num_0
  else
    let weightedScore :=
      fold_left
        (fun sum c => if negb (available c) then sum else sum + score c * weight c)
        components num_0 in
    let normalizedScore := weightedScore / weightSum in
    let penalty := Scores.dietPenalty scores * num_0_05 in
    clamp (normalizedScore - penalty) num_0 num_1.

(** ** Result assembly (lines 377-402) *)

(** [summarizeProduct] *)
Definition summarizeProduct (product : NormalizedProduct) : ProductSummary :=
  {| Summary.source := source product;
     Summary.sourceId := sourceId product;
     Summary.name := rawName product;
     Summary.brand := brand product;
     Summary.sizeOz := sizeOz product;
     Summary.sizeLabel := sizeLabel product;
     Summary.price := price product;
     Summary.category := category product;
     Summary.scancode := scancode product;
     Summary.extra := features product |}.

(** [mapScores] *)
Definition mapScores (scores : FeatureScores) : FeatureScores :=
  {| Scores.upc := round (Scores.upc scores);
     Scores.name := round (Scores.name scores);
     Scores.brand := round (Scores.brand scores);
     Scores.size := round (Scores.size scores);
     Scores.category := round (Scores.category scores);
     Scores.price := round (Scores.price scores);
     Scores.dietPenalty := round (Scores.dietPenalty scores) |}.

(** ** Matcher (lines 169-237) *)

(** The [bestMatch] variable of the inner loop. *)
Module Best.
Record bestMatch : Type := {
  product : NormalizedProduct;
  confidence : number;
  scores : FeatureScores
}.
End Best.
Abbreviation bestMatch := Best.bestMatch.

(** One iteration of the inner loop, [for (const productB of productsB)].
    The debug trace ([console.log] under [DEBUG_MATCHES]) only observes. *)
Definition consider (resolvedOptions : MatchOptions) (productA : NormalizedProduct)
  (best : option bestMatch) (productB : NormalizedProduct) : option bestMatch :=
  let scores := computeFeatureScores productA productB in
  let confidence := computeConfidence scores productA productB in
  if confidence <? reviewThreshold resolvedOptions * num_0_65 then best
  else
    let candidate :=
      {| Best.product := productB; Best.confidence := confidence;
         Best.scores := scores |} in
    match best with
    | None => Some candidate
    | Some current =>
        if confidence >? Best.confidence current then Some candidate else best
    end.

Definition scan (resolvedOptions : MatchOptions) (productA : NormalizedProduct)
  (productsB : list NormalizedProduct) : option bestMatch :=
  fold_left (consider resolvedOptions productA) productsB None.

(** The accumulators of the outer loop; [matchedBIds] is a [Set<string>]. *)
Record accumulator : Type := {
  acc_matches : list MatchRecord;
  acc_unmatchedA : list ProductSummary;
  matchedBIds : list string
}.

Definition Set_add_id (id : string) (s : list string) : list string :=
  if mem id s then s else s ++ [id].

(** The outer loop body after the inner loop (lines 213-229): the entity is
    pushed onto [unmatchedA], or a record is pushed and the B identifier is
    claimed. *)
Definition classify (resolvedOptions : MatchOptions) (acc : accumulator)
  (productA : NormalizedProduct) (best : option bestMatch) : accumulator :=
  let unmatched :=
    {| acc_matches := acc_matches acc;
       acc_unmatchedA := acc_unmatchedA acc ++ [summarizeProduct productA];
       matchedBIds := matchedBIds acc |} in
  match best with
  | None => unmatched
  | Some best =>
      if Best.confidence best <? reviewThreshold resolvedOptions then unmatched
      else
        let decision :=
          if Best.confidence best >=? autoAcceptThreshold resolvedOptions
          then auto else review in
        {| acc_matches :=
             acc_matches acc ++
             [ {| productA := summarizeProduct productA;
                  productB := summarizeProduct (Best.product best);
                  confidence := round (Best.confidence best);
                  decision := decision;
                  featureScores := mapScores (Best.scores best) |} ];
           acc_unmatchedA := acc_unmatchedA acc;
           matchedBIds := Set_add_id (sourceId (Best.product best)) (matchedBIds acc) |}
  end.

(** One iteration of the outer loop, [for (const productA of productsA)]. *)
Definition matchOne (resolvedOptions : MatchOptions)
  (productsB : list NormalizedProduct) (acc : accumulator)
  (productA : NormalizedProduct) : accumulator :=
  classify resolvedOptions acc productA (scan resolvedOptions productA productsB).

Definition initial : accumulator :=
  {| acc_matches := []; acc_unmatchedA := []; matchedBIds := [] |}.

(** The last statement of [matchProducts] (lines 232-236). *)
Definition assemble (productsB : list NormalizedProduct) (final : accumulator)
  : MatchResult :=
  let unmatchedB :=
    map summarizeProduct
      (filter (fun product => negb (mem (sourceId product) (matchedBIds final)))
         productsB) in
  {| matches := acc_matches final;
     unmatchedA := acc_unmatchedA final;
     unmatchedB := unmatchedB |}.

Definition configurationError : string :=
  "reviewThreshold must be <= autoAcceptThreshold".

(** [matchProducts] *)
Definition matchProducts (productsA productsB : list NormalizedProduct)
  (options : Partial.MatchOptions) : completion MatchResult :=
  let resolvedOptions := resolveOptions options in
  if reviewThreshold resolvedOptions >? autoAcceptThreshold resolvedOptions
  then Throw configurationError
  else
    Return
      (assemble productsB
         (fold_left (matchOne resolvedOptions productsB) productsA initial)).

(** ** The scoring work of the matcher

    [matchProducts] once more, statement by statement, with its scoring
    calls made visible: a computation carries its value together with the
    pairs it has handed to [computeFeatureScores] and [computeConfidence],
    in call order.  The statements are sequenced by [bind], which appends
    the pairs of the second statement to those of the first; a statement
    without a scoring call is a [ret]. *)
Module Traced.

Record scoring (A : Type) : Type := {
  outcome : A;
  scored : list (NormalizedProduct * NormalizedProduct)
}.
Arguments outcome {A} s.
Arguments scored {A} s.

Definition ret {A : Type} (x : A) : scoring A :=
  {| outcome := x; scored := [] |}.

Definition bind {A B : Type} (m : scoring A) (f : A -> scoring B) : scoring B :=
  let next := f (outcome m) in
  {| outcome := outcome next; scored := (scored m ++ scored next)%list |}.

Local Notation "'let*' x ':=' m 'in' k" := (bind m (fun x => k))
  (at level 10, x name, m at level 100, k at level 200).

(** [const scores = computeFeatureScores(productA, productB)] and
    [const confidence = computeConfidence(scores, productA, productB)]
    (lines 196-197): the one place where a pair is scored. *)
Definition score (productA productB : NormalizedProduct)
  : scoring (FeatureScores * number) :=
  let scores := computeFeatureScores productA productB in
  {| outcome := (scores, computeConfidence scores productA productB);
     scored := [(productA, productB)] |}.

(** [for (const x of xs) { ... }] *)
Fixpoint for_each {S X : Type} (body : S -> X -> scoring S) (xs : list X)
  (state : S) : scoring S :=
  match xs with
  | [] => ret state
  | x :: rest => let* next := body state x in for_each body rest next
  end.

(** The body of the inner loop (lines 195-211). *)
Definition consider (resolvedOptions : MatchOptions) (productA : NormalizedProduct)
  (best : option bestMatch) (productB : NormalizedProduct)
  : scoring (option bestMatch) :=
  let* result := score productA productB in
  let scores := fst result in
  let confidence := snd result in
  ret (if confidence <? reviewThreshold resolvedOptions * num_0_65 then best
       else
         let candidate :=
           {| Best.product := productB; Best.confidence := confidence;
              Best.scores := scores |} in
         match best with
         | None => Some candidate
         | Some current =>
             if confidence >? Best.confidence current then Some candidate else best
         end).

Definition scan (resolvedOptions : MatchOptions) (productA : NormalizedProduct)
  (productsB : list NormalizedProduct) : scoring (option bestMatch) :=
  for_each (consider resolvedOptions productA) productsB None.

(** The body of the outer loop (lines 192-230). *)
Definition matchOne (resolvedOptions : MatchOptions)
  (productsB : list NormalizedProduct) (acc : accumulator)
  (productA : NormalizedProduct) : scoring accumulator :=
  let* best := scan resolvedOptions productA productsB in
  ret (classify resolvedOptions acc productA best).

(** [matchProducts] (lines 169-237): the options are resolved, the
    thresholds are tested, and only then do the loops run. *)
Definition matchProducts (productsA productsB : list NormalizedProduct)
  (options : Partial.MatchOptions) : scoring (completion MatchResult) :=
  let resolvedOptions := resolveOptions options in
  if reviewThreshold resolvedOptions >? autoAcceptThreshold resolvedOptions
  then ret (Throw configurationError)
  else
    let* final := for_each (matchOne resolvedOptions productsB) productsA initial in
    ret (Return (assemble productsB final)).

End Traced.

(** ** The matcher without the early skip

    The algorithm of the specification: every B candidate is evaluated, the
    strictly highest confidence is kept, the first seen wins ties. *)
Module NoSkip.

Definition consider (productA : NormalizedProduct)
  (best : option bestMatch) (productB : NormalizedProduct) : option bestMatch :=
  let scores := computeFeatureScores productA productB in
  let confidence := computeConfidence scores productA productB in
  let candidate :=
    {| Best.product := productB; Best.confidence := confidence;
       Best.scores := scores |} in
  match best with
  | None => Some candidate
  | Some current =>
      if confidence >? Best.confidence current then Some candidate else best
  end.

Definition scan (productA : NormalizedProduct)
  (productsB : list NormalizedProduct) : option bestMatch :=
  fold_left (consider productA) productsB None.

Definition matchOne (resolvedOptions : MatchOptions)
  (productsB : list NormalizedProduct) (acc : accumulator)
  (productA : NormalizedProduct) : accumulator :=
  classify resolvedOptions acc productA (scan productA productsB).

Definition matchProducts (productsA productsB : list NormalizedProduct)
  (options : Partial.MatchOptions) : completion MatchResult :=
  let resolvedOptions := resolveOptions options in
  if reviewThreshold resolvedOptions >? autoAcceptThreshold resolvedOptions
  then Throw configurationError
  else
    Return
      (assemble productsB
         (fold_left (matchOne resolvedOptions productsB) productsA initial)).

End NoSkip.

(** ** The confidence formula of the specification

    The availability-weighted average, written over the attributes and
    parametric in the availability predicate. *)

Inductive Attribute : Type :=
| Identifier | Name | Brand | Size | Category | Price.

Definition attributes : list Attribute :=
  [Identifier; Name; Brand; Size; Category; Price].

Definition attributeWeight (attr : Attribute) : number :=
  match attr with
  | Identifier => num_0_25
  | Name => num_0_25
  | Brand => num_0_2
  | Size => num_0_2
  | Category => num_0_05
  | Price => num_0_05
  end.

Definition attributeScore (scores : FeatureScores) (attr : Attribute) : number :=
  match attr with
  | Identifier => Scores.upc scores
  | Name => Scores.name scores
  | Brand => Scores.brand scores
  | Size => Scores.size scores
  | Category => Scores.category scores
  | Price => Scores.price scores
  end.

Definition is_some {A : Type} (x : option A) : bool :=
  match x with Some _ => true | None => false end.

(** A digits-only string of 8 to 14 characters. *)
Definition scannable (code : option string) : bool :=
  match code with
  | Some c =>
      all_chars is_digit c &&
      (8 <=? String.length c)%nat && (String.length c <=? 14)%nat
  | None => false
  end.

(** Availability as the specification words it: brand, size and category
    need both sides non-absent, price needs both sides numeric. *)
Definition availableStated (a b : NormalizedProduct) (attr : Attribute) : bool :=
  match attr with
  | Identifier => scannable (scancode a) && scannable (scancode b)
  | Name => true
  | Brand => is_some (brand a) && is_some (brand b)
  | Size => is_some (sizeOz a) && is_some (sizeOz b)
  | Category => is_some (category a) && is_some (category b)
  | Price => is_some (price a) && is_some (price b)
  end.

(** Availability by truthiness: an empty brand or category and a size that
    is zero (or [NaN]) count as absent. *)
Definition availableTruthy (a b : NormalizedProduct) (attr : Attribute) : bool :=
  match attr with
  | Identifier => scannable (scancode a) && scannable (scancode b)
  | Name => true
  | Brand => present (brand a) && present (brand b)
  | Size => present_number (sizeOz a) && present_number (sizeOz b)
  | Category => present (category a) && present (category b)
  | Price => is_some (price a) && is_some (price b)
  end.

Definition total (terms : list number) : number := fold_left add terms num_0.

Definition weightedAverage (availableAttrs : list Attribute)
  (scores : FeatureScores) : number :=
  total (map (fun attr => attributeScore scores attr * attributeWeight attr)
           availableAttrs)
  / total (map attributeWeight availableAttrs).

Definition statedConfidence (available : Attribute -> bool)
  (scores : FeatureScores) : number :=
  match filter available attributes with
  | [] => num_0
  | availableAttrs =>
      clamp (weightedAverage availableAttrs scores
             - Scores.dietPenalty scores * num_0_05) num_0 num_1
  end.

(** [0 <= x <= 1] *)
Definition in_unit_interval (x : number) : bool :=
  (num_0 <=? x) && (x <=? num_1).

Definition finite (x : number) : bool :=
  match x with Finite _ => true | _ => false end.

Definition finiteScores (scores : FeatureScores) : bool :=
  forallb (fun attr => finite (attributeScore scores attr)) attributes
  && finite (Scores.dietPenalty scores).

(** ** Vocabulary of the statements *)

(** The confidence of a pair. *)
Definition pairConfidence (a b : NormalizedProduct) : number :=
  computeConfidence (computeFeatureScores a b) a b.

(** The A entities that end in [unmatchedA]: no candidate was kept, or the
    best one is below the review threshold. *)
Definition belowReview (resolvedOptions : MatchOptions)
  (best : option bestMatch) : bool :=
  match best with
  | None => true
  | Some b => Best.confidence b <? reviewThreshold resolvedOptions
  end.

Definition matchedBId (m : MatchRecord) : string :=
  Summary.sourceId (productB m).

Definition isAuto (m : MatchRecord) : bool :=
  match decision m with auto => true | review => false end.

Definition autoCount (result : MatchResult) : nat :=
  List.length (filter isAuto (matches result)).

(** A size that is a number other than [+Infinity] and [-Infinity], or no size. *)
Definition sizeNotInfinite (p : NormalizedProduct) : bool :=
  match sizeOz p with
  | Some (Infinity _) => false
  | _ => true
  end.






(** The entity with its size removed. *)
Definition withoutSize (p : NormalizedProduct) : NormalizedProduct :=
  {| source := source p; sourceId := sourceId p; rawName := rawName p;
     normalizedName := normalizedName p; tokens := tokens p; brand := brand p;
     sizeOz := None; sizeLabel := sizeLabel p; price := price p;
     category := category p; isDiet := isDiet p; scancode := scancode p;
     features := features p; raw := raw p |}.

Definition zero (x : option number) : Prop :=
  match x with
  | Some (Finite q) => (q == 0)%Q
  | _ => False
  end.

(** The record pushed for an A entity and its best candidate. *)
Definition recordOf (resolvedOptions : MatchOptions) (productA : NormalizedProduct)
  (best : bestMatch) : MatchRecord :=
  {| productA := summarizeProduct productA;
     productB := summarizeProduct (Best.product best);
     confidence := round (Best.confidence best);
     decision :=
       if Best.confidence best >=? autoAcceptThreshold resolvedOptions
       then auto else review;
     featureScores := mapScores (Best.scores best) |}.

(** The records an A entity contributes: one, or none below the review
    threshold. *)
Definition recordsFor (resolvedOptions : MatchOptions)
  (best : option bestMatch) (productA : NormalizedProduct) : list MatchRecord :=
  match best with
  | None => []
  | Some b =>
      if Best.confidence b <? reviewThreshold resolvedOptions then []
      else [recordOf resolvedOptions productA b]
  end.

(** What the inner loop maintains about [bestMatch]: the candidate is an
    element of B, scored against the A entity, and was not skipped. *)
Definition kept (resolvedOptions : MatchOptions) (productA : NormalizedProduct)
  (productsB : list NormalizedProduct) (best : option bestMatch) : Prop :=
  match best with
  | None => True
  | Some b =>
      In (Best.product b) productsB /\
      Best.confidence b = pairConfidence productA (Best.product b) /\
      Best.scores b = computeFeatureScores productA (Best.product b) /\
      (Best.confidence b <? reviewThreshold resolvedOptions * num_0_65) = false
  end.

(** The outer loop body for a given inner-loop result. *)
Definition classifyWith (resolvedOptions : MatchOptions)
  (found : NormalizedProduct -> option bestMatch) (acc : accumulator)
  (productA : NormalizedProduct) : accumulator :=
  classify resolvedOptions acc productA (found productA).

(** How the inner loop with the skip follows the one without it: it holds
    the same candidate, unless that candidate is below the skip floor, in
    which case it holds none. *)
Definition aligned (resolvedOptions : MatchOptions)
  (withSkip withoutSkip : option bestMatch) : Prop :=
  match withoutSkip with
  | None => withSkip = None
  | Some b =>
      in_unit_interval (Best.confidence b) = true /\
      if Best.confidence b <? reviewThreshold resolvedOptions * num_0_65
      then withSkip = None
      else withSkip = Some b
  end.

(** The A entities that get the decision [auto]. *)
Definition autoAccepted (resolvedOptions : MatchOptions)
  (best : option bestMatch) : bool :=
  match best with
  | None => false
  | Some b =>
      negb (Best.confidence b <? reviewThreshold resolvedOptions)
      && (Best.confidence b >=? autoAcceptThreshold resolvedOptions)
  end.

(** The B identifier that an A entity selects: the identifier of the
    candidate the inner loop keeps for it, when that candidate reaches the
    review threshold. *)
Definition selectedBId (resolvedOptions : MatchOptions)
  (productsB : list NormalizedProduct) (productA : NormalizedProduct)
  : option string :=
  match scan resolvedOptions productA productsB with
  | None => None
  | Some best =>
      if Best.confidence best <? reviewThreshold resolvedOptions then None
      else Some (sourceId (Best.product best))
  end.

(** The A entities that select the B identifier [id]. *)
Definition selects (resolvedOptions : MatchOptions)
  (productsB : list NormalizedProduct) (id : string) (productA : NormalizedProduct)
  : bool :=
  match selectedBId resolvedOptions productsB productA with
  | Some selected => String.eqb selected id
  | None => false
  end.

(** A character of a token of a lower-cased name. *)
Definition token_char (c : ascii) : bool :=
  negb (is_separator c) && Ascii.eqb (lower_char c) c.

(** ** Sample entities *)

(** The canonical entity of a two-column row: [normalize365Record] on
    [{SCANCODE: id, PRDNAME: rawName}], [normalizeHahaRecord] on
    [{product_no: id, product_name: rawName}], for an identifier and a name
    without surrounding white space, where the normalizer does not throw.
    The display label of the size and the attribute bag, which only pass
    through to the summaries, are left empty. *)
Definition entity (src : Source) (id rawName : string) : NormalizedProduct :=
  {| source := src; sourceId := id; rawName := rawName;
     normalizedName := normalizeName rawName;
     tokens := tokenize (normalizeName rawName);
     brand :=
       match canonicalizeBrand (extractBrand rawName) with
       | Return (Some (Str b)) => Some b
       | _ => None
       end;
     sizeOz := parseSize_sizeOz rawName;
     sizeLabel := None; price := None; category := None;
     isDiet := detectDiet rawName; scancode := Some id;
     features := [];
     raw :=
       match src with
       | Source365 => [("SCANCODE", id); ("PRDNAME", rawName)]
       | SourceHaha => [("product_no", id); ("product_name", rawName)]
       end |}.

Definition defaults : Partial.MatchOptions :=
  {| Partial.autoAcceptThreshold := None; Partial.reviewThreshold := None |}.

Definition appleJuice : NormalizedProduct :=
  entity Source365 "A-100" "apple juice".

Definition appleJuiceBox : NormalizedProduct :=
  entity SourceHaha "B-100" "apple juice box".

Definition auto91 : Partial.MatchOptions :=
  {| Partial.autoAcceptThreshold := Some (Finite (91 # 100)%Q);
     Partial.reviewThreshold := None |}.

Definition cocaCola : NormalizedProduct :=
  entity Source365 "A-1" "Coca Cola 20oz Can".

Definition coke : NormalizedProduct :=
  entity SourceHaha "B-1" "Coke 20 oz".

Definition cokeCan : NormalizedProduct :=
  entity Source365 "A-7" "Coke 20oz Can".

Definition waterZero : NormalizedProduct :=
  entity Source365 "A-2" "Water 0oz".


Definition pepsiTwice : NormalizedProduct :=
  entity Source365 "A-4" "Pepsi Pepsi".

Definition dasani : NormalizedProduct :=
  entity Source365 "A-5" "Dasani Water 16.9oz".

Definition aquafina : NormalizedProduct :=
  entity SourceHaha "B-5" "Aquafina Bottled Water 16oz".

Fixpoint zeros (n : nat) : string :=
  match n with
  | O => EmptyString
  | S k => String "0" (zeros k)
  end.

(** A B entity whose name gives the size with 309 digits: [parseFloat]
    returns [Infinity] for it. *)
Definition bulkWater : NormalizedProduct :=
  entity SourceHaha "B-6" ("Bulk Water 2" ++ zeros 308 ++ "oz").

Definition review70 : Partial.MatchOptions :=
  {| Partial.autoAcceptThreshold := None;
     Partial.reviewThreshold := Some (Finite (7 # 10)%Q) |}.

(** The entity with its price replaced. *)
Definition withPrice (value : option number) (p : NormalizedProduct)
  : NormalizedProduct :=
  {| source := source p; sourceId := sourceId p; rawName := rawName p;
     normalizedName := normalizedName p; tokens := tokens p; brand := brand p;
     sizeOz := sizeOz p; sizeLabel := sizeLabel p; price := value;
     category := category p; isDiet := isDiet p; scancode := scancode p;
     features := features p; raw := raw p |}.

(** "Coca Cola 20oz Can" at a price of 0 and "Coke 20 oz" at 1.99. *)
Definition freeCola : NormalizedProduct := withPrice (Some (Finite 0)) cocaCola.

Definition pricedCoke : NormalizedProduct :=
  withPrice (Some (Finite (199 # 100)%Q)) coke.

Definition nameOnly : FeatureScores :=
  {| Scores.upc := num_0; Scores.name := num_1; Scores.brand := num_0;
     Scores.size := num_0; Scores.category := num_0; Scores.price := num_0;
     Scores.dietPenalty := num_0 |}.

(** The score vector [nameOnly] with a size score and a price score. *)
Definition nameWith (size price : number) : FeatureScores :=
  {| Scores.upc := num_0; Scores.name := num_1; Scores.brand := num_0;
     Scores.size := size; Scores.category := num_0; Scores.price := price;
     Scores.dietPenalty := num_0 |}.

(** ** Vocabulary of the further properties *)

(** A record without its decision. *)
Definition undecided (m : MatchRecord)
  : ProductSummary * ProductSummary * number * FeatureScores :=
  (productA m, productB m, confidence m, featureScores m).

(** The A entities that get a record. *)
Definition isMatched (resolvedOptions : MatchOptions)
  (productsB : list NormalizedProduct) (productA : NormalizedProduct) : bool :=
  negb (belowReview resolvedOptions (scan resolvedOptions productA productsB)).

(** A multiple of 0.01 between 0 and 1. *)
Definition hundredth (x : number) : Prop :=
  exists k : Z, (0 <= k <= 100)%Z /\ same x (Finite (inject_Z k / 100)%Q).

(** What the inner loop maintains about the candidates read so far, when
    every confidence is a number: nothing is kept while every candidate is
    below the skip floor; otherwise the kept candidate is strictly better
    than every candidate before it and at least as good as every one after. *)
Definition firstMaximum (resolvedOptions : MatchOptions) (productA : NormalizedProduct)
  (seen : list NormalizedProduct) (best : option bestMatch) : Prop :=
  match best with
  | None =>
      forall b, In b seen ->
        (pairConfidence productA b <? reviewThreshold resolvedOptions * num_0_65)
        = true
  | Some kept =>
      Best.confidence kept = pairConfidence productA (Best.product kept) /\
      (Best.confidence kept <? reviewThreshold resolvedOptions * num_0_65) = false /\
      exists before after,
        seen = (before ++ Best.product kept :: after)%list /\
        (forall b, In b before ->
           (pairConfidence productA b <? Best.confidence kept) = true) /\
        (forall b, In b after ->
           (pairConfidence productA b <=? Best.confidence kept) = true)
  end.

(** A price that is absent or not a negative number. *)
Definition priceNotNegative (p : NormalizedProduct) : bool :=
  match price p with
  | Some (Finite q) => negb (Qnegative q)
  | _ => true
  end.

(** Every score, and the diet penalty, lies in [[0,1]]. *)
Definition unitScores (scores : FeatureScores) : bool :=
  forallb (fun attr => in_unit_interval (attributeScore scores attr)) attributes
  && in_unit_interval (Scores.dietPenalty scores).

(** The entity with its diet flag replaced. *)
Definition withDiet (flag : bool) (p : NormalizedProduct) : NormalizedProduct :=
  {| source := source p; sourceId := sourceId p; rawName := rawName p;
     normalizedName := normalizedName p; tokens := tokens p; brand := brand p;
     sizeOz := sizeOz p; sizeLabel := sizeLabel p; price := price p;
     category := category p; isDiet := flag; scancode := scancode p;
     features := features p; raw := raw p |}.

(** A character of a normalized name: [[a-z0-9 ]]. *)
Definition name_char (c : ascii) : bool :=
  is_lower c || is_digit c || Ascii.eqb c space.

(** No two spaces in a row. *)
Fixpoint spaced_once (s : string) : bool :=
  match s with
  | EmptyString => true
  | String a rest =>
      match rest with
      | String b _ => negb (Ascii.eqb a space && Ascii.eqb b space)
      | EmptyString => true
      end && spaced_once rest
  end.

(** Thresholds that are not numbers, as a caller of the library can pass. *)
Definition reviewNaN : Partial.MatchOptions :=
  {| Partial.autoAcceptThreshold := None; Partial.reviewThreshold := Some NaN |}.

(* ================================================================== *)
(** * Part II. Properties                                              *)
(* ================================================================== *)

Local Close Scope string_scope.

(** ** Numbers *)

Lemma Qlt_bool_true (a b : Q) : Qlt_bool a b = true <-> (a < b)%Q.
Proof.
  unfold Qlt_bool. rewrite negb_true_iff.
  split; intro H.
  - apply Qnot_le_lt. intro L. apply Qle_bool_iff in L. congruence.
  - destruct (Qle_bool b a) eqn:E; [|reflexivity].
    apply Qle_bool_iff in E. exfalso. apply (Qlt_not_le _ _ H E).
Qed.

Lemma Qlt_bool_false (a b : Q) : Qlt_bool a b = false <-> (b <= a)%Q.
Proof.
  unfold Qlt_bool. rewrite negb_false_iff. apply Qle_bool_iff.
Qed.

Lemma Qle_bool_false (a b : Q) : Qle_bool a b = false <-> (b < a)%Q.
Proof.
  rewrite <- Qlt_bool_true. unfold Qlt_bool.
  destruct (Qle_bool a b); simpl; split; congruence.
Qed.

Lemma Qzero_true (a : Q) : Qzero a = true <-> (a == 0)%Q.
Proof.
  unfold Qzero, Qeq. rewrite Z.eqb_eq. simpl. lia.
Qed.

Lemma Qzero_false (a : Q) : Qzero a = false <-> ~ (a == 0)%Q.
Proof.
  rewrite <- Qzero_true. destruct (Qzero a); split; congruence.
Qed.

Lemma Qnegative_true (a : Q) : Qnegative a = true <-> (a < 0)%Q.
Proof.
  unfold Qnegative, Qlt. rewrite Z.ltb_lt. simpl. lia.
Qed.

Lemma Qeq_bool_false (a b : Q) : Qeq_bool a b = false <-> ~ (a == b)%Q.
Proof.
  rewrite <- Qeq_bool_iff. destruct (Qeq_bool a b); split; congruence.
Qed.

(** Turns the boolean comparisons of the context into rational facts. *)
Ltac reflect_Q :=
  repeat match goal with
  | H : Qlt_bool _ _ = true |- _ => apply Qlt_bool_true in H
  | H : Qlt_bool _ _ = false |- _ => apply Qlt_bool_false in H
  | H : Qle_bool _ _ = true |- _ => apply Qle_bool_iff in H
  | H : Qle_bool _ _ = false |- _ => apply Qle_bool_false in H
  | H : Qeq_bool _ _ = true |- _ => apply Qeq_bool_iff in H
  | H : Qeq_bool _ _ = false |- _ => apply Qeq_bool_false in H
  | H : Qzero _ = true |- _ => apply Qzero_true in H
  | H : Qzero _ = false |- _ => apply Qzero_false in H
  | |- Qlt_bool _ _ = true => apply Qlt_bool_true
  | |- Qlt_bool _ _ = false => apply Qlt_bool_false
  | |- Qle_bool _ _ = true => apply Qle_bool_iff
  | |- Qle_bool _ _ = false => apply Qle_bool_false
  | |- Qeq_bool _ _ = true => apply Qeq_bool_iff
  | |- Qzero _ = true => apply Qzero_true
  end.

(** Case analysis on numbers, closing the arithmetic by [lra]. *)
Ltac by_cases :=
  intros; simpl in *; try discriminate; try reflexivity; try tauto;
  try (reflect_Q; solve [lra | exfalso; lra]).

Lemma ltb_leb (x y : number) : (x <? y) = true -> (x <=? y) = true.
Proof. destruct x as [|[]|a], y as [|[]|b]; by_cases. Qed.

Lemma ltb_false_leb (x y : number) :
  isNaN x = false -> isNaN y = false -> (x <? y) = false -> (y <=? x) = true.
Proof. destruct x as [|[]|a], y as [|[]|b]; by_cases. Qed.

Lemma leb_ltb_false (x y : number) : (y <=? x) = true -> (x <? y) = false.
Proof. destruct x as [|[]|a], y as [|[]|b]; by_cases. Qed.

Lemma leb_not_NaN (x y : number) :
  (x <=? y) = true -> isNaN x = false /\ isNaN y = false.
Proof. destruct x as [|[]|a], y as [|[]|b]; by_cases. Qed.

Lemma leb_trans (x y z : number) :
  (x <=? y) = true -> (y <=? z) = true -> (x <=? z) = true.
Proof.
  destruct x as [|[]|a], y as [|[]|b], z as [|[]|c]; by_cases.
Qed.

Lemma ltb_leb_trans (x y z : number) :
  (x <? y) = true -> (y <=? z) = true -> (x <? z) = true.
Proof.
  destruct x as [|[]|a], y as [|[]|b], z as [|[]|c]; by_cases.
Qed.

Lemma geb_false_ltb (x y : number) :
  isNaN x = false -> isNaN y = false -> (x >=? y) = false -> (x <? y) = true.
Proof. destruct x as [|[]|a], y as [|[]|b]; by_cases. Qed.

Lemma ltb_geb_false (x y : number) : (x <? y) = true -> (x >=? y) = false.
Proof. destruct x as [|[]|a], y as [|[]|b]; by_cases. Qed.

(** [clamp] leaves [NaN] alone and brings every other number into [[0,1]]. *)
Lemma clamp_unit (x : number) :
  match x with
  | NaN => clamp x num_0 num_1 = NaN
  | _ => in_unit_interval (clamp x num_0 num_1) = true
  end.
Proof.
  destruct x as [|[]|a]; try reflexivity.
  unfold clamp, in_unit_interval, Math_max, Math_min, num_0, num_1.
  simpl. destruct (Qlt_bool 0 a) eqn:E0; simpl.
  - destruct (Qlt_bool a 1) eqn:E1; simpl;
      try (apply andb_true_intro; split); by_cases.
  - reflexivity.
Qed.

Lemma clamp_finite (a : Q) :
  exists q, clamp (Finite a) num_0 num_1 = Finite q /\ (0 <= q <= 1)%Q.
Proof.
  unfold clamp, Math_max, Math_min, num_0, num_1. simpl.
  destruct (Qlt_bool 0 a) eqn:E0; simpl.
  - destruct (Qlt_bool a 1) eqn:E1; simpl; eexists; split; try reflexivity; by_cases.
  - exists 0%Q. split; [reflexivity | lra].
Qed.


(** ** The two loops of [matchProducts] *)

Section InnerLoop.

Variable resolvedOptions : MatchOptions.
Variable productA : NormalizedProduct.

Lemma kept_weaken (seen more : list NormalizedProduct) (best : option bestMatch) :
  kept resolvedOptions productA seen best ->
  kept resolvedOptions productA (seen ++ more) best.
Proof.
  destruct best as [b|]; simpl; [|trivial].
  intros (Hin & Hrest). split; [apply in_or_app; now left | exact Hrest].
Qed.

Lemma consider_kept (seen : list NormalizedProduct) (best : option bestMatch)
  (productB : NormalizedProduct) :
  kept resolvedOptions productA seen best ->
  kept resolvedOptions productA (seen ++ [productB])
    (consider resolvedOptions productA best productB).
Proof.
  intro K. unfold consider.
  destruct (computeConfidence _ _ _ <? _) eqn:Eskip.
  - now apply kept_weaken.
  - assert (Knew : kept resolvedOptions productA (seen ++ [productB])
              (Some {| Best.product := productB;
                       Best.confidence :=
                         computeConfidence (computeFeatureScores productA productB)
                           productA productB;
                       Best.scores := computeFeatureScores productA productB |})).
    { simpl. repeat split; trivial. apply in_or_app. right. now left. }
    destruct best as [current|]; [|exact Knew].
    destruct (_ >? _); [exact Knew | now apply kept_weaken].
Qed.

Lemma fold_consider_kept (productsB seen : list NormalizedProduct)
  (best : option bestMatch) :
  kept resolvedOptions productA seen best ->
  kept resolvedOptions productA (seen ++ productsB)
    (fold_left (consider resolvedOptions productA) productsB best).
Proof.
  revert seen best.
  induction productsB as [|productB rest IH]; intros seen best K; simpl.
  - now rewrite app_nil_r.
  - replace (seen ++ productB :: rest)%list with ((seen ++ [productB]) ++ rest)%list
      by (rewrite <- app_assoc; reflexivity).
    apply IH. now apply consider_kept.
Qed.

(** The candidate that [scan] returns is an element of B, scored against
    the A entity, and was not skipped. *)
Lemma scan_kept (productsB : list NormalizedProduct) :
  kept resolvedOptions productA productsB (scan resolvedOptions productA productsB).
Proof.
  unfold scan. apply (fold_consider_kept productsB [] None). exact I.
Qed.

End InnerLoop.

Section OuterLoop.

Variable resolvedOptions : MatchOptions.

(** The result of the inner loop, for each A entity. *)
Variable found : NormalizedProduct -> option bestMatch.


Lemma classify_matches (acc : accumulator) (productA : NormalizedProduct) :
  acc_matches (classifyWith resolvedOptions found acc productA)
  = acc_matches acc ++ recordsFor resolvedOptions (found productA) productA.
Proof.
  unfold classifyWith, classify, recordsFor.
  destruct (found productA) as [b|]; simpl; [|now rewrite app_nil_r].
  destruct (_ <? _); simpl; [now rewrite app_nil_r | reflexivity].
Qed.

Lemma classify_unmatchedA (acc : accumulator) (productA : NormalizedProduct) :
  acc_unmatchedA (classifyWith resolvedOptions found acc productA)
  = acc_unmatchedA acc ++
    (if belowReview resolvedOptions (found productA)
     then [summarizeProduct productA] else []).
Proof.
  unfold classifyWith, classify, belowReview.
  destruct (found productA) as [b|]; simpl; [|reflexivity].
  destruct (_ <? _); simpl; [reflexivity | now rewrite app_nil_r].
Qed.

Lemma fold_matches (productsA : list NormalizedProduct) (acc : accumulator) :
  acc_matches (fold_left (classifyWith resolvedOptions found) productsA acc)
  = acc_matches acc ++
    flat_map (fun a => recordsFor resolvedOptions (found a) a) productsA.
Proof.
  revert acc. induction productsA as [|a rest IH]; intro acc; simpl.
  - now rewrite app_nil_r.
  - rewrite IH, classify_matches, <- app_assoc. reflexivity.
Qed.

Lemma fold_unmatchedA (productsA : list NormalizedProduct) (acc : accumulator) :
  acc_unmatchedA (fold_left (classifyWith resolvedOptions found) productsA acc)
  = acc_unmatchedA acc ++
    map summarizeProduct
      (filter (fun a => belowReview resolvedOptions (found a)) productsA).
Proof.
  revert acc. induction productsA as [|a rest IH]; intro acc; simpl.
  - now rewrite app_nil_r.
  - rewrite IH, classify_unmatchedA, <- app_assoc.
    destruct (belowReview resolvedOptions (found a)); reflexivity.
Qed.

Lemma mem_In (x : string) (l : list string) : mem x l = true <-> In x l.
Proof.
  unfold mem. rewrite existsb_exists. split.
  - intros (y & Hy & E). apply String.eqb_eq in E. now subst.
  - intro H. exists x. split; [exact H | apply String.eqb_refl].
Qed.

Lemma Set_add_id_In (id x : string) (s : list string) :
  In x (Set_add_id id s) <-> x = id \/ In x s.
Proof.
  unfold Set_add_id. destruct (mem id s) eqn:E.
  - apply mem_In in E. split; [now right | intros [->|H]; trivial].
  - rewrite in_app_iff. simpl. intuition congruence.
Qed.

Lemma Set_add_id_NoDup (id : string) (s : list string) :
  NoDup s -> NoDup (Set_add_id id s).
Proof.
  intro N. unfold Set_add_id. destruct (mem id s) eqn:E; [exact N|].
  assert (~ In id s) as notin by (rewrite <- mem_In; congruence).
  clear E. induction N as [|y l Hy N IH]; simpl.
  - constructor; [intros [] | constructor].
  - constructor.
    + rewrite in_app_iff. simpl. intros [H|[H|[]]]; [now apply Hy|].
      subst. apply notin. now left.
    + apply IH. intro H. apply notin. now right.
Qed.

Lemma classify_matchedBIds (acc : accumulator) (productA : NormalizedProduct)
  (id : string) :
  In id (matchedBIds (classifyWith resolvedOptions found acc productA)) <->
  In id (matchedBIds acc) \/
  In id (map matchedBId (recordsFor resolvedOptions (found productA) productA)).
Proof.
  unfold classifyWith, classify, recordsFor.
  destruct (found productA) as [b|]; simpl; [|tauto].
  destruct (_ <? _); simpl; [tauto|].
  rewrite Set_add_id_In. unfold matchedBId. simpl. intuition congruence.
Qed.

(** The claimed identifiers are those of the B entities in the records. *)
Lemma fold_matchedBIds (productsA : list NormalizedProduct) (acc : accumulator)
  (id : string) :
  In id (matchedBIds (fold_left (classifyWith resolvedOptions found) productsA acc)) <->
  In id (matchedBIds acc) \/
  In id (map matchedBId
           (flat_map (fun a => recordsFor resolvedOptions (found a) a) productsA)).
Proof.
  revert acc. induction productsA as [|a rest IH]; intro acc; simpl.
  - tauto.
  - rewrite IH, classify_matchedBIds, map_app, in_app_iff. tauto.
Qed.

End OuterLoop.

(** [matchProducts] either throws or returns the assembled accumulators. *)
Lemma matchProducts_returns (productsA productsB : list NormalizedProduct)
  (options : Partial.MatchOptions) (result : MatchResult) :
  matchProducts productsA productsB options = Return result ->
  let resolved := resolveOptions options in
  (reviewThreshold resolved >? autoAcceptThreshold resolved) = false /\
  result = assemble productsB
             (fold_left
                (classifyWith resolved (fun a => scan resolved a productsB))
                productsA initial).
Proof.
  intros H resolved. unfold matchProducts in H. fold resolved in H.
  destruct (_ >? _); [discriminate|].
  injection H as <-. split; reflexivity.
Qed.

Lemma matches_of_result (productsA productsB : list NormalizedProduct)
  (options : Partial.MatchOptions) (result : MatchResult) :
  matchProducts productsA productsB options = Return result ->
  let resolved := resolveOptions options in
  matches result
  = flat_map (fun a => recordsFor resolved (scan resolved a productsB) a) productsA.
Proof.
  intros H resolved. apply matchProducts_returns in H as [_ ->].
  unfold assemble. simpl.
  now rewrite (fold_matches resolved (fun a => scan resolved a productsB)).
Qed.

Lemma unmatchedA_of_result (productsA productsB : list NormalizedProduct)
  (options : Partial.MatchOptions) (result : MatchResult) :
  matchProducts productsA productsB options = Return result ->
  let resolved := resolveOptions options in
  unmatchedA result
  = map summarizeProduct
      (filter (fun a => belowReview resolved (scan resolved a productsB)) productsA).
Proof.
  intros H resolved. apply matchProducts_returns in H as [_ ->].
  unfold assemble. simpl.
  now rewrite (fold_unmatchedA resolved (fun a => scan resolved a productsB)).
Qed.

Lemma recordsFor_length (resolved : MatchOptions)
  (found : NormalizedProduct -> option bestMatch) (productsA : list NormalizedProduct) :
  List.length (flat_map (fun a => recordsFor resolved (found a) a) productsA)
  = List.length (filter (fun a => negb (belowReview resolved (found a))) productsA).
Proof.
  induction productsA as [|a rest IH]; simpl; [reflexivity|].
  rewrite length_app, IH. unfold recordsFor, belowReview.
  destruct (found a) as [b|]; simpl; [|reflexivity].
  destruct (_ <? _); reflexivity.
Qed.

(** A record of the result comes from an A entity and the candidate the
    inner loop kept for it. *)
Lemma record_origin (productsA productsB : list NormalizedProduct)
  (options : Partial.MatchOptions) (result : MatchResult) (m : MatchRecord) :
  matchProducts productsA productsB options = Return result ->
  In m (matches result) ->
  let resolved := resolveOptions options in
  exists a best,
    In a productsA /\ scan resolved a productsB = Some best /\
    (Best.confidence best <? reviewThreshold resolved) = false /\
    m = recordOf resolved a best.
Proof.
  intros H Hm resolved.
  rewrite (matches_of_result _ _ _ _ H) in Hm. fold resolved in Hm.
  apply in_flat_map in Hm as (a & Ha & Hm).
  unfold recordsFor in Hm.
  destruct (scan resolved a productsB) as [best|] eqn:Escan; [|contradiction].
  destruct (_ <? _) eqn:Elow; [contradiction|].
  destruct Hm as [<-|[]]. exists a, best. auto.
Qed.

Lemma recordOf_decision (resolved : MatchOptions) (a : NormalizedProduct)
  (best : bestMatch) :
  (decision (recordOf resolved a best) = auto <->
   (Best.confidence best >=? autoAcceptThreshold resolved) = true) /\
  (decision (recordOf resolved a best) = review <->
   (Best.confidence best >=? autoAcceptThreshold resolved) = false).
Proof.
  unfold recordOf. cbn [decision].
  destruct (_ >=? _); split; split; congruence.
Qed.

(** ** C1: decision and confidence of a record *)

(** C1, as stated, fails: the record stores the confidence rounded to two
    decimals while the decision was taken on the unrounded value.  "apple
    juice" against "apple juice box" scores 49/54 = 0.907..., below an
    auto-accept threshold of 0.91, so the decision is [review]; the record
    shows a confidence of 0.91, which is not below the threshold. *)
Lemma rounded_confidence_disagrees_with_decision :
  let resolved := resolveOptions auto91 in
  exists result m,
    (reviewThreshold resolved <=? autoAcceptThreshold resolved) = true /\
    matchProducts [appleJuice] [appleJuiceBox] auto91 = Return result /\
    In m (matches result) /\
    decision m = review /\
    (confidence m >=? autoAcceptThreshold resolved) = true /\
    (confidence m <? autoAcceptThreshold resolved) = false.
Proof.
  eexists. eexists.
  split; [reflexivity|].
  split; [vm_compute; reflexivity|].
  split; [left; reflexivity|].
  repeat split; reflexivity.
Qed.

(** C1, amended: under a valid configuration every record of the result
    comes from an A entity and the best candidate kept for it; the record
    stores that candidate's confidence rounded to two decimals; the decision
    is [auto] iff the unrounded confidence is at least the auto-accept
    threshold, and, for a confidence that is a number, [review] iff the
    unrounded confidence is at least the review threshold and below the
    auto-accept threshold; the A entities whose best candidate is missing or
    below the review threshold are exactly those of [unmatchedA] and
    contribute no record. *)
Theorem decision_follows_unrounded_confidence
  (productsA productsB : list NormalizedProduct)
  (options : Partial.MatchOptions) (result : MatchResult) :
  let resolved := resolveOptions options in
  (reviewThreshold resolved <=? autoAcceptThreshold resolved) = true ->
  matchProducts productsA productsB options = Return result ->
  (forall m, In m (matches result) ->
     exists a best,
       In a productsA /\ scan resolved a productsB = Some best /\
       In (Best.product best) productsB /\
       Best.confidence best = pairConfidence a (Best.product best) /\
       productA m = summarizeProduct a /\
       productB m = summarizeProduct (Best.product best) /\
       confidence m = round (Best.confidence best) /\
       (Best.confidence best <? reviewThreshold resolved) = false /\
       (decision m = auto <->
        (Best.confidence best >=? autoAcceptThreshold resolved) = true) /\
       (isNaN (Best.confidence best) = false ->
        (decision m = review <->
         (reviewThreshold resolved <=? Best.confidence best) = true /\
         (Best.confidence best <? autoAcceptThreshold resolved) = true))) /\
  unmatchedA result
  = map summarizeProduct
      (filter (fun a => belowReview resolved (scan resolved a productsB)) productsA) /\
  List.length (matches result)
  = List.length
      (filter (fun a => negb (belowReview resolved (scan resolved a productsB)))
         productsA).
Proof.
  intros resolved Hvalid H.
  destruct (leb_not_NaN _ _ Hvalid) as [Hr Ha].
  split; [|split].
  - intros m Hm.
    destruct (record_origin _ _ _ _ _ H Hm) as (a & best & Hin & Hscan & Hlow & ->).
    fold resolved in Hscan, Hlow |- *.
    pose proof (scan_kept resolved a productsB) as K.
    rewrite Hscan in K. destruct K as (KB & Kc & _).
    destruct (recordOf_decision resolved a best) as [Hauto Hreview].
    exists a, best.
    do 8 (split; [first [assumption | reflexivity]|]).
    split; [exact Hauto|].
    intro Hnum. rewrite Hreview. split.
    + intro Hge. split; [now apply ltb_false_leb | now apply geb_false_ltb].
    + intros (_ & Hlt). now apply ltb_geb_false.
  - exact (unmatchedA_of_result _ _ _ _ H).
  - rewrite (matches_of_result _ _ _ _ H). apply recordsFor_length.
Qed.

Lemma decision_follows_unrounded_confidence_witness :
  let resolved := resolveOptions defaults in
  (reviewThreshold resolved <=? autoAcceptThreshold resolved) = true /\
  exists result,
    matchProducts [cocaCola; dasani] [coke; aquafina] defaults = Return result /\
    map decision (matches result) = [auto] /\
    map Summary.sourceId (unmatchedA result) = ["A-5"%string].
Proof.
  split; [reflexivity|].
  eexists. split; [vm_compute; reflexivity|].
  match goal with
  | |- map decision (matches ?r) = _ /\ _ =>
      assert (Hrun : matchProducts [cocaCola; dasani] [coke; aquafina] defaults
                     = Return r) by (vm_compute; reflexivity);
      destruct (decision_follows_unrounded_confidence
                  [cocaCola; dasani] [coke; aquafina] defaults r
                  eq_refl Hrun) as (Hrecords & Hunmatched & Hcount)
  end.
  split; [reflexivity|].
  rewrite Hunmatched. vm_compute. reflexivity.
Defined.

(** ** C2: the B identifiers *)

Lemma claimed_ids_of_result (productsA productsB : list NormalizedProduct)
  (options : Partial.MatchOptions) (result : MatchResult) :
  matchProducts productsA productsB options = Return result ->
  unmatchedB result
  = map summarizeProduct
      (filter (fun b => negb (mem (sourceId b) (map matchedBId (matches result))))
         productsB).
Proof.
  intro H. rewrite (matches_of_result _ _ _ _ H).
  apply matchProducts_returns in H as [_ ->].
  unfold assemble. cbn [unmatchedB]. f_equal.
  apply filter_ext. intro b. f_equal.
  set (resolved := resolveOptions options).
  pose proof (fold_matchedBIds resolved (fun a => scan resolved a productsB)
                productsA initial (sourceId b)) as F.
  cbn [initial matchedBIds In] in F.
  destruct (mem (sourceId b) (map matchedBId _)) eqn:E.
  - apply mem_In. apply F. right. now apply mem_In.
  - destruct (mem (sourceId b) (matchedBIds _)) eqn:E'; [|reflexivity].
    apply mem_In in E'. apply F in E' as [[]|E'].
    apply mem_In in E'. congruence.
Qed.

Lemma matched_id_in_B (productsA productsB : list NormalizedProduct)
  (options : Partial.MatchOptions) (result : MatchResult) (id : string) :
  matchProducts productsA productsB options = Return result ->
  In id (map matchedBId (matches result)) -> In id (map sourceId productsB).
Proof.
  intros H Hid. apply in_map_iff in Hid as (m & <- & Hm).
  destruct (record_origin _ _ _ _ _ H Hm) as (a & best & _ & Hscan & _ & ->).
  pose proof (scan_kept (resolveOptions options) a productsB) as K.
  rewrite Hscan in K. destruct K as (KB & _).
  unfold matchedBId, recordOf. cbn. now apply in_map.
Qed.

(** Filtering B keeps its identifiers distinct. *)
Lemma kept_ids_distinct (keep : NormalizedProduct -> bool)
  (productsB : list NormalizedProduct) :
  NoDup (map sourceId productsB) ->
  NoDup (map sourceId (filter keep productsB)).
Proof.
  induction productsB as [|b rest IH]; simpl; intro N; [constructor|].
  inversion N as [|? ? Hfresh N']; subst.
  destruct (keep b); simpl; [|now apply IH].
  constructor; [|now apply IH].
  intro Hin. apply Hfresh. apply in_map_iff in Hin as (b' & E & Hb').
  apply filter_In in Hb' as [Hb' _]. rewrite <- E. now apply in_map.
Qed.

Lemma map_flat_map {A B C : Type} (f : B -> C) (g : A -> list B) (l : list A) :
  map f (flat_map g l) = flat_map (fun x => map f (g x)) l.
Proof.
  induction l as [|x l IH]; simpl; [reflexivity|]. now rewrite map_app, IH.
Qed.

(** The identifiers of the records, A entity by A entity. *)
Lemma matched_ids_of_result (productsA productsB : list NormalizedProduct)
  (options : Partial.MatchOptions) (result : MatchResult) :
  matchProducts productsA productsB options = Return result ->
  map matchedBId (matches result)
  = flat_map
      (fun a =>
         match selectedBId (resolveOptions options) productsB a with
         | Some id => [id]
         | None => []
         end)
      productsA.
Proof.
  intro H. rewrite (matches_of_result _ _ _ _ H), map_flat_map.
  apply flat_map_ext. intro a. unfold recordsFor, selectedBId.
  destruct (scan (resolveOptions options) a productsB) as [best|]; [|reflexivity].
  destruct (_ <? _); reflexivity.
Qed.

Lemma count_selected (selected : NormalizedProduct -> option string)
  (productsA : list NormalizedProduct) (id : string) :
  count_occ string_dec
    (flat_map (fun a => match selected a with Some id' => [id'] | None => [] end)
       productsA) id
  = List.length
      (filter
         (fun a => match selected a with
                   | Some id' => String.eqb id' id
                   | None => false
                   end)
         productsA).
Proof.
  induction productsA as [|a rest IH]; [reflexivity|].
  cbn [flat_map filter]. rewrite count_occ_app, IH.
  destruct (selected a) as [id'|]; [|reflexivity].
  cbn [count_occ]. destruct (string_dec id' id) as [->|Hne].
  - now rewrite String.eqb_refl.
  - apply String.eqb_neq in Hne. now rewrite Hne.
Qed.

(** C2, as stated, fails: nothing makes a B entity exclusive.  Two A
    entities that both select "Coke 20 oz" give two records with the same B
    identifier, so the matched identifiers contain a duplicate. *)
Lemma one_B_identifier_in_two_records :
  exists result,
    matchProducts [cocaCola; cokeCan] [coke] defaults = Return result /\
    map matchedBId (matches result) = ["B-1"; "B-1"]%string /\
    ~ NoDup (map matchedBId (matches result)).
Proof.
  eexists. split; [vm_compute; reflexivity|].
  split; [reflexivity|].
  cbn. intro N. inversion N as [|? ? Hnotin _]. apply Hnotin. now left.
Qed.

(** C2, amended: in the result of [matchProducts] every B identifier is
    either the identifier of the B entity of some record or the identifier
    of an entry of [unmatchedB], never both, and no other identifier occurs
    in either; a matched identifier occurs in one record for each A entity
    that selected it: the identifiers of the records are, in the order of A,
    the identifiers that the A entities select, so an identifier occurs in
    as many records as there are A entities that select it; [unmatchedB]
    lists, in input order, the B entities whose identifier no record
    carries, and has no duplicate identifier when B has none. *)
Theorem B_identifiers_split
  (productsA productsB : list NormalizedProduct)
  (options : Partial.MatchOptions) (result : MatchResult) :
  matchProducts productsA productsB options = Return result ->
  let resolved := resolveOptions options in
  let matched := map matchedBId (matches result) in
  let unmatched := map Summary.sourceId (unmatchedB result) in
  (forall id, In id (map sourceId productsB) ->
     (In id matched \/ In id unmatched) /\ ~ (In id matched /\ In id unmatched)) /\
  (forall id, In id matched \/ In id unmatched -> In id (map sourceId productsB)) /\
  unmatchedB result
  = map summarizeProduct
      (filter (fun b => negb (mem (sourceId b) matched)) productsB) /\
  (NoDup (map sourceId productsB) -> NoDup unmatched) /\
  matched
  = flat_map
      (fun a =>
         match selectedBId resolved productsB a with
         | Some id => [id]
         | None => []
         end)
      productsA /\
  (forall id,
     count_occ string_dec matched id
     = List.length (filter (selects resolved productsB id) productsA)).
Proof.
  intros H resolved matched unmatched.
  pose proof (claimed_ids_of_result _ _ _ _ H) as HU. fold matched in HU.
  assert (Hunmatched :
    unmatched
    = map sourceId (filter (fun b => negb (mem (sourceId b) matched)) productsB)).
  { unfold unmatched. rewrite HU, map_map. reflexivity. }
  assert (Hin : forall id, In id unmatched <->
                  In id (map sourceId productsB) /\ ~ In id matched).
  { intro id. rewrite Hunmatched, !in_map_iff. split.
    - intros (b & <- & Hb). apply filter_In in Hb as [Hb Hm].
      split; [now exists b|].
      rewrite <- mem_In. destruct (mem (sourceId b) matched); [discriminate|congruence].
    - intros ((b & <- & Hb) & Hno). exists b. split; [reflexivity|].
      apply filter_In. split; [exact Hb|].
      destruct (mem (sourceId b) matched) eqn:E; [|reflexivity].
      apply mem_In in E. contradiction. }
  split; [|split; [|split; [|split; [|split]]]].
  - intros id Hid. split.
    + destruct (mem id matched) eqn:E.
      * left. now apply mem_In.
      * right. apply Hin. split; [exact Hid|]. rewrite <- mem_In. congruence.
    + intros [Hm Hu]. apply Hin in Hu as [_ Hu]. contradiction.
  - intros id [Hm|Hu].
    + exact (matched_id_in_B _ _ _ _ _ H Hm).
    + now apply Hin in Hu.
  - exact HU.
  - intro N. rewrite Hunmatched. now apply kept_ids_distinct.
  - exact (matched_ids_of_result _ _ _ _ H).
  - intro id. unfold matched. rewrite (matched_ids_of_result _ _ _ _ H).
    apply (count_selected (selectedBId resolved productsB)).
Qed.

Lemma B_identifiers_split_witness :
  exists result,
    matchProducts [cocaCola; cokeCan] [coke; aquafina] defaults = Return result /\
    map Summary.sourceId (unmatchedB result) = ["B-5"%string] /\
    NoDup (map Summary.sourceId (unmatchedB result)) /\
    count_occ string_dec (map matchedBId (matches result)) "B-1"%string
    = List.length
        (filter (selects (resolveOptions defaults) [coke; aquafina] "B-1"%string)
           [cocaCola; cokeCan]) /\
    List.length
      (filter (selects (resolveOptions defaults) [coke; aquafina] "B-1"%string)
         [cocaCola; cokeCan]) = 2%nat.
Proof.
  eexists. split; [vm_compute; reflexivity|].
  match goal with
  | |- map Summary.sourceId (unmatchedB ?r) = _ /\ _ =>
      assert (Hrun : matchProducts [cocaCola; cokeCan] [coke; aquafina] defaults
                     = Return r) by (vm_compute; reflexivity);
      destruct (B_identifiers_split
                  [cocaCola; cokeCan] [coke; aquafina] defaults r Hrun)
        as (_ & _ & _ & Hnodup & _ & Hcount)
  end.
  split; [reflexivity|]. split.
  - apply Hnodup. cbn.
    constructor; [|constructor; [intros []|constructor]].
    intros [E|[]]. discriminate E.
  - split; [apply Hcount | vm_compute; reflexivity].
Defined.

(** ** C3: the confidence formula *)

Lemma isLikelyUPC_scannable (code : option string) :
  isLikelyUPC code = scannable code.
Proof. destruct code as [[|c s]|]; reflexivity. Qed.

Lemma price_available (a b : NormalizedProduct) :
  match price a, price b with
  | Some _, Some _ => true
  | _, _ => false
  end = is_some (price a) && is_some (price b).
Proof. destruct (price a), (price b); reflexivity. Qed.

(** [computeConfidence] is the stated formula over the attributes that are
    available by truthiness. *)
Lemma computeConfidence_stated (scores : FeatureScores) (a b : NormalizedProduct) :
  computeConfidence scores a b = statedConfidence (availableTruthy a b) scores.
Proof.
  unfold computeConfidence, components, statedConfidence, attributes.
  cbn [filter availableTruthy].
  rewrite !isLikelyUPC_scannable, price_available.
  destruct (scannable (scancode a) && scannable (scancode b));
  destruct (present (brand a) && present (brand b));
  destruct (present_number (sizeOz a) && present_number (sizeOz b));
  destruct (present (category a) && present (category b));
  destruct (is_some (price a) && is_some (price b));
  reflexivity.
Qed.

Lemma total_weights (attrs : list Attribute) (q0 : Q) :
  exists q, fold_left add (map attributeWeight attrs) (Finite q0) = Finite q /\
            (q0 <= q)%Q /\ (attrs <> [] -> (q0 < q)%Q).
Proof.
  revert q0. induction attrs as [|attr rest IH]; intro q0; simpl.
  - exists q0. split; [reflexivity|]. split; [lra | congruence].
  - assert (Hw : exists w, attributeWeight attr = Finite w /\ (0 < w)%Q).
    { destruct attr; eexists; (split; [reflexivity | reflexivity]). }
    destruct Hw as (w & -> & Hpos). simpl.
    destruct (IH (q0 + w)%Q) as (q & -> & Hle & _).
    exists q. split; [reflexivity|]. split; [lra | intros _; lra].
Qed.

Lemma total_scores (scores : FeatureScores) (attrs : list Attribute) (q0 : Q) :
  forallb (fun attr => finite (attributeScore scores attr)) attrs = true ->
  exists q,
    fold_left add
      (map (fun attr => attributeScore scores attr * attributeWeight attr) attrs)
      (Finite q0) = Finite q.
Proof.
  revert q0. induction attrs as [|attr rest IH]; intros q0 Hfin; simpl.
  - now exists q0.
  - simpl in Hfin. apply andb_true_iff in Hfin as [Hattr Hrest].
    destruct (attributeScore scores attr) as [| |s]; try discriminate.
    assert (Hw : exists w, attributeWeight attr = Finite w)
      by (destruct attr; eexists; reflexivity).
    destruct Hw as (w & ->). simpl. apply IH, Hrest.
Qed.

Lemma forallb_filter {A : Type} (p q : A -> bool) (l : list A) :
  forallb p l = true -> forallb p (filter q l) = true.
Proof.
  induction l as [|x l IH]; simpl; [trivial|].
  intro H. apply andb_true_iff in H as [Hx Hl].
  destruct (q x); simpl; [rewrite Hx|]; auto.
Qed.

Lemma statedConfidence_range (available : Attribute -> bool) (scores : FeatureScores) :
  (isNaN (statedConfidence available scores) = true \/
   in_unit_interval (statedConfidence available scores) = true) /\
  (finiteScores scores = true ->
   in_unit_interval (statedConfidence available scores) = true).
Proof.
  unfold statedConfidence.
  destruct (filter available attributes) as [|attr attrs] eqn:Echosen.
  - split; [right|intros _]; reflexivity.
  - split.
    + pose proof (clamp_unit
        (weightedAverage (attr :: attrs) scores
         - Scores.dietPenalty scores * num_0_05)) as C.
      destruct (weightedAverage _ _ - _); [left; now rewrite C | right; exact C ..].
    + unfold finiteScores. intro Hfin. apply andb_true_iff in Hfin as [Hall Hpen].
      assert (Hchosen : forallb (fun t => finite (attributeScore scores t))
                          (attr :: attrs) = true).
      { rewrite <- Echosen. now apply forallb_filter. }
      unfold weightedAverage, total, num_0.
      destruct (total_scores scores (attr :: attrs) 0 Hchosen) as (x & ->).
      destruct (total_weights (attr :: attrs) 0) as (w & -> & _ & Hpos).
      assert (Hw : (0 < w)%Q) by (apply Hpos; discriminate).
      assert (Hnz : Qzero w = false) by (apply Qzero_false; lra).
      destruct (Scores.dietPenalty scores) as [| |d]; try discriminate.
      unfold div. rewrite Hnz.
      exact (clamp_unit (Finite (x / w + - (d * (5 # 100)))%Q)).
Qed.

(** C3, as stated, fails: an attribute that is present but falsy is left
    out of the average.  "Water 0oz" carries a size of 0; scored against
    itself the name and brand scores are 1 and the size score is 0.  The code
    gives confidence 1 (size excluded); counting the size as available, as
    the claim does, gives 0.45 / 0.65 = 9/13. *)
Lemma falsy_size_is_left_out :
  let scores := computeFeatureScores waterZero waterZero in
  sizeOz waterZero = Some (Finite 0) /\
  computeConfidence scores waterZero waterZero = num_1 /\
  same (statedConfidence (availableStated waterZero waterZero) scores)
       (Finite (9 # 13)%Q) /\
  (computeConfidence scores waterZero waterZero
   === statedConfidence (availableStated waterZero waterZero) scores) = false.
Proof.
  vm_compute. repeat split.
Qed.

(** C3, amended: for every score vector and entity pair, [computeConfidence]
    is the weighted average over the available attributes (weights 0.25,
    0.25, 0.20, 0.20, 0.05, 0.05), minus [dietPenalty * 0.05], clamped to
    [[0,1]], where the identifier is available when both scan codes are
    digit strings of 8 to 14 characters, brand and category when both sides
    are present and not empty, size when both sides are present and neither
    zero nor [NaN], price when both sides are numbers, and the name always;
    the result is in [[0,1]] whenever it is a number, and it is a number
    whenever the scores and the penalty are finite. *)
Theorem confidence_is_weighted_average_of_truthy_attributes
  (scores : FeatureScores) (a b : NormalizedProduct) :
  computeConfidence scores a b = statedConfidence (availableTruthy a b) scores /\
  (isNaN (computeConfidence scores a b) = true \/
   in_unit_interval (computeConfidence scores a b) = true) /\
  (finiteScores scores = true ->
   in_unit_interval (computeConfidence scores a b) = true).
Proof.
  rewrite computeConfidence_stated. split; [reflexivity|].
  apply statedConfidence_range.
Qed.

Lemma confidence_is_weighted_average_of_truthy_attributes_witness :
  finiteScores (computeFeatureScores cocaCola coke) = true /\
  in_unit_interval (pairConfidence cocaCola coke) = true.
Proof.
  split; [vm_compute; reflexivity|].
  apply (confidence_is_weighted_average_of_truthy_attributes
           (computeFeatureScores cocaCola coke) cocaCola coke).
  vm_compute; reflexivity.
Defined.

(** ** C4: name normalization twice *)

(** C4 fails at "12 fl ounces": "fl oz" is folded before "ounces" is, so
    the first pass leaves "12 fl oz" and a second pass turns it into
    "12 oz". *)
Theorem normalizeName_not_idempotent :
  normalizeName "12 fl ounces" = "12 fl oz"%string /\
  normalizeName (normalizeName "12 fl ounces") = "12 oz"%string /\
  normalizeName (normalizeName "12 fl ounces") <> normalizeName "12 fl ounces".
Proof.
  repeat split. vm_compute. discriminate.
Qed.

(** The same happens inside a word, and across a hyphen. *)
Example normalizeName_flounce :
  normalizeName "Flounce" = "floz"%string /\
  normalizeName "floz" = "oz"%string /\
  normalizeName "Fl-Oz" = "fl oz"%string /\
  normalizeName "fl oz" = "oz"%string.
Proof. repeat split. Qed.

(** ** C5: an entity against itself *)

Lemma jsval_eqb_eq (v w : jsval) : jsval_eqb v w = true <-> v = w.
Proof.
  destruct v as [s|m], w as [t|n]; simpl; try (split; discriminate).
  - rewrite String.eqb_eq. split; congruence.
  - rewrite String.eqb_eq. split; congruence.
Qed.

Lemma Set_has_In (s : list jsval) (x : jsval) : Set_has s x = true <-> In x s.
Proof.
  unfold Set_has. rewrite existsb_exists. split.
  - intros (y & Hy & E). apply jsval_eqb_eq in E. now subst.
  - intro H. exists x. split; [exact H | now apply jsval_eqb_eq].
Qed.





Lemma Set_add_elements (x y : jsval) (s : list jsval) :
  In y (Set_add x s) <-> y = x \/ In y s.
Proof.
  unfold Set_add. destruct (existsb (jsval_eqb x) s) eqn:E.
  - apply (Set_has_In s x) in E. split; [now right | intros [->|H]; assumption].
  - rewrite in_app_iff. simpl. intuition.
Qed.

Lemma Set_of_elements (values : list jsval) (x : jsval) :
  In x (Set_of values) <-> In x values.
Proof.
  unfold Set_of.
  assert (G : forall s,
    In x (fold_left (fun s x => Set_add x s) values s) <-> In x s \/ In x values).
  { induction values as [|v rest IH]; intro s; simpl; [tauto|].
    rewrite IH, Set_add_elements. intuition. }
  rewrite G. simpl. tauto.
Qed.

Lemma Set_add_NoDup (x : jsval) (s : list jsval) : NoDup s -> NoDup (Set_add x s).
Proof.
  intro N. unfold Set_add. destruct (existsb (jsval_eqb x) s) eqn:E; [exact N|].
  apply NoDup_app; [exact N | constructor; [intros [] | constructor] |].
  intros y Hy [E'|[]]. subst y. apply (Set_has_In s x) in Hy.
  unfold Set_has in Hy. congruence.
Qed.

Lemma Set_of_NoDup (values : list jsval) : NoDup (Set_of values).
Proof.
  unfold Set_of.
  assert (G : forall s, NoDup s ->
                NoDup (fold_left (fun s x => Set_add x s) values s)).
  { induction values as [|v rest IH]; intros s N; simpl; [exact N|].
    apply IH. now apply Set_add_NoDup. }
  apply G. constructor.
Qed.

Lemma filter_all {A : Type} (p : A -> bool) (l : list A) :
  (forall x, In x l -> p x = true) -> filter p l = l.
Proof.
  induction l as [|x l IH]; simpl; intro H; [reflexivity|].
  rewrite (H x) by now left. f_equal. apply IH. intros y Hy. apply H. now right.
Qed.



Lemma Map_get_None (counts : list (string * nat)) (key : string) :
  Map_get counts key = None <-> ~ In key (map fst counts).
Proof.
  induction counts as [|[k n] rest IH]; simpl; [tauto|].
  destruct (String.eqb k key) eqn:E.
  - apply String.eqb_eq in E. split; [discriminate | intro H; exfalso; auto].
  - apply String.eqb_neq in E. rewrite IH. tauto.
Qed.

Lemma Map_get_In (counts : list (string * nat)) (key : string) (n : nat) :
  NoDup (map fst counts) -> In (key, n) counts -> Map_get counts key = Some n.
Proof.
  induction counts as [|[k m] rest IH]; simpl; intros N Hin; [contradiction|].
  inversion N as [|? ? Hk N']; subst.
  destruct Hin as [E|Hin].
  - injection E as -> ->. now rewrite String.eqb_refl.
  - destruct (String.eqb k key) eqn:E.
    + apply String.eqb_eq in E. subst. exfalso. apply Hk.
      apply in_map_iff. now exists (key, n).
    + now apply IH.
Qed.

(** What [countOccurrences] maintains: distinct keys, positive counts, and
    counts that add up to the number of values read. *)
Lemma Map_set_counts (counts : list (string * nat)) (key : string) :
  NoDup (map fst counts) ->
  Forall (fun entry => 1 <= snd entry)%nat counts ->
  let counts' :=
    Map_set counts key
      (match Map_get counts key with Some n => n | None => 0 end + 1)%nat in
  NoDup (map fst counts') /\
  Forall (fun entry => 1 <= snd entry)%nat counts' /\
  list_sum (map snd counts') = S (list_sum (map snd counts)).
Proof.
  induction counts as [|[k m] rest IH]; simpl; intros N F.
  - repeat constructor. intros [].
  - inversion N as [|? ? Hk N']; subst. inversion F as [|? ? Hm F']; subst.
    destruct (String.eqb k key) eqn:E; simpl.
    + split; [exact N|]. split; [constructor; [simpl; lia | exact F']|]. lia.
    + destruct (IH N' F') as (N'' & F'' & S'').
      apply String.eqb_neq in E.
      split; [|split].
      * constructor; [|exact N''].
        intro Hin. apply Hk.
        clear - Hin E. induction rest as [|[k' m'] rest IH]; simpl in *.
        -- destruct Hin as [->|[]]. congruence.
        -- destruct (String.eqb k' key); simpl in Hin; tauto.
      * constructor; [exact Hm | exact F''].
      * rewrite S''. lia.
Qed.

Lemma countOccurrences_counts (values : list string) :
  NoDup (map fst (countOccurrences values)) /\
  Forall (fun entry => 1 <= snd entry)%nat (countOccurrences values) /\
  list_sum (map snd (countOccurrences values)) = List.length values.
Proof.
  unfold countOccurrences.
  assert (G : forall counts,
    NoDup (map fst counts) ->
    Forall (fun entry => 1 <= snd entry)%nat counts ->
    let final :=
      fold_left
        (fun counts value =>
           Map_set counts value
             (match Map_get counts value with Some n => n | None => 0 end + 1)%nat)
        values counts in
    NoDup (map fst final) /\
    Forall (fun entry => 1 <= snd entry)%nat final /\
    list_sum (map snd final)
    = (list_sum (map snd counts) + List.length values)%nat).
  { induction values as [|v rest IH]; intros counts N F; simpl.
    - split; [exact N|]. split; [exact F | lia].
    - destruct (Map_set_counts counts v N F) as (N' & F' & S').
      destruct (IH _ N' F') as (N'' & F'' & S'').
      split; [exact N''|]. split; [exact F''|]. rewrite S'', S'. lia. }
  apply (G [] (NoDup_nil _) (Forall_nil _)).
Qed.






Lemma div_finite (a b : Q) :
  Qzero b = false -> Finite a / Finite b = Finite (a / b)%Q.
Proof. intro H. unfold div. now rewrite H. Qed.


















(** With a repeated token the token score exceeds 1: [scoreNameTokens]
    counts the intersection over the list [tokensA], not over [setA]. *)
Example repeated_token_scores_two :
  tokens pepsiTwice = [Str "pepsi"; Str "pepsi"] /\
  Scores.name (computeFeatureScores pepsiTwice pepsiTwice) = Finite 2.
Proof.
  vm_compute. repeat split.
Qed.



(** ** C7: the early skip *)

Lemma ltb_below_floor (b c f : number) :
  (b <? f) = true -> (c <? f) = false -> isNaN c = false -> (b <? c) = true.
Proof. destruct b as [|[]|x], c as [|[]|y], f as [|[]|z]; by_cases. Qed.

Lemma ltb_above_floor (b c f : number) :
  (c <? f) = true -> (b <? f) = false -> (b <? c) = false.
Proof. destruct b as [|[]|x], c as [|[]|y], f as [|[]|z]; by_cases. Qed.

Lemma ltb_both_below (b c f : number) :
  (b <? f) = true -> (c <? f) = true -> ((if b <? c then c else b) <? f) = true.
Proof. intros Hb Hc. destruct (b <? c); assumption. Qed.

Lemma unit_not_NaN (x : number) : in_unit_interval x = true -> isNaN x = false.
Proof. destruct x; simpl; trivial; discriminate. Qed.

(** A confidence below the skip floor is below the review threshold. *)
Lemma floor_below_review (c r : number) :
  in_unit_interval c = true -> (c <? r * num_0_65) = true -> (c <? r) = true.
Proof.
  unfold in_unit_interval, num_0_65, num_0, num_1.
  destruct c as [|[]|x], r as [|[]|y]; simpl; try discriminate; trivial.
  intros Hunit Hfloor. apply andb_true_iff in Hunit as [H0 H1].
  reflect_Q. lra.
Qed.

Lemma consider_aligned (resolved : MatchOptions) (a b : NormalizedProduct)
  (withSkip withoutSkip : option bestMatch) :
  in_unit_interval (pairConfidence a b) = true ->
  aligned resolved withSkip withoutSkip ->
  aligned resolved (consider resolved a withSkip b) (NoSkip.consider a withoutSkip b).
Proof.
  intros Hunit Hal. unfold consider, NoSkip.consider.
  fold (pairConfidence a b).
  set (c := pairConfidence a b) in *.
  set (floor := reviewThreshold resolved * num_0_65) in *.
  set (candidate := {| Best.product := b; Best.confidence := c;
                       Best.scores := computeFeatureScores a b |}).
  pose proof (unit_not_NaN _ Hunit) as Hnum.
  destruct withoutSkip as [n|]; simpl in Hal.
  - destruct Hal as [Hn Hal]. fold floor in Hal. unfold gtb.
    destruct (Best.confidence n <? floor) eqn:En; subst withSkip.
    + destruct (c <? floor) eqn:Ec.
      * destruct (Best.confidence n <? c); simpl; fold floor;
          [rewrite Ec | rewrite En]; auto.
      * rewrite (ltb_below_floor _ _ _ En Ec Hnum). simpl. fold floor.
        rewrite Ec. auto.
    + destruct (c <? floor) eqn:Ec.
      * rewrite (ltb_above_floor _ _ _ Ec En). simpl. fold floor.
        rewrite En. auto.
      * destruct (Best.confidence n <? c); simpl; fold floor;
          [rewrite Ec | rewrite En]; auto.
  - subst withSkip. simpl. fold floor.
    destruct (c <? floor); auto.
Qed.

Lemma scan_aligned (resolved : MatchOptions) (a : NormalizedProduct)
  (productsB : list NormalizedProduct) :
  (forall b, In b productsB -> in_unit_interval (pairConfidence a b) = true) ->
  aligned resolved (scan resolved a productsB) (NoSkip.scan a productsB).
Proof.
  unfold scan, NoSkip.scan.
  assert (G : forall withSkip withoutSkip,
    (forall b, In b productsB -> in_unit_interval (pairConfidence a b) = true) ->
    aligned resolved withSkip withoutSkip ->
    aligned resolved
      (fold_left (consider resolved a) productsB withSkip)
      (fold_left (NoSkip.consider a) productsB withoutSkip)).
  { induction productsB as [|b rest IH]; intros s n Hunit Hal; simpl; [exact Hal|].
    apply IH.
    - intros b' Hb'. apply Hunit. now right.
    - apply consider_aligned; [apply Hunit; now left | exact Hal]. }
  intro Hunit. apply G; [exact Hunit | reflexivity].
Qed.

(** Aligned candidates are classified alike. *)
Lemma classify_aligned (resolved : MatchOptions) (acc : accumulator)
  (a : NormalizedProduct) (withSkip withoutSkip : option bestMatch) :
  aligned resolved withSkip withoutSkip ->
  classify resolved acc a withSkip = classify resolved acc a withoutSkip.
Proof.
  destruct withoutSkip as [n|]; simpl; [|now intros ->].
  intros [Hn Hal].
  destruct (Best.confidence n <? reviewThreshold resolved * num_0_65) eqn:E;
    subst withSkip; [|reflexivity].
  unfold classify. now rewrite (floor_below_review _ _ Hn E).
Qed.

Lemma fold_left_agree {A B : Type} (f g : A -> B -> A) (l : list B) (acc : A) :
  (forall acc x, In x l -> f acc x = g acc x) ->
  fold_left f l acc = fold_left g l acc.
Proof.
  revert acc. induction l as [|x l IH]; intros acc H; simpl; [reflexivity|].
  rewrite (H acc x) by now left. apply IH. intros acc' y Hy. apply H. now right.
Qed.

(** Where every pair has a confidence in [[0,1]], the skip changes nothing. *)
Lemma skip_is_transparent (productsA productsB : list NormalizedProduct)
  (options : Partial.MatchOptions) :
  (forall a b, In a productsA -> In b productsB ->
     in_unit_interval (pairConfidence a b) = true) ->
  matchProducts productsA productsB options
  = NoSkip.matchProducts productsA productsB options.
Proof.
  intro Hunit. unfold matchProducts, NoSkip.matchProducts.
  destruct (_ >? _); [reflexivity|]. do 2 f_equal.
  apply fold_left_agree. intros acc a Ha.
  unfold matchOne, NoSkip.matchOne.
  apply classify_aligned, scan_aligned. intros b Hb. now apply Hunit.
Qed.

(** C7 fails when a confidence is not a number.  "Dasani Water 16.9oz"
    scores 0.44 against "Aquafina Bottled Water 16oz" and [NaN] against an
    entity whose size is [Infinity].  With [reviewThreshold] 0.7 the skip
    floor is 0.455: the first candidate is skipped, the [NaN] candidate is
    kept and, every comparison with [NaN] being false, ends as a [review]
    match.  Without the skip the first candidate is kept, [NaN] does not
    replace it, and the entity is unmatched. *)
Theorem skip_changes_the_result :
  let resolved := resolveOptions review70 in
  (reviewThreshold resolved <=? autoAcceptThreshold resolved) = true /\
  same (pairConfidence dasani aquafina) (Finite (21289 # 48334)%Q) /\
  pairConfidence dasani bulkWater = NaN /\
  exists withSkip withoutSkip,
    matchProducts [dasani] [aquafina; bulkWater] review70 = Return withSkip /\
    NoSkip.matchProducts [dasani] [aquafina; bulkWater] review70
    = Return withoutSkip /\
    map decision (matches withSkip) = [review] /\
    map matchedBId (matches withSkip) = ["B-6"%string] /\
    unmatchedA withSkip = [] /\
    matches withoutSkip = [] /\
    unmatchedA withoutSkip = [summarizeProduct dasani] /\
    withSkip <> withoutSkip.
Proof.
  split; [reflexivity|].
  split; [vm_compute; reflexivity|].
  split; [vm_compute; reflexivity|].
  eexists. eexists.
  split; [vm_compute; reflexivity|].
  split; [vm_compute; reflexivity|].
  repeat split. discriminate.
Qed.

(** ** Scores that are numbers *)

Lemma of_nat_ratio_finite (m n : nat) :
  n <> 0%nat -> finite (of_nat m / of_nat n) = true.
Proof.
  intro Hn. unfold of_nat. rewrite div_finite; [reflexivity|].
  apply Qzero_false. unfold Qeq. simpl. lia.
Qed.

Lemma scoreNameTokens_finite (tokensA tokensB : list jsval) :
  finite (scoreNameTokens tokensA tokensB) = true.
Proof.
  unfold scoreNameTokens.
  destruct (_ || _); [reflexivity|].
  destruct (List.length (Set_of (tokensA ++ tokensB)) =? 0)%nat eqn:E;
    [reflexivity|].
  apply of_nat_ratio_finite. now apply Nat.eqb_neq.
Qed.

Lemma scoreCharacterBigram_finite (a b : string) :
  finite (scoreCharacterBigram a b) = true.
Proof.
  unfold scoreCharacterBigram.
  destruct (List.length (buildBigrams a) =? 0)%nat eqn:E; [reflexivity|].
  destruct (List.length (buildBigrams b) =? 0)%nat; [reflexivity|].
  cbn [orb]. apply of_nat_ratio_finite. apply Nat.eqb_neq in E. lia.
Qed.

Lemma Math_max_finite (x y : number) :
  finite x = true -> finite y = true -> finite (Math_max x y) = true.
Proof.
  destruct x as [| |a], y as [| |b]; try discriminate. intros _ _.
  unfold Math_max, ltb. destruct (Qlt_bool a b); reflexivity.
Qed.

Lemma clamp_finite_number (x : number) :
  finite x = true -> finite (clamp x num_0 num_1) = true.
Proof.
  destruct x as [| |a]; try discriminate. intros _.
  destruct (clamp_finite a) as (q & -> & _). reflexivity.
Qed.

Lemma scoreSize_finite (x y : option number) :
  match x with Some (Infinity _) => false | _ => true end = true ->
  match y with Some (Infinity _) => false | _ => true end = true ->
  finite (scoreSize x y) = true.
Proof.
  destruct x as [x|], y as [y|]; try reflexivity.
  intros Hx Hy. unfold scoreSize.
  destruct (negb (truthy x) || negb (truthy y)) eqn:E; [reflexivity|].
  apply orb_false_iff in E as [Ex Ey].
  destruct x as [|s|a], y as [|t|b]; try discriminate.
  simpl in Ex, Ey. apply negb_false_iff, negb_true_iff in Ex, Ey.
  cbn [sub neg add Math_abs].
  apply clamp_finite_number, Math_max_finite; [reflexivity|].
  assert (Hmax : exists m, Math_max (Finite a) (Finite b) = Finite m /\
                           Qzero m = false).
  { unfold Math_max, ltb. destruct (Qlt_bool a b); eauto. }
  destruct Hmax as (m & -> & Hm). rewrite (div_finite _ _ Hm). reflexivity.
Qed.

Lemma Qeq_bool_Qzero (q : Q) : Qeq_bool q 0 = Qzero q.
Proof.
  destruct (Qzero q) eqn:E.
  - apply Qeq_bool_iff. now apply Qzero_true.
  - apply Qeq_bool_false. now apply Qzero_false.
Qed.

Lemma scoreNumericSimilarity_finite (x y : option number) :
  finite (scoreNumericSimilarity x y num_0_25) = true.
Proof.
  destruct x as [x|], y as [y|]; try reflexivity.
  unfold scoreNumericSimilarity.
  destruct ((x === num_0) && (y === num_0)); [reflexivity|].
  destruct ((x === num_0) || (y === num_0)); [reflexivity|].
  destruct x as [|s|a], y as [|t|b];
    try (destruct s); try (destruct t); try reflexivity.
  cbn [sub neg add Math_abs]. unfold num_2.
  rewrite (div_finite (a + b) 2) by reflexivity.
  unfold num_0. cbn [eqb]. rewrite Qeq_bool_Qzero.
  destruct (Qzero ((a + b) / 2)) eqn:Eavg; [reflexivity|].
  rewrite (div_finite _ _ Eavg).
  destruct (_ <=? _); [|reflexivity].
  unfold num_0_25. rewrite div_finite by reflexivity. reflexivity.
Qed.

Lemma scoreSimple_finite :
  (forall a b, finite (scoreUPC a b) = true) /\
  (forall x y, finite (scoreBrand x y) = true) /\
  (forall x y, finite (scoreCategory x y) = true) /\
  (forall x y, finite (scoreDietPenalty x y) = true).
Proof.
  repeat split.
  - intros a b. unfold scoreUPC. destruct (_ || _); [reflexivity|].
    destruct (scancode a), (scancode b); try reflexivity.
    destruct (String.eqb _ _); reflexivity.
  - intros x y. unfold scoreBrand.
    destruct (_ && _); [reflexivity|]. destruct (_ || _); [reflexivity|].
    destruct x, y; try reflexivity.
    destruct (String.eqb _ _); [reflexivity|].
    destruct (option_jsval_eqb _ _); reflexivity.
  - intros x y. unfold scoreCategory.
    destruct (_ && _); [reflexivity|]. destruct (_ || _); [reflexivity|].
    destruct (option_string_eqb _ _); [reflexivity|].
    destruct (canonicalizeCategory x), (canonicalizeCategory y); try reflexivity.
    destruct (_ && _); reflexivity.
  - intros [] []; reflexivity.
Qed.

(** Unless a size is infinite, every score of a pair is finite. *)
Lemma computeFeatureScores_finite (a b : NormalizedProduct) :
  sizeNotInfinite a = true -> sizeNotInfinite b = true ->
  finiteScores (computeFeatureScores a b) = true.
Proof.
  intros Ha Hb.
  destruct scoreSimple_finite as (Hupc & Hbrand & Hcategory & Hdiet).
  unfold finiteScores, attributes, computeFeatureScores.
  cbn [forallb attributeScore Scores.upc Scores.name Scores.brand Scores.size
       Scores.category Scores.price Scores.dietPenalty].
  rewrite Hupc, Hbrand, Hcategory, Hdiet, scoreNumericSimilarity_finite.
  rewrite (scoreSize_finite _ _ Ha Hb).
  unfold scoreNameSimilarity.
  rewrite Math_max_finite;
    [reflexivity | apply scoreNameTokens_finite | apply scoreCharacterBigram_finite].
Qed.

(** Unless a size is infinite, the confidence of a pair lies in [[0,1]]. *)
Lemma pairConfidence_unit (a b : NormalizedProduct) :
  sizeNotInfinite a = true -> sizeNotInfinite b = true ->
  in_unit_interval (pairConfidence a b) = true.
Proof.
  intros Ha Hb. unfold pairConfidence.
  rewrite computeConfidence_stated. apply statedConfidence_range.
  now apply computeFeatureScores_finite.
Qed.

(** Where no entity has an infinite size, [matchProducts] is the matcher
    without the skip. *)
Lemma skip_is_transparent_for_finite_sizes
  (productsA productsB : list NormalizedProduct) (options : Partial.MatchOptions) :
  forallb sizeNotInfinite productsA = true ->
  forallb sizeNotInfinite productsB = true ->
  matchProducts productsA productsB options
  = NoSkip.matchProducts productsA productsB options.
Proof.
  intros HA HB. apply skip_is_transparent. intros a b Ha Hb.
  rewrite forallb_forall in HA, HB. apply pairConfidence_unit; auto.
Qed.

(** ** C6: monotonicity in the thresholds *)

Lemma filter_length_le {A : Type} (p q : A -> bool) (l : list A) :
  (forall x, In x l -> p x = true -> q x = true) ->
  (List.length (filter p l) <= List.length (filter q l))%nat.
Proof.
  induction l as [|x l IH]; simpl; intro H; [lia|].
  assert (IH' : (List.length (filter p l) <= List.length (filter q l))%nat).
  { apply IH. intros y Hy. apply H. now right. }
  destruct (p x) eqn:Ep.
  - rewrite (H x (or_introl eq_refl) Ep). simpl. lia.
  - destruct (q x); simpl; lia.
Qed.

Lemma autoCount_of_records (resolved : MatchOptions)
  (found : NormalizedProduct -> option bestMatch) (productsA : list NormalizedProduct) :
  List.length
    (filter isAuto (flat_map (fun a => recordsFor resolved (found a) a) productsA))
  = List.length (filter (fun a => autoAccepted resolved (found a)) productsA).
Proof.
  induction productsA as [|a rest IH]; simpl; [reflexivity|].
  rewrite filter_app, length_app, IH.
  unfold recordsFor, autoAccepted.
  destruct (found a) as [b|]; simpl; [|reflexivity].
  destruct (_ <? _); simpl; [reflexivity|].
  unfold isAuto, recordOf. cbn [decision].
  destruct (_ >=? _); reflexivity.
Qed.

(** The inner loop reads the review threshold only. *)
Lemma scan_review_only (resolved resolved' : MatchOptions)
  (a : NormalizedProduct) (productsB : list NormalizedProduct) :
  reviewThreshold resolved = reviewThreshold resolved' ->
  scan resolved a productsB = scan resolved' a productsB.
Proof.
  intro E. unfold scan. f_equal. unfold consider. now rewrite E.
Qed.

(** Raising [autoAcceptThreshold] with [reviewThreshold] fixed never
    increases the number of [auto] decisions. *)
Lemma auto_count_antitone (productsA productsB : list NormalizedProduct)
  (options options' : Partial.MatchOptions) (result result' : MatchResult) :
  let resolved := resolveOptions options in
  let resolved' := resolveOptions options' in
  reviewThreshold resolved = reviewThreshold resolved' ->
  (autoAcceptThreshold resolved <=? autoAcceptThreshold resolved') = true ->
  matchProducts productsA productsB options = Return result ->
  matchProducts productsA productsB options' = Return result' ->
  (autoCount result' <= autoCount result)%nat.
Proof.
  intros resolved resolved' Ereview Hauto H H'.
  unfold autoCount.
  rewrite (matches_of_result _ _ _ _ H), (matches_of_result _ _ _ _ H').
  fold resolved resolved'.
  rewrite !autoCount_of_records. apply filter_length_le.
  intros a _. rewrite (scan_review_only resolved resolved' a productsB Ereview).
  unfold autoAccepted. destruct (scan resolved' a productsB) as [b|]; [|trivial].
  rewrite Ereview. intro Hb. apply andb_true_iff in Hb as [Hb1 Hb2].
  rewrite Hb1. unfold geb in *. simpl. exact (leb_trans _ _ _ Hauto Hb2).
Qed.

(** Where no entity has an infinite size, raising [reviewThreshold] never
    shortens [unmatchedA]. *)
Lemma unmatchedA_monotone (productsA productsB : list NormalizedProduct)
  (options options' : Partial.MatchOptions) (result result' : MatchResult) :
  let resolved := resolveOptions options in
  let resolved' := resolveOptions options' in
  forallb sizeNotInfinite productsA = true ->
  forallb sizeNotInfinite productsB = true ->
  (reviewThreshold resolved <=? reviewThreshold resolved') = true ->
  matchProducts productsA productsB options = Return result ->
  matchProducts productsA productsB options' = Return result' ->
  (List.length (unmatchedA result) <= List.length (unmatchedA result'))%nat.
Proof.
  intros resolved resolved' HA HB Hreview H H'.
  rewrite (skip_is_transparent_for_finite_sizes _ _ options HA HB) in H.
  rewrite (skip_is_transparent_for_finite_sizes _ _ options' HA HB) in H'.
  unfold NoSkip.matchProducts in H, H'. fold resolved in H. fold resolved' in H'.
  destruct (reviewThreshold resolved >? autoAcceptThreshold resolved);
    [discriminate|].
  destruct (reviewThreshold resolved' >? autoAcceptThreshold resolved');
    [discriminate|].
  injection H as <-. injection H' as <-.
  unfold assemble. cbn [unmatchedA].
  change (NoSkip.matchOne resolved productsB)
    with (classifyWith resolved (fun a => NoSkip.scan a productsB)).
  change (NoSkip.matchOne resolved' productsB)
    with (classifyWith resolved' (fun a => NoSkip.scan a productsB)).
  rewrite !fold_unmatchedA. cbn [initial acc_unmatchedA app].
  rewrite !length_map. apply filter_length_le.
  intros a _. unfold belowReview.
  destruct (NoSkip.scan a productsB) as [b|]; [|trivial].
  intro Hb. exact (ltb_leb_trans _ _ _ Hb Hreview).
Qed.

(** C6 fails in its second half when a confidence is not a number.  With
    the default thresholds (review 0.6, skip floor 0.39) "Dasani Water
    16.9oz" keeps the 0.44 candidate, which the [NaN] candidate does not
    replace, and is unmatched.  With the review threshold raised to 0.7 and
    the same auto-accept threshold the 0.44 candidate is skipped, the [NaN]
    candidate is kept and passes both threshold tests: [unmatchedA] shrinks
    from one entry to none. *)
Theorem raising_review_shrinks_unmatchedA :
  let low := resolveOptions defaults in
  let high := resolveOptions review70 in
  (reviewThreshold low <=? autoAcceptThreshold low) = true /\
  (reviewThreshold high <=? autoAcceptThreshold high) = true /\
  autoAcceptThreshold low = autoAcceptThreshold high /\
  (reviewThreshold low <? reviewThreshold high) = true /\
  sizeOz bulkWater = Some (Infinity false) /\
  pairConfidence dasani bulkWater = NaN /\
  exists atLow atHigh,
    matchProducts [dasani] [aquafina; bulkWater] defaults = Return atLow /\
    matchProducts [dasani] [aquafina; bulkWater] review70 = Return atHigh /\
    List.length (unmatchedA atLow) = 1%nat /\
    List.length (unmatchedA atHigh) = 0%nat /\
    map decision (matches atHigh) = [review].
Proof.
  do 5 (split; [reflexivity|]).
  split; [vm_compute; reflexivity|].
  eexists. eexists.
  split; [vm_compute; reflexivity|].
  split; [vm_compute; reflexivity|].
  repeat split.
Qed.

(** ** C8: the configuration check *)

Lemma for_each_outcome {S X : Type} (body : S -> X -> Traced.scoring S)
  (xs : list X) (state : S) :
  Traced.outcome (Traced.for_each body xs state)
  = fold_left (fun st x => Traced.outcome (body st x)) xs state.
Proof.
  revert state. induction xs as [|x rest IH]; intro state; [reflexivity|].
  cbn [Traced.for_each Traced.bind Traced.outcome fold_left]. apply IH.
Qed.

(** Where each turn of a loop scores the same pairs whatever the state, the
    loop scores them turn by turn. *)
Lemma for_each_scored {S X : Type} (body : S -> X -> Traced.scoring S)
  (pairs : X -> list (NormalizedProduct * NormalizedProduct))
  (xs : list X) (state : S) :
  (forall st x, Traced.scored (body st x) = pairs x) ->
  Traced.scored (Traced.for_each body xs state) = flat_map pairs xs.
Proof.
  intro H. revert state. induction xs as [|x rest IH]; intro state; [reflexivity|].
  cbn [Traced.for_each Traced.bind Traced.scored flat_map]. now rewrite H, IH.
Qed.

(** The inner loop scores its A entity against every B entity, in order,
    and keeps the candidate that [scan] keeps. *)
Lemma traced_scan (resolved : MatchOptions) (a : NormalizedProduct)
  (productsB : list NormalizedProduct) :
  Traced.outcome (Traced.scan resolved a productsB) = scan resolved a productsB /\
  Traced.scored (Traced.scan resolved a productsB) = map (pair a) productsB.
Proof.
  unfold Traced.scan, scan. split.
  - rewrite for_each_outcome. reflexivity.
  - rewrite (for_each_scored _ (fun b => [(a, b)])) by reflexivity.
    induction productsB as [|b rest IH]; [reflexivity|]. simpl. now rewrite IH.
Qed.

Lemma traced_matchOne (resolved : MatchOptions)
  (productsB : list NormalizedProduct) (acc : accumulator) (a : NormalizedProduct) :
  Traced.outcome (Traced.matchOne resolved productsB acc a)
  = matchOne resolved productsB acc a /\
  Traced.scored (Traced.matchOne resolved productsB acc a) = map (pair a) productsB.
Proof.
  destruct (traced_scan resolved a productsB) as [Hout Hscored].
  unfold Traced.matchOne, matchOne.
  cbn [Traced.bind Traced.ret Traced.outcome Traced.scored].
  rewrite Hout, Hscored, app_nil_r. split; reflexivity.
Qed.

(** C8: [matchProducts] tests the thresholds before the first scoring call.
    The run with its scoring calls recorded returns what [matchProducts]
    returns.  When the resolved [reviewThreshold] is greater than the
    resolved [autoAcceptThreshold] it throws the configuration error, no
    pair has been handed to [computeFeatureScores] or [computeConfidence],
    and there is no result; in every other case it returns a result, after
    scoring every A entity against every B entity in the order of the two
    loops. *)
Theorem invalid_configuration_fails_before_scoring
  (productsA productsB : list NormalizedProduct) (options : Partial.MatchOptions) :
  let resolved := resolveOptions options in
  let run := Traced.matchProducts productsA productsB options in
  Traced.outcome run = matchProducts productsA productsB options /\
  if reviewThreshold resolved >? autoAcceptThreshold resolved
  then matchProducts productsA productsB options = Throw configurationError /\
       Traced.scored run = [] /\
       (forall result, matchProducts productsA productsB options <> Return result)
  else (exists result, matchProducts productsA productsB options = Return result) /\
       Traced.scored run
       = flat_map (fun productA => map (pair productA) productsB) productsA.
Proof.
  intros resolved run. unfold run, Traced.matchProducts, matchProducts.
  fold resolved.
  destruct (reviewThreshold resolved >? autoAcceptThreshold resolved).
  - split; [reflexivity|]. repeat split. intros result H. discriminate H.
  - cbn [Traced.bind Traced.ret Traced.outcome Traced.scored].
    rewrite for_each_outcome, app_nil_r.
    rewrite (for_each_scored _ (fun a => map (pair a) productsB))
      by (intros acc a; apply traced_matchOne).
    split; [|split; [eexists; reflexivity | reflexivity]].
    do 2 f_equal. apply fold_left_agree.
    intros acc a _. apply traced_matchOne.
Qed.

(** The configuration of the specification's scenario is rejected, with no
    pair scored; the default configuration scores the two pairs. *)
Example review_above_auto_is_rejected :
  let rejected :=
    {| Partial.autoAcceptThreshold := Some (Finite (5 # 10)%Q);
       Partial.reviewThreshold := Some (Finite (9 # 10)%Q) |} in
  matchProducts [cocaCola] [coke; aquafina] rejected = Throw configurationError /\
  Traced.scored (Traced.matchProducts [cocaCola] [coke; aquafina] rejected) = [] /\
  Traced.scored (Traced.matchProducts [cocaCola] [coke; aquafina] defaults)
  = [(cocaCola, coke); (cocaCola, aquafina)].
Proof. repeat split. Qed.

(** ** C9: a size of zero *)

Lemma zero_not_truthy (x : option number) : zero x -> present_number x = false.
Proof.
  destruct x as [[| |q]|]; simpl; try contradiction.
  intro H. apply Qzero_true in H. now rewrite H.
Qed.

(** The confidence reads the scores of the available attributes only. *)
Lemma statedConfidence_ext (available : Attribute -> bool) (s s' : FeatureScores) :
  (forall attr, available attr = true ->
     attributeScore s attr = attributeScore s' attr) ->
  Scores.dietPenalty s = Scores.dietPenalty s' ->
  statedConfidence available s = statedConfidence available s'.
Proof.
  intros Hattrs Hdiet. unfold statedConfidence.
  destruct (filter available attributes) as [|attr attrs] eqn:Echosen;
    [reflexivity|].
  rewrite Hdiet. do 2 f_equal. unfold weightedAverage. f_equal. f_equal.
  apply map_ext_in. intros t Ht. rewrite <- Echosen in Ht.
  apply filter_In in Ht as [_ Ht]. now rewrite (Hattrs t Ht).
Qed.

(** C9: when an entity carries a size of exactly 0, [scoreSize] returns 0
    against any other entity and the size component of [computeConfidence]
    is unavailable: the confidence is the weighted average over the other
    available attributes, the size left out of its numerator and of its
    denominator, it is the confidence computed for the entity with the size
    removed, and it does not depend on the size score.  A price of exactly
    0 leaves the price component available: the confidence is the weighted
    average with the price score in its numerator and the price weight in
    its denominator. *)
Theorem zero_size_counts_as_absent :
  (forall (a b : NormalizedProduct), zero (sizeOz a) ->
     scoreSize (sizeOz a) (sizeOz b) = num_0 /\
     scoreSize (sizeOz b) (sizeOz a) = num_0 /\
     forall scores : FeatureScores,
       nth_error (components scores a b) 3
       = Some {| score := Scores.size scores; weight := num_0_2;
                 available := false |} /\
       nth_error (components scores b a) 3
       = Some {| score := Scores.size scores; weight := num_0_2;
                 available := false |} /\
       computeConfidence scores a b = computeConfidence scores (withoutSize a) b /\
       computeConfidence scores b a = computeConfidence scores b (withoutSize a) /\
       computeConfidence scores a b
       = statedConfidence
           (fun attr => match attr with
                        | Size => false
                        | _ => availableTruthy a b attr
                        end) scores /\
       computeConfidence scores b a
       = statedConfidence
           (fun attr => match attr with
                        | Size => false
                        | _ => availableTruthy b a attr
                        end) scores /\
       (forall scores' : FeatureScores,
          (forall attr, attr <> Size ->
             attributeScore scores attr = attributeScore scores' attr) ->
          Scores.dietPenalty scores = Scores.dietPenalty scores' ->
          computeConfidence scores a b = computeConfidence scores' a b /\
          computeConfidence scores b a = computeConfidence scores' b a)) /\
  (forall (a b : NormalizedProduct) (scores : FeatureScores),
     zero (price a) -> is_some (price b) = true ->
     nth_error (components scores a b) 5
     = Some {| score := Scores.price scores; weight := num_0_05;
               available := true |} /\
     nth_error (components scores b a) 5
     = Some {| score := Scores.price scores; weight := num_0_05;
               available := true |} /\
     computeConfidence scores a b
     = statedConfidence
         (fun attr => match attr with
                      | Price => true
                      | _ => availableTruthy a b attr
                      end) scores /\
     computeConfidence scores b a
     = statedConfidence
         (fun attr => match attr with
                      | Price => true
                      | _ => availableTruthy b a attr
                      end) scores).
Proof.
  split.
  - intros a b Hzero.
    pose proof (zero_not_truthy _ Hzero) as Habsent.
    split; [|split].
    + destruct (sizeOz a) as [[| |q]|]; simpl in Hzero; try contradiction.
      apply Qzero_true in Hzero. unfold scoreSize.
      destruct (sizeOz b); [|reflexivity]. simpl. now rewrite Hzero.
    + destruct (sizeOz a) as [[| |q]|]; simpl in Hzero; try contradiction.
      apply Qzero_true in Hzero. unfold scoreSize.
      destruct (sizeOz b); [|reflexivity]. simpl. rewrite Hzero.
      now rewrite orb_true_r.
    + intro scores.
      assert (Hab : forall attr,
                availableTruthy a b attr
                = match attr with Size => false | _ => availableTruthy a b attr end).
      { intros []; try reflexivity. cbn [availableTruthy]. now rewrite Habsent. }
      assert (Hba : forall attr,
                availableTruthy b a attr
                = match attr with Size => false | _ => availableTruthy b a attr end).
      { intros []; try reflexivity. cbn [availableTruthy].
        now rewrite Habsent, andb_false_r. }
      assert (Eab : forall s : FeatureScores,
                computeConfidence s a b
                = statedConfidence
                    (fun attr => match attr with
                                 | Size => false
                                 | _ => availableTruthy a b attr
                                 end) s).
      { intro s. rewrite computeConfidence_stated. unfold statedConfidence.
        now rewrite (filter_ext _ _ Hab). }
      assert (Eba : forall s : FeatureScores,
                computeConfidence s b a
                = statedConfidence
                    (fun attr => match attr with
                                 | Size => false
                                 | _ => availableTruthy b a attr
                                 end) s).
      { intro s. rewrite computeConfidence_stated. unfold statedConfidence.
        now rewrite (filter_ext _ _ Hba). }
      split; [|split; [|split; [|split; [|split; [|split]]]]].
      * unfold components. cbn [nth_error]. now rewrite Habsent.
      * unfold components. cbn [nth_error]. now rewrite Habsent, andb_false_r.
      * unfold computeConfidence, components.
        cbn [withoutSize sizeOz scancode brand category price present_number].
        now rewrite Habsent.
      * unfold computeConfidence, components.
        cbn [withoutSize sizeOz scancode brand category price present_number].
        now rewrite Habsent, !andb_false_r.
      * apply Eab.
      * apply Eba.
      * intros scores' Hattrs Hdiet. rewrite !Eab, !Eba.
        split; apply statedConfidence_ext; trivial;
          intros [] Hav; try discriminate; apply Hattrs; discriminate.
  - intros a b scores Hzero Hsome.
    assert (Hprice : is_some (price a) = true).
    { destruct (price a) as [[| |q]|]; simpl in Hzero; try contradiction.
      reflexivity. }
    assert (Hab : forall attr,
              availableTruthy a b attr
              = match attr with Price => true | _ => availableTruthy a b attr end).
    { intros []; try reflexivity. cbn [availableTruthy]. now rewrite Hprice, Hsome. }
    assert (Hba : forall attr,
              availableTruthy b a attr
              = match attr with Price => true | _ => availableTruthy b a attr end).
    { intros []; try reflexivity. cbn [availableTruthy]. now rewrite Hprice, Hsome. }
    split; [|split; [|split]].
    + unfold components. cbn [nth_error].
      destruct (price a); [|discriminate]. destruct (price b); [|discriminate].
      reflexivity.
    + unfold components. cbn [nth_error].
      destruct (price a); [|discriminate]. destruct (price b); [|discriminate].
      reflexivity.
    + rewrite computeConfidence_stated. unfold statedConfidence.
      now rewrite (filter_ext _ _ Hab).
    + rewrite computeConfidence_stated. unfold statedConfidence.
      now rewrite (filter_ext _ _ Hba).
Qed.

Lemma zero_size_counts_as_absent_witness :
  zero (sizeOz waterZero) /\
  scoreSize (sizeOz waterZero) (sizeOz cocaCola) = num_0 /\
  computeConfidence nameOnly waterZero cocaCola
  = computeConfidence nameOnly (withoutSize waterZero) cocaCola /\
  computeConfidence (nameWith num_0 num_0) waterZero cocaCola
  = computeConfidence (nameWith num_1 num_0) waterZero cocaCola /\
  zero (price freeCola) /\
  is_some (price pricedCoke) = true /\
  computeConfidence nameOnly freeCola pricedCoke
  = statedConfidence
      (fun attr => match attr with
                   | Price => true
                   | _ => availableTruthy freeCola pricedCoke attr
                   end) nameOnly.
Proof.
  assert (Hzero : zero (sizeOz waterZero)) by reflexivity.
  assert (Hfree : zero (price freeCola)) by reflexivity.
  split; [exact Hzero|].
  destruct zero_size_counts_as_absent as [Hsize Hprice].
  destruct (Hsize waterZero cocaCola Hzero) as (H1 & _ & H2).
  split; [exact H1|].
  destruct (H2 nameOnly) as (_ & _ & H3 & _).
  split; [exact H3|].
  destruct (H2 (nameWith num_0 num_0)) as (_ & _ & _ & _ & _ & _ & H4).
  split.
  { apply (H4 (nameWith num_1 num_0)); [|reflexivity].
    intros [] Hne; try reflexivity. congruence. }
  split; [exact Hfree|]. split; [reflexivity|].
  apply (Hprice freeCola pricedCoke nameOnly Hfree). reflexivity.
Defined.

(** A size of 0 and a price of 0, side by side.  Against "Coca Cola 20oz
    Can", "Water 0oz" has the same confidence whether the size score is 0 or
    1: the name alone is averaged over the weights of the name and the
    brand, 0.25 / 0.45.  With a price of 0 on one side and 1.99 on the other
    the price score counts: a price score of 1 instead of 0 raises the
    confidence from 0.25 / 0.70 to 0.30 / 0.70. *)
Example zero_price_is_counted :
  same (computeConfidence (nameWith num_0 num_0) waterZero cocaCola)
       (Finite (25 # 45)%Q) /\
  same (computeConfidence (nameWith num_1 num_0) waterZero cocaCola)
       (Finite (25 # 45)%Q) /\
  same (computeConfidence (nameWith num_0 num_0) freeCola pricedCoke)
       (Finite (25 # 70)%Q) /\
  same (computeConfidence (nameWith num_0 num_1) freeCola pricedCoke)
       (Finite (30 # 70)%Q).
Proof.
  vm_compute. repeat split.
Qed.

(** ** C10: brand extraction *)

Lemma split_separators_nil (current s : string) :
  split_separators current s = [] <->
  current = EmptyString /\ all_chars is_separator s = true.
Proof.
  revert current. induction s as [|c rest IH]; intro current; simpl.
  - destruct current; simpl; split; try tauto; try discriminate.
    intros [E _]. discriminate E.
  - destruct (is_separator c); simpl.
    + destruct current; simpl.
      * rewrite IH. tauto.
      * split; [discriminate | intros [E _]; discriminate E].
    + rewrite IH. split; [intros [E _]; discriminate E | intros [_ E]; discriminate E].
Qed.

Lemma includes_needs_first_char (p : ascii -> bool) (s key : string) (c : ascii) :
  all_chars p s = true -> p c = false -> includes s (String c key) = false.
Proof.
  intros Hall Hc. induction s as [|x rest IH]; simpl.
  - reflexivity.
  - simpl in Hall. apply andb_true_iff in Hall as [Hx Hrest].
    rewrite (IH Hrest), orb_false_r. unfold startsWith. simpl.
    destruct (Ascii.eqb c x) eqn:E; [|reflexivity].
    apply Ascii.eqb_eq in E. congruence.
Qed.

Lemma synonymKeys_are_words :
  forall key, In key synonymKeys ->
    is_some (BRAND_SYNONYMS_get key) = true /\
    exists c rest, key = String c rest /\ is_separator c = false.
Proof.
  assert (Hall :
    forallb
      (fun key =>
         is_some (BRAND_SYNONYMS_get key) &&
         match key with
         | String c _ => negb (is_separator c)
         | EmptyString => false
         end)
      synonymKeys = true) by (vm_compute; reflexivity).
  intros key Hin. rewrite forallb_forall in Hall.
  specialize (Hall key Hin). apply andb_true_iff in Hall as [Hget Hfirst].
  split; [exact Hget|].
  destruct key as [|c rest]; [discriminate|].
  exists c, rest. split; [reflexivity|]. now apply negb_true_iff.
Qed.

(** [extractBrand] is [undefined] exactly for the names without a token. *)
Lemma extractBrand_undefined_iff_no_token (rawName : string) :
  extractBrand rawName = None <->
  split_separators EmptyString (toLowerCase rawName) = [].
Proof.
  unfold extractBrand.
  destruct (find _ synonymKeys) as [key|] eqn:F.
  - apply find_some in F as [Hin Hinc].
    destruct (synonymKeys_are_words key Hin) as (Hget & c & rest & -> & Hc).
    split.
    + intro E. rewrite E in Hget. discriminate.
    + intro E. apply split_separators_nil in E as [_ Hall].
      now rewrite (includes_needs_first_char _ _ rest c Hall Hc) in Hinc.
  - destruct (split_separators EmptyString (toLowerCase rawName)) as [|first others].
    + tauto.
    + destruct (first_canonical (first :: others)); split; discriminate.
Qed.

Lemma lower_char_idempotent (c : ascii) : lower_char (lower_char c) = lower_char c.
Proof.
  destruct c as [[] [] [] [] [] [] [] []]; vm_compute; reflexivity.
Qed.

Lemma all_chars_rev_string (p : ascii -> bool) (acc s : string) :
  all_chars p (rev_string acc s) = all_chars p s && all_chars p acc.
Proof.
  revert acc. induction s as [|c rest IH]; intro acc; simpl; [reflexivity|].
  rewrite IH. simpl.
  destruct (p c), (all_chars p rest), (all_chars p acc); reflexivity.
Qed.

Lemma rev_string_nonempty (acc s : string) :
  acc <> EmptyString -> rev_string acc s <> EmptyString.
Proof.
  revert acc. induction s as [|c rest IH]; intros acc H; simpl; [exact H|].
  apply IH. discriminate.
Qed.

Lemma flush_In (current token : string) (tokens : list string) :
  In token (flush current tokens) ->
  (current <> EmptyString /\ token = rev_string EmptyString current) \/
  In token tokens.
Proof.
  destruct current as [|d rest]; simpl; [now right|].
  intros [<-|H]; [left; split; [discriminate | reflexivity] | now right].
Qed.

Lemma flushed_token (p : ascii -> bool) (current : string) :
  current <> EmptyString -> all_chars p current = true ->
  all_chars p (rev_string EmptyString current) = true /\
  rev_string EmptyString current <> EmptyString.
Proof.
  intros Hne Hall. split.
  - rewrite all_chars_rev_string, Hall. reflexivity.
  - destruct current as [|d rest]; [congruence|].
    simpl. apply rev_string_nonempty. discriminate.
Qed.

Lemma split_separators_tokens (current s token : string) :
  all_chars token_char current = true ->
  all_chars (fun c => is_separator c || token_char c) s = true ->
  In token (split_separators current s) ->
  all_chars token_char token = true /\ token <> EmptyString.
Proof.
  revert current.
  induction s as [|c rest IH]; intros current Hcur Hs Hin; simpl in *.
  - apply flush_In in Hin as [[Hne ->]|[]]. now apply flushed_token.
  - apply andb_true_iff in Hs as [Hc Hrest].
    destruct (is_separator c) eqn:Esep.
    + apply flush_In in Hin as [[Hne ->]|Hin]; [now apply flushed_token|].
      now apply (IH EmptyString).
    + apply (IH (String c current)); trivial. simpl. simpl in Hc. now rewrite Hc.
Qed.

Lemma toLowerCase_tokens (rawName token : string) :
  In token (split_separators EmptyString (toLowerCase rawName)) ->
  all_chars token_char token = true /\ token <> EmptyString.
Proof.
  apply split_separators_tokens; [reflexivity|].
  unfold toLowerCase. induction rawName as [|c rest IH]; simpl; [reflexivity|].
  rewrite IH, andb_true_r. unfold token_char.
  rewrite lower_char_idempotent, Ascii.eqb_refl, andb_true_r.
  destruct (is_separator (lower_char c)); reflexivity.
Qed.

Lemma token_toLowerCase (token : string) :
  all_chars token_char token = true -> toLowerCase token = token.
Proof.
  unfold toLowerCase. induction token as [|c rest IH]; simpl; [reflexivity|].
  intro H. apply andb_true_iff in H as [Hc Hrest].
  apply andb_true_iff in Hc as [_ Hc]. apply Ascii.eqb_eq in Hc.
  now rewrite Hc, IH.
Qed.

Lemma token_char_not_space (c : ascii) : token_char c = true -> is_space c = false.
Proof.
  unfold token_char, is_separator.
  destruct (is_space c); [discriminate | reflexivity].
Qed.

Lemma token_trim (token : string) :
  all_chars token_char token = true -> trim token = token.
Proof.
  intro H. unfold trim.
  assert (Hstart : trimStart token = token).
  { destruct token as [|c rest]; [reflexivity|]. simpl in *.
    apply andb_true_iff in H as [Hc _]. now rewrite (token_char_not_space _ Hc). }
  rewrite Hstart. clear Hstart.
  induction token as [|c rest IH]; [reflexivity|]. simpl in *.
  apply andb_true_iff in H as [Hc Hrest]. rewrite (IH Hrest).
  destruct rest; [now rewrite (token_char_not_space _ Hc) | reflexivity].
Qed.

(** What [extractBrand] returns when it returns a value: a value of the
    synonym table, the first token of the lower-cased name, or the member of
    [Object.prototype] that the first token names. *)
Lemma synonymKeys_in_table :
  forall key, In key synonymKeys -> is_some (assoc key BRAND_SYNONYMS) = true.
Proof.
  apply forallb_forall. vm_compute. reflexivity.
Qed.

Lemma extractBrand_value (rawName : string) (v : jsval) :
  extractBrand rawName = Some v ->
  (exists key value, assoc key BRAND_SYNONYMS = Some value /\ v = Str value) \/
  (exists first others,
     split_separators EmptyString (toLowerCase rawName) = first :: others /\
     (v = Str first \/
      (v = Inherited first /\ mem first Object_prototype = true))).
Proof.
  unfold extractBrand.
  destruct (find _ synonymKeys) as [key|] eqn:F.
  - intro H. left. apply find_some in F as [Hin _].
    pose proof (synonymKeys_in_table key Hin) as K.
    unfold BRAND_SYNONYMS_get in H.
    destruct (assoc key BRAND_SYNONYMS) as [value|] eqn:E; [|discriminate].
    injection H as <-. now exists key, value.
  - destruct (split_separators EmptyString (toLowerCase rawName))
      as [|first others] eqn:Etokens; [discriminate|].
    assert (Hfirst : In first (split_separators EmptyString (toLowerCase rawName)))
      by (rewrite Etokens; now left).
    apply toLowerCase_tokens in Hfirst as [Hchars Hne].
    cbn [first_canonical]. unfold canonicalizeBrand_string.
    destruct first as [|c rest]; [congruence|]. cbn [nonempty negb].
    rewrite (token_toLowerCase _ Hchars), (token_trim _ Hchars).
    unfold BRAND_SYNONYMS_get.
    destruct (assoc (String c rest) BRAND_SYNONYMS) as [value|] eqn:E.
    + cbn [jsval_truthy].
      destruct (nonempty value) eqn:Ev; cbn [jsval_truthy nonempty].
      * rewrite Ev. intro H. injection H as <-. left.
        now exists (String c rest), value.
      * intro H. injection H as <-. right. exists (String c rest), others. auto.
    + destruct (mem (String c rest) Object_prototype) eqn:M;
        cbn [jsval_truthy nonempty]; intro H; injection H as <-;
        right; exists (String c rest), others; auto.
Qed.

(** C10 fails at "Constructor Toy": no synonym key occurs in the name, the
    first token is "constructor", and [BRAND_SYNONYMS["constructor"]] is the
    function every object inherits, so [extractBrand] returns that function,
    neither a table value nor the token; [canonicalizeBrand] then calls
    [toLowerCase] on it and both normalizers throw. *)
Theorem inherited_member_returned_as_brand :
  split_separators EmptyString (toLowerCase "Constructor Toy")
  = ["constructor"; "toy"]%string /\
  extractBrand "Constructor Toy" = Some (Inherited "constructor") /\
  normalize365Record_brand [("PRDNAME", "Constructor Toy")]%string
  = Throw "TypeError: brand.toLowerCase is not a function" /\
  normalizeHahaRecord_brand [("product_name", "Constructor Toy")]%string
  = Throw "TypeError: brand.toLowerCase is not a function".
Proof.
  repeat split.
Qed.

(** ** The scenarios of the specification *)

(** "Coca Cola 20oz Can" against "Coke 20 oz": brand score 1, size score 1,
    name score 2/3, confidence 0.87, decision [auto]. *)
Example scenario_coca_cola :
  Scores.brand (computeFeatureScores cocaCola coke) = num_1 /\
  Scores.size (computeFeatureScores cocaCola coke) = num_1 /\
  same (Scores.name (computeFeatureScores cocaCola coke)) (Finite (2 # 3)%Q) /\
  exists result,
    matchProducts [cocaCola] [coke] defaults = Return result /\
    map decision (matches result) = [auto] /\
    map (fun m => confidence m === Finite (87 # 100)%Q) (matches result) = [true].
Proof.
  split; [vm_compute; reflexivity|].
  split; [vm_compute; reflexivity|].
  split; [vm_compute; reflexivity|].
  eexists. split; [vm_compute; reflexivity|]. split; reflexivity.
Qed.

(** "Dasani Water 16.9oz" against "Aquafina Bottled Water 16oz": brand score
    0, confidence 0.44, below the review threshold, unmatched on both sides. *)
Example scenario_dasani :
  Scores.brand (computeFeatureScores dasani aquafina) = num_0 /\
  (pairConfidence dasani aquafina <? num_0_6) = true /\
  matchProducts [dasani] [aquafina] defaults
  = Return {| matches := [];
              unmatchedA := [summarizeProduct dasani];
              unmatchedB := [summarizeProduct aquafina] |}.
Proof.
  split; [vm_compute; reflexivity|].
  split; vm_compute; reflexivity.
Qed.

(* ================================================================== *)
(** * Part III. Further properties of the code                         *)
(* ================================================================== *)

(** ** The outer loop: one outcome for each A entity *)

Lemma filter_split_length {A : Type} (p : A -> bool) (l : list A) :
  (List.length (filter (fun x => negb (p x)) l) + List.length (filter p l)
   = List.length l)%nat.
Proof.
  induction l as [|x l IH]; simpl; [reflexivity|].
  destruct (p x); simpl; lia.
Qed.

Lemma recordsFor_productA (resolved : MatchOptions)
  (found : NormalizedProduct -> option bestMatch) (productsA : list NormalizedProduct) :
  map productA (flat_map (fun a => recordsFor resolved (found a) a) productsA)
  = map summarizeProduct
      (filter (fun a => negb (belowReview resolved (found a))) productsA).
Proof.
  induction productsA as [|a rest IH]; simpl; [reflexivity|].
  rewrite map_app, IH. unfold recordsFor, belowReview.
  destruct (found a) as [b|]; simpl; [|reflexivity].
  destruct (_ <? _); reflexivity.
Qed.

(** X1: Every A entity ends in exactly one of [matches] and [unmatchedA], and
    both lists keep the input order: the A sides of the records are the
    summaries of the matched entities, [unmatchedA] the summaries of the
    others. *)
Theorem each_A_entity_has_one_outcome
  (productsA productsB : list NormalizedProduct)
  (options : Partial.MatchOptions) (result : MatchResult) :
  matchProducts productsA productsB options = Return result ->
  let resolved := resolveOptions options in
  (List.length (matches result) + List.length (unmatchedA result)
   = List.length productsA)%nat /\
  map productA (matches result)
  = map summarizeProduct (filter (isMatched resolved productsB) productsA) /\
  unmatchedA result
  = map summarizeProduct
      (filter (fun a => negb (isMatched resolved productsB a)) productsA).
Proof.
  intros H resolved.
  pose proof (matches_of_result _ _ _ _ H) as HM.
  pose proof (unmatchedA_of_result _ _ _ _ H) as HU.
  fold resolved in HM, HU.
  assert (Hsame :
    filter (fun a => negb (isMatched resolved productsB a)) productsA
    = filter (fun a => belowReview resolved (scan resolved a productsB)) productsA).
  { apply filter_ext. intro a. unfold isMatched. apply negb_involutive. }
  split; [|split].
  - rewrite HM, HU, recordsFor_length, length_map.
    apply (filter_split_length
             (fun a => belowReview resolved (scan resolved a productsB))).
  - rewrite HM. apply recordsFor_productA.
  - rewrite Hsame. exact HU.
Qed.

Lemma each_A_entity_has_one_outcome_witness :
  exists result,
    matchProducts [cocaCola; dasani; cokeCan] [coke; aquafina] defaults
    = Return result /\
    map Summary.sourceId (map productA (matches result)) = ["A-1"; "A-7"]%string /\
    map Summary.sourceId (unmatchedA result) = ["A-5"]%string.
Proof.
  eexists. split; [vm_compute; reflexivity|].
  match goal with
  | |- map _ (map productA (matches ?r)) = _ /\ _ =>
      assert (Hrun : matchProducts [cocaCola; dasani; cokeCan] [coke; aquafina]
                       defaults = Return r) by (vm_compute; reflexivity);
      destruct (each_A_entity_has_one_outcome _ _ _ _ Hrun) as (_ & HM & HU)
  end.
  split; [rewrite HM | rewrite HU]; vm_compute; reflexivity.
Defined.

(** ** Empty inputs *)

Lemma scan_nil (resolved : MatchOptions) (a : NormalizedProduct) :
  scan resolved a [] = None.
Proof. reflexivity. Qed.

Lemma matchProducts_accepts (productsA productsB : list NormalizedProduct)
  (options : Partial.MatchOptions) :
  (reviewThreshold (resolveOptions options)
   >? autoAcceptThreshold (resolveOptions options)) = false ->
  exists result, matchProducts productsA productsB options = Return result.
Proof.
  intro H. unfold matchProducts. rewrite H. eexists. reflexivity.
Qed.

(** X2: Under a configuration that is not rejected, an empty B list leaves every
    A entity unmatched, and an empty A list leaves every B entity unmatched;
    neither gives a record. *)
Theorem empty_inputs (products : list NormalizedProduct)
  (options : Partial.MatchOptions) :
  let resolved := resolveOptions options in
  (reviewThreshold resolved >? autoAcceptThreshold resolved) = false ->
  matchProducts products [] options
  = Return {| matches := [];
              unmatchedA := map summarizeProduct products;
              unmatchedB := [] |} /\
  matchProducts [] products options
  = Return {| matches := [];
              unmatchedA := [];
              unmatchedB := map summarizeProduct products |}.
Proof.
  intros resolved Hvalid. split.
  - destruct (matchProducts_accepts products [] options Hvalid) as [result Hret].
    rewrite Hret. f_equal.
    pose proof (matches_of_result _ _ _ _ Hret) as HM.
    pose proof (unmatchedA_of_result _ _ _ _ Hret) as HU.
    pose proof (claimed_ids_of_result _ _ _ _ Hret) as HB.
    destruct result as [ms ua ub]. cbn [matches unmatchedA unmatchedB] in *.
    rewrite HB. simpl. f_equal.
    + rewrite HM. clear. induction products as [|a rest IH]; [reflexivity|].
      simpl. exact IH.
    + rewrite HU. f_equal. apply filter_all. reflexivity.
  - unfold matchProducts. fold resolved. rewrite Hvalid.
    unfold assemble. simpl. do 3 f_equal.
    apply filter_all. reflexivity.
Qed.

Lemma empty_inputs_witness :
  (reviewThreshold (resolveOptions defaults)
   >? autoAcceptThreshold (resolveOptions defaults)) = false /\
  matchProducts [cocaCola; dasani] [] defaults
  = Return {| matches := [];
              unmatchedA := [summarizeProduct cocaCola; summarizeProduct dasani];
              unmatchedB := [] |}.
Proof.
  split; [reflexivity|].
  apply (empty_inputs [cocaCola; dasani] defaults). reflexivity.
Defined.

(** ** The auto-accept threshold only labels *)

Lemma recordsFor_undecided (resolved resolved' : MatchOptions)
  (best : option bestMatch) (a : NormalizedProduct) :
  reviewThreshold resolved = reviewThreshold resolved' ->
  map undecided (recordsFor resolved best a)
  = map undecided (recordsFor resolved' best a).
Proof.
  intro E. unfold recordsFor. destruct best as [b|]; [|reflexivity].
  rewrite E. destruct (_ <? _); reflexivity.
Qed.

(** X3: Two configurations with the same review threshold give the same
    records up to the decision label, the same [unmatchedA] and the same
    [unmatchedB]: [autoAcceptThreshold] is read for the label only. *)
Theorem auto_threshold_only_labels
  (productsA productsB : list NormalizedProduct)
  (options options' : Partial.MatchOptions) (result result' : MatchResult) :
  reviewThreshold (resolveOptions options)
  = reviewThreshold (resolveOptions options') ->
  matchProducts productsA productsB options = Return result ->
  matchProducts productsA productsB options' = Return result' ->
  map undecided (matches result) = map undecided (matches result') /\
  unmatchedA result = unmatchedA result' /\
  unmatchedB result = unmatchedB result'.
Proof.
  intros E H H'.
  set (resolved := resolveOptions options) in *.
  set (resolved' := resolveOptions options') in *.
  assert (Hscan : forall a, scan resolved a productsB = scan resolved' a productsB)
    by (intro a; now apply scan_review_only).
  assert (HM : map undecided (matches result) = map undecided (matches result')).
  { rewrite (matches_of_result _ _ _ _ H), (matches_of_result _ _ _ _ H').
    fold resolved resolved'. rewrite !map_flat_map.
    apply flat_map_ext. intro a. rewrite Hscan. now apply recordsFor_undecided. }
  split; [exact HM|]. split.
  - rewrite (unmatchedA_of_result _ _ _ _ H), (unmatchedA_of_result _ _ _ _ H').
    fold resolved resolved'. f_equal. apply filter_ext. intro a.
    rewrite Hscan. unfold belowReview.
    destruct (scan resolved' a productsB); [now rewrite E | reflexivity].
  - rewrite (claimed_ids_of_result _ _ _ _ H), (claimed_ids_of_result _ _ _ _ H').
    assert (Hids : map matchedBId (matches result)
                   = map matchedBId (matches result')).
    { change matchedBId
        with (fun m => Summary.sourceId (snd (fst (fst (undecided m))))).
      rewrite <- !(map_map undecided
                     (fun u => Summary.sourceId (snd (fst (fst u))))).
      now rewrite HM. }
    now rewrite Hids.
Qed.

Lemma auto_threshold_only_labels_witness :
  exists result result',
    matchProducts [appleJuice] [appleJuiceBox] defaults = Return result /\
    matchProducts [appleJuice] [appleJuiceBox] auto91 = Return result' /\
    map decision (matches result) = [auto] /\
    map decision (matches result') = [review] /\
    map undecided (matches result) = map undecided (matches result').
Proof.
  eexists. eexists.
  split; [vm_compute; reflexivity|].
  split; [vm_compute; reflexivity|].
  split; [reflexivity|]. split; [reflexivity|].
  match goal with
  | |- map undecided (matches ?r) = map undecided (matches ?r') =>
      apply (auto_threshold_only_labels [appleJuice] [appleJuiceBox]
               defaults auto91 r r');
      vm_compute; reflexivity
  end.
Defined.

(** ** The candidate that the inner loop keeps *)

Lemma ltb_trans (x y z : number) :
  (x <? y) = true -> (y <? z) = true -> (x <? z) = true.
Proof. destruct x as [|[]|a], y as [|[]|b], z as [|[]|c]; by_cases. Qed.

Lemma leb_ltb_trans (x y z : number) :
  (x <=? y) = true -> (y <? z) = true -> (x <? z) = true.
Proof. destruct x as [|[]|a], y as [|[]|b], z as [|[]|c]; by_cases. Qed.

Lemma ltb_floor_leb (c b f : number) :
  (c <? f) = true -> (b <? f) = false -> isNaN b = false -> (c <=? b) = true.
Proof. destruct c as [|[]|x], b as [|[]|y], f as [|[]|z]; by_cases. Qed.

Lemma consider_firstMaximum (resolved : MatchOptions) (a b : NormalizedProduct)
  (seen : list NormalizedProduct) (best : option bestMatch) :
  (forall b', In b' (seen ++ [b]) -> isNaN (pairConfidence a b') = false) ->
  firstMaximum resolved a seen best ->
  firstMaximum resolved a (seen ++ [b]) (consider resolved a best b).
Proof.
  intros Hnum Inv. unfold consider. fold (pairConfidence a b).
  set (c := pairConfidence a b) in *.
  set (floor := reviewThreshold resolved * num_0_65) in *.
  assert (Hc : isNaN c = false) by (apply Hnum, in_or_app; right; now left).
  destruct best as [kept|]; simpl in Inv.
  - destruct Inv as (Econf & Hkept & before & after & -> & Hbefore & Hafter).
    fold floor in Hkept.
    assert (Hk : isNaN (Best.confidence kept) = false).
    { rewrite Econf. apply Hnum. apply in_or_app. left.
      apply in_or_app. right. now left. }
    assert (Hstay :
      (c <=? Best.confidence kept) = true ->
      firstMaximum resolved a ((before ++ Best.product kept :: after) ++ [b])
        (Some kept)).
    { intro Hle. simpl. fold floor. split; [exact Econf|]. split; [exact Hkept|].
      exists before, (after ++ [b]). split.
      - now rewrite <- app_assoc.
      - split; [exact Hbefore|]. intros b' Hb'.
        apply in_app_or in Hb' as [Hb'|[<-|[]]]; [now apply Hafter | exact Hle]. }
    destruct (c <? floor) eqn:Eskip.
    + apply Hstay. exact (ltb_floor_leb _ _ _ Eskip Hkept Hk).
    + unfold gtb. destruct (Best.confidence kept <? c) eqn:Ebetter.
      * simpl. fold floor. split; [reflexivity|]. split; [exact Eskip|].
        exists (before ++ Best.product kept :: after), []. split; [reflexivity|].
        split; [|intros b' []].
        intros b' Hb'. fold c.
        apply in_app_or in Hb' as [Hb'|[<-|Hb']].
        -- exact (ltb_trans _ _ _ (Hbefore _ Hb') Ebetter).
        -- now rewrite <- Econf.
        -- exact (leb_ltb_trans _ _ _ (Hafter _ Hb') Ebetter).
      * apply Hstay. now apply ltb_false_leb.
  - fold floor in Inv. destruct (c <? floor) eqn:Eskip; simpl; fold floor.
    + intros b' Hb'. apply in_app_or in Hb' as [Hb'|[<-|[]]];
        [now apply Inv | exact Eskip].
    + split; [reflexivity|]. split; [exact Eskip|].
      exists seen, []. split; [reflexivity|]. split; [|intros b' []].
      intros b' Hb'. fold c. exact (ltb_below_floor _ _ _ (Inv _ Hb') Eskip Hc).
Qed.

Lemma scan_firstMaximum (resolved : MatchOptions) (a : NormalizedProduct)
  (productsB : list NormalizedProduct) :
  (forall b, In b productsB -> isNaN (pairConfidence a b) = false) ->
  firstMaximum resolved a productsB (scan resolved a productsB).
Proof.
  unfold scan.
  assert (G : forall rest seen best,
    (forall b, In b (seen ++ rest) -> isNaN (pairConfidence a b) = false) ->
    firstMaximum resolved a seen best ->
    firstMaximum resolved a (seen ++ rest)
      (fold_left (consider resolved a) rest best)).
  { induction rest as [|b rest IH]; intros seen best Hnum Inv; simpl.
    - now rewrite app_nil_r.
    - replace (seen ++ b :: rest) with ((seen ++ [b]) ++ rest)
        by (rewrite <- app_assoc; reflexivity).
      apply IH.
      + intros b' Hb'. apply Hnum. rewrite <- app_assoc in Hb'. exact Hb'.
      + apply consider_firstMaximum; [|exact Inv].
        intros b' Hb'. apply Hnum. apply in_app_or in Hb' as [Hb'|[<-|[]]];
          apply in_or_app; [now left | right; now left]. }
  intro Hnum. apply (G productsB [] None Hnum). intros b [].
Qed.

(** X4: Where every candidate's confidence is a number, the candidate kept for
    an A entity has a confidence strictly greater than every B entity before
    it and at least that of every B entity after it (the first seen wins a
    tie), and no candidate is kept exactly when all are below the skip
    floor. *)
Theorem kept_candidate_is_first_maximum (resolved : MatchOptions)
  (a : NormalizedProduct) (productsB : list NormalizedProduct) :
  (forall b, In b productsB -> isNaN (pairConfidence a b) = false) ->
  match scan resolved a productsB with
  | None =>
      forall b, In b productsB ->
        (pairConfidence a b <? reviewThreshold resolved * num_0_65) = true
  | Some kept =>
      Best.confidence kept = pairConfidence a (Best.product kept) /\
      (Best.confidence kept <? reviewThreshold resolved * num_0_65) = false /\
      exists before after,
        productsB = before ++ Best.product kept :: after /\
        (forall b, In b before ->
           (pairConfidence a b <? Best.confidence kept) = true) /\
        (forall b, In b after ->
           (pairConfidence a b <=? Best.confidence kept) = true)
  end.
Proof.
  intro Hnum. exact (scan_firstMaximum resolved a productsB Hnum).
Qed.

Lemma kept_candidate_is_first_maximum_witness :
  (forall b, In b [aquafina; coke; appleJuiceBox] ->
     isNaN (pairConfidence cocaCola b) = false) /\
  match scan (resolveOptions defaults) cocaCola [aquafina; coke; appleJuiceBox] with
  | None =>
      forall b, In b [aquafina; coke; appleJuiceBox] ->
        (pairConfidence cocaCola b
         <? reviewThreshold (resolveOptions defaults) * num_0_65) = true
  | Some kept =>
      Best.confidence kept = pairConfidence cocaCola (Best.product kept) /\
      (Best.confidence kept
       <? reviewThreshold (resolveOptions defaults) * num_0_65) = false /\
      exists before after,
        [aquafina; coke; appleJuiceBox] = (before ++ Best.product kept :: after)%list /\
        (forall b, In b before ->
           (pairConfidence cocaCola b <? Best.confidence kept) = true) /\
        (forall b, In b after ->
           (pairConfidence cocaCola b <=? Best.confidence kept) = true)
  end.
Proof.
  assert (Hnum : forall b, In b [aquafina; coke; appleJuiceBox] ->
                   isNaN (pairConfidence cocaCola b) = false).
  { intros b [<-|[<-|[<-|[]]]]; vm_compute; reflexivity. }
  split; [exact Hnum|].
  exact (kept_candidate_is_first_maximum (resolveOptions defaults) cocaCola
           [aquafina; coke; appleJuiceBox] Hnum).
Defined.

(** ** The early skip, for sizes that are not infinite *)

(** X5: Where no entity of A or B has an infinite size, [matchProducts] returns
    what the matcher without the early skip returns: the skip floor of 0.65
    times the review threshold changes no record and no unmatched list. *)
Theorem early_skip_is_unobservable
  (productsA productsB : list NormalizedProduct) (options : Partial.MatchOptions) :
  forallb sizeNotInfinite productsA = true ->
  forallb sizeNotInfinite productsB = true ->
  matchProducts productsA productsB options
  = NoSkip.matchProducts productsA productsB options.
Proof.
  intros HA HB. now apply skip_is_transparent_for_finite_sizes.
Qed.

Lemma early_skip_is_unobservable_witness :
  forallb sizeNotInfinite [cocaCola; dasani; cokeCan] = true /\
  forallb sizeNotInfinite [aquafina; coke] = true /\
  matchProducts [cocaCola; dasani; cokeCan] [aquafina; coke] review70
  = NoSkip.matchProducts [cocaCola; dasani; cokeCan] [aquafina; coke] review70.
Proof.
  split; [vm_compute; reflexivity|]. split; [vm_compute; reflexivity|].
  apply (early_skip_is_unobservable [cocaCola; dasani; cokeCan] [aquafina; coke]
           review70); vm_compute; reflexivity.
Defined.

(** ** Raising a threshold *)

Lemma Forall2_flat_map {A B : Type} (R : B -> B -> Prop) (f g : A -> list B)
  (l : list A) :
  (forall x, In x l -> Forall2 R (f x) (g x)) ->
  Forall2 R (flat_map f l) (flat_map g l).
Proof.
  induction l as [|x l IH]; intro H; simpl; [constructor|].
  apply Forall2_app; [apply H; now left | apply IH; intros y Hy; apply H; now right].
Qed.

(** X6: Raising [autoAcceptThreshold] with [reviewThreshold] fixed keeps the
    records, one for one and in order, and can only turn [auto] into
    [review]: a record that is [auto] under the higher threshold is [auto]
    under the lower one. *)
Theorem raising_auto_only_demotes
  (productsA productsB : list NormalizedProduct)
  (options options' : Partial.MatchOptions) (result result' : MatchResult) :
  reviewThreshold (resolveOptions options)
  = reviewThreshold (resolveOptions options') ->
  (autoAcceptThreshold (resolveOptions options)
   <=? autoAcceptThreshold (resolveOptions options')) = true ->
  matchProducts productsA productsB options = Return result ->
  matchProducts productsA productsB options' = Return result' ->
  Forall2 (fun m m' => undecided m = undecided m' /\
                       (decision m' = auto -> decision m = auto))
    (matches result) (matches result').
Proof.
  intros Ereview Hauto H H'.
  rewrite (matches_of_result _ _ _ _ H), (matches_of_result _ _ _ _ H').
  set (resolved := resolveOptions options) in *.
  set (resolved' := resolveOptions options') in *.
  apply Forall2_flat_map. intros a _.
  rewrite (scan_review_only resolved resolved' a productsB Ereview).
  unfold recordsFor. destruct (scan resolved' a productsB) as [b|]; [|constructor].
  rewrite Ereview. destruct (_ <? _); constructor; [|constructor].
  split; [reflexivity|]. unfold recordOf. cbn [decision].
  destruct (Best.confidence b >=? autoAcceptThreshold resolved') eqn:E';
    [|discriminate].
  intros _. unfold geb in *. now rewrite (leb_trans _ _ _ Hauto E').
Qed.

Lemma raising_auto_only_demotes_witness :
  exists result result',
    matchProducts [appleJuice; cocaCola] [appleJuiceBox; coke] defaults
    = Return result /\
    matchProducts [appleJuice; cocaCola] [appleJuiceBox; coke] auto91
    = Return result' /\
    Forall2 (fun m m' => undecided m = undecided m' /\
                         (decision m' = auto -> decision m = auto))
      (matches result) (matches result').
Proof.
  eexists. eexists.
  split; [vm_compute; reflexivity|].
  split; [vm_compute; reflexivity|].
  match goal with
  | |- Forall2 _ (matches ?r) (matches ?r') =>
      apply (raising_auto_only_demotes [appleJuice; cocaCola] [appleJuiceBox; coke]
               defaults auto91 r r');
      vm_compute; reflexivity
  end.
Defined.

Lemma incl_map_filter {A B : Type} (f : A -> B) (p q : A -> bool) (l : list A) :
  (forall x, In x l -> p x = true -> q x = true) ->
  incl (map f (filter p l)) (map f (filter q l)).
Proof.
  intros H y Hy. apply in_map_iff in Hy as (x & <- & Hx).
  apply filter_In in Hx as [Hx Hp]. apply in_map, filter_In. auto.
Qed.

(** X7: Where no entity has an infinite size, every A entity that is unmatched
    under a review threshold is unmatched under every higher one. *)
Theorem raising_review_keeps_unmatched
  (productsA productsB : list NormalizedProduct)
  (options options' : Partial.MatchOptions) (result result' : MatchResult) :
  forallb sizeNotInfinite productsA = true ->
  forallb sizeNotInfinite productsB = true ->
  (reviewThreshold (resolveOptions options)
   <=? reviewThreshold (resolveOptions options')) = true ->
  matchProducts productsA productsB options = Return result ->
  matchProducts productsA productsB options' = Return result' ->
  incl (unmatchedA result) (unmatchedA result').
Proof.
  intros HA HB Hreview H H'.
  rewrite (skip_is_transparent_for_finite_sizes _ _ options HA HB) in H.
  rewrite (skip_is_transparent_for_finite_sizes _ _ options' HA HB) in H'.
  unfold NoSkip.matchProducts in H, H'.
  set (resolved := resolveOptions options) in *.
  set (resolved' := resolveOptions options') in *.
  destruct (reviewThreshold resolved >? autoAcceptThreshold resolved);
    [discriminate|].
  destruct (reviewThreshold resolved' >? autoAcceptThreshold resolved');
    [discriminate|].
  injection H as <-. injection H' as <-.
  unfold assemble. cbn [unmatchedA].
  change (NoSkip.matchOne resolved productsB)
    with (classifyWith resolved (fun a => NoSkip.scan a productsB)).
  change (NoSkip.matchOne resolved' productsB)
    with (classifyWith resolved' (fun a => NoSkip.scan a productsB)).
  rewrite !fold_unmatchedA. cbn [initial acc_unmatchedA app].
  apply incl_map_filter.
  intros a _. unfold belowReview.
  destruct (NoSkip.scan a productsB) as [b|]; [|trivial].
  intro Hb. exact (ltb_leb_trans _ _ _ Hb Hreview).
Qed.

Lemma raising_review_keeps_unmatched_witness :
  exists result result',
    matchProducts [dasani; cocaCola] [aquafina; coke] defaults = Return result /\
    matchProducts [dasani; cocaCola] [aquafina; coke] review70 = Return result' /\
    incl (unmatchedA result) (unmatchedA result').
Proof.
  eexists. eexists.
  split; [vm_compute; reflexivity|].
  split; [vm_compute; reflexivity|].
  match goal with
  | |- incl (unmatchedA ?r) (unmatchedA ?r') =>
      apply (raising_review_keeps_unmatched [dasani; cocaCola] [aquafina; coke]
               defaults review70 r r');
      vm_compute; reflexivity
  end.
Defined.

(** ** The confidence written into a record *)

Lemma in_unit_interval_finite (x : number) :
  in_unit_interval x = true -> exists v, x = Finite v /\ (0 <= v <= 1)%Q.
Proof.
  unfold in_unit_interval, num_0, num_1. intro H.
  apply andb_true_iff in H as [H0 H1].
  destruct x as [|[]|v]; try discriminate.
  exists v. split; [reflexivity|]. simpl in *. reflect_Q. lra.
Qed.

Lemma round_unit (v : Q) :
  (0 <= v <= 1)%Q -> hundredth (round (Finite v)).
Proof.
  intros [H0 H1]. unfold round. cbn [mul Math_round div].
  set (k := Qfloor (v * 100 + (1 # 2))).
  assert (Hlow : (inject_Z k <= v * 100 + (1 # 2))%Q) by apply Qfloor_le.
  assert (Hhigh : (v * 100 + (1 # 2) < inject_Z (k + 1))%Q) by apply Qlt_floor.
  rewrite inject_Z_plus in Hhigh. change (inject_Z 1) with 1%Q in Hhigh.
  assert (Hk0 : (0 <= k)%Z).
  { change 0%Z with (Qfloor 0). apply Qfloor_resp_le. nra. }
  assert (Hk1 : (k <= 100)%Z).
  { change 100%Z with (Qfloor (100 + (1 # 2))). apply Qfloor_resp_le. nra. }
  change (Qzero 100) with false. cbn iota.
  exists k. split; [lia|]. simpl. reflexivity.
Qed.

(** X8: Where no entity has an infinite size, the confidence written into a
    record is a multiple of 0.01 between 0 and 1: it is [round] of the
    confidence that [computeConfidence] gave to a pair of an A entity and a
    B entity of the input, the two entities that the record summarizes. *)
Theorem record_confidence_is_rounded
  (productsA productsB : list NormalizedProduct)
  (options : Partial.MatchOptions) (result : MatchResult) (m : MatchRecord) :
  forallb sizeNotInfinite productsA = true ->
  forallb sizeNotInfinite productsB = true ->
  matchProducts productsA productsB options = Return result ->
  In m (matches result) ->
  hundredth (confidence m) /\
  exists a b,
    In a productsA /\ In b productsB /\
    productA m = summarizeProduct a /\ productB m = summarizeProduct b /\
    in_unit_interval (pairConfidence a b) = true /\
    confidence m = round (pairConfidence a b).
Proof.
  intros HA HB H Hm.
  destruct (record_origin _ _ _ _ _ H Hm) as (a & best & Ha & Escan & _ & ->).
  pose proof (scan_kept (resolveOptions options) a productsB) as K.
  rewrite Escan in K. destruct K as (Hb & Econf & _ & _).
  rewrite forallb_forall in HA, HB.
  pose proof (pairConfidence_unit a (Best.product best) (HA _ Ha) (HB _ Hb))
    as Hunit.
  destruct (in_unit_interval_finite _ Hunit) as (v & Ev & Hv).
  unfold recordOf. cbn [confidence productA productB].
  rewrite Econf. split; [rewrite Ev; now apply round_unit|].
  exists a, (Best.product best). auto 10.
Qed.

Lemma record_confidence_is_rounded_witness :
  exists result m,
    matchProducts [cocaCola; dasani] [aquafina; coke] defaults = Return result /\
    In m (matches result) /\
    hundredth (confidence m).
Proof.
  eexists. eexists.
  split; [vm_compute; reflexivity|].
  split; [left; reflexivity|].
  match goal with
  | |- hundredth (confidence ?m) =>
      eapply (record_confidence_is_rounded [cocaCola; dasani] [aquafina; coke]
                defaults _ m);
      [vm_compute; reflexivity | vm_compute; reflexivity
      | vm_compute; reflexivity | left; reflexivity]
  end.
Defined.

(** ** The range of the scores *)

Lemma of_nat_ratio_unit (m n : nat) :
  (m <= n)%nat -> n <> 0%nat -> in_unit_interval (of_nat m / of_nat n) = true.
Proof.
  intros Hle Hn. unfold of_nat.
  assert (Hpos : (0 < inject_Z (Z.of_nat n))%Q) by (unfold Qlt; simpl; lia).
  rewrite div_finite by (apply Qzero_false; lra).
  unfold in_unit_interval, num_0, num_1. cbn [leb].
  apply andb_true_intro. split; apply Qle_bool_iff.
  - apply Qle_shift_div_l; [exact Hpos|]. rewrite Qmult_0_l.
    unfold Qle. simpl. lia.
  - apply Qle_shift_div_r; [exact Hpos|]. rewrite Qmult_1_l.
    rewrite <- Zle_Qle. lia.
Qed.

(** With no repeated token on the A side, the token score is in [[0,1]]. *)
Lemma scoreNameTokens_unit (tokensA tokensB : list jsval) :
  NoDup tokensA -> in_unit_interval (scoreNameTokens tokensA tokensB) = true.
Proof.
  intro N. unfold scoreNameTokens.
  destruct (_ || _); [reflexivity|].
  destruct (List.length (Set_of (tokensA ++ tokensB)) =? 0)%nat eqn:E;
    [reflexivity|].
  apply Nat.eqb_neq in E. apply of_nat_ratio_unit; [|exact E].
  apply NoDup_incl_length; [now apply NoDup_filter|].
  intros x Hx. apply filter_In in Hx as [Hx _].
  apply Set_of_elements, in_or_app. now left.
Qed.

Lemma lookup_sum_without (k0 : string) (n0 : nat) (h : string -> nat)
  (keys : list string) :
  ~ In k0 keys ->
  list_sum (map (fun k => if String.eqb k0 k then n0 else h k) keys)
  = list_sum (map h keys).
Proof.
  induction keys as [|k rest IH]; simpl; intro H; [reflexivity|].
  destruct (String.eqb k0 k) eqn:E.
  - apply String.eqb_eq in E. exfalso. apply H. now left.
  - rewrite IH; [reflexivity | tauto].
Qed.

Lemma lookup_sum_once (k0 : string) (n0 : nat) (h : string -> nat)
  (keys : list string) :
  NoDup keys ->
  (list_sum (map (fun k => if String.eqb k0 k then n0 else h k) keys)
   <= n0 + list_sum (map h keys))%nat.
Proof.
  induction keys as [|k rest IH]; simpl; intro N; [lia|].
  inversion N as [|? ? Hk N']; subst.
  destruct (String.eqb k0 k) eqn:E.
  - apply String.eqb_eq in E. subst k.
    rewrite (lookup_sum_without _ _ _ _ Hk). lia.
  - specialize (IH N'). lia.
Qed.

(** The counts found under distinct keys add up to at most the total. *)
Lemma lookup_sum_le (counts : list (string * nat)) (keys : list string) :
  NoDup keys ->
  (list_sum
     (map (fun k => match Map_get counts k with Some n => n | None => 0 end) keys)
   <= list_sum (map snd counts))%nat.
Proof.
  intro N. induction counts as [|[k0 n0] rest IH]; simpl.
  - induction keys as [|k keys' IHk]; simpl; [lia|].
    inversion N; subst. auto.
  - pose proof (lookup_sum_once k0 n0
                  (fun k => match Map_get rest k with Some n => n | None => 0 end)
                  keys N) as Honce.
    assert (E : map (fun k =>
                       match (if String.eqb k0 k then Some n0 else Map_get rest k) with
                       | Some n => n
                       | None => 0%nat
                       end) keys
                = map (fun k =>
                         if String.eqb k0 k then n0
                         else match Map_get rest k with Some n => n | None => 0%nat end)
                    keys).
    { apply map_ext. intro k. destruct (String.eqb k0 k); reflexivity. }
    rewrite E. lia.
Qed.

(** The shared-bigram count is at most the number of bigrams on each side. *)
Lemma intersection_le (countsA countsB : list (string * nat)) :
  NoDup (map fst countsA) ->
  let intersection :=
    fold_left
      (fun acc entry =>
         match Map_get countsB (fst entry) with
         | Some countB =>
             if (countB =? 0)%nat then acc
             else (acc + Nat.min (snd entry) countB)%nat
         | None => acc
         end)
      countsA 0%nat in
  (intersection <= list_sum (map snd countsA))%nat /\
  (intersection <= list_sum (map snd countsB))%nat.
Proof.
  intros N intersection.
  assert (G : forall entries acc,
    let final :=
      fold_left
        (fun acc entry =>
           match Map_get countsB (fst entry) with
           | Some countB =>
               if (countB =? 0)%nat then acc
               else (acc + Nat.min (snd entry) countB)%nat
           | None => acc
           end)
        entries acc in
    (final <= acc + list_sum (map snd entries))%nat /\
    (final <= acc +
              list_sum
                (map (fun k => match Map_get countsB k with Some n => n | None => 0 end)
                   (map fst entries)))%nat).
  { induction entries as [|[k n] rest IH]; intro acc; simpl; [lia|].
    destruct (Map_get countsB k) as [countB|].
    - destruct (countB =? 0)%nat.
      + destruct (IH acc) as [H1 H2]. lia.
      + destruct (IH (acc + Nat.min n countB)%nat) as [H1 H2]. lia.
    - destruct (IH acc) as [H1 H2]. lia. }
  destruct (G countsA 0%nat) as [H1 H2]. fold intersection in H1, H2.
  split; [exact H1|].
  pose proof (lookup_sum_le countsB (map fst countsA) N). lia.
Qed.

(** The bigram score is in [[0,1]]. *)
Lemma scoreCharacterBigram_unit (a b : string) :
  in_unit_interval (scoreCharacterBigram a b) = true.
Proof.
  unfold scoreCharacterBigram.
  destruct (List.length (buildBigrams a) =? 0)%nat eqn:E; [reflexivity|].
  destruct (List.length (buildBigrams b) =? 0)%nat; [reflexivity|].
  cbn [orb]. apply Nat.eqb_neq in E.
  destruct (countOccurrences_counts (buildBigrams a)) as (NA & _ & SA).
  destruct (countOccurrences_counts (buildBigrams b)) as (_ & _ & SB).
  destruct (intersection_le (countOccurrences (buildBigrams a))
              (countOccurrences (buildBigrams b)) NA) as [HA HB].
  rewrite SA in HA. rewrite SB in HB.
  apply of_nat_ratio_unit; lia.
Qed.

Lemma Math_max_unit (x y : number) :
  in_unit_interval x = true -> in_unit_interval y = true ->
  in_unit_interval (Math_max x y) = true.
Proof.
  intros Hx Hy.
  destruct (in_unit_interval_finite _ Hx) as (a & -> & _).
  destruct (in_unit_interval_finite _ Hy) as (b & -> & _).
  unfold Math_max, ltb. destruct (Qlt_bool a b); assumption.
Qed.

Lemma clamp_of_finite (x : number) :
  finite x = true -> in_unit_interval (clamp x num_0 num_1) = true.
Proof.
  destruct x as [| |a]; try discriminate. intros _.
  exact (clamp_unit (Finite a)).
Qed.

(** Unless a size is infinite, the size score is in [[0,1]]. *)
Lemma scoreSize_unit (x y : option number) :
  match x with Some (Infinity _) => false | _ => true end = true ->
  match y with Some (Infinity _) => false | _ => true end = true ->
  in_unit_interval (scoreSize x y) = true.
Proof.
  destruct x as [x|], y as [y|]; try reflexivity.
  intros Hx Hy. unfold scoreSize.
  destruct (negb (truthy x) || negb (truthy y)) eqn:E; [reflexivity|].
  apply orb_false_iff in E as [Ex Ey].
  destruct x as [|s|a], y as [|t|b]; try discriminate.
  simpl in Ex, Ey. apply negb_false_iff, negb_true_iff in Ex, Ey.
  cbn [sub neg add Math_abs].
  apply clamp_of_finite, Math_max_finite; [reflexivity|].
  assert (Hmax : exists m, Math_max (Finite a) (Finite b) = Finite m /\
                           Qzero m = false).
  { unfold Math_max, ltb. destruct (Qlt_bool a b); eauto. }
  destruct Hmax as (m & -> & Hm). rewrite (div_finite _ _ Hm). reflexivity.
Qed.

(** For prices that are not negative, the price score is in [[0,1]]. *)
Lemma scoreNumericSimilarity_unit (x y : option number) :
  match x with Some (Finite q) => negb (Qnegative q) | _ => true end = true ->
  match y with Some (Finite q) => negb (Qnegative q) | _ => true end = true ->
  in_unit_interval (scoreNumericSimilarity x y num_0_25) = true.
Proof.
  destruct x as [x|], y as [y|]; try reflexivity.
  intros Hx Hy. unfold scoreNumericSimilarity.
  destruct ((x === num_0) && (y === num_0)); [reflexivity|].
  destruct ((x === num_0) || (y === num_0)); [reflexivity|].
  destruct x as [|s|a], y as [|t|b];
    try (destruct s); try (destruct t); try reflexivity.
  apply negb_true_iff in Hx, Hy.
  assert (Ha : (0 <= a)%Q).
  { apply Qnot_lt_le. intro L. apply Qnegative_true in L. congruence. }
  assert (Hb : (0 <= b)%Q).
  { apply Qnot_lt_le. intro L. apply Qnegative_true in L. congruence. }
  cbn [sub neg add Math_abs]. unfold num_2.
  rewrite (div_finite (a + b) 2) by reflexivity.
  unfold num_0. cbn [eqb]. rewrite Qeq_bool_Qzero.
  destruct (Qzero ((a + b) / 2)) eqn:Eavg; [reflexivity|].
  rewrite (div_finite _ _ Eavg).
  set (avg := ((a + b) / 2)%Q) in *.
  set (ratio := (Qabs (a + - b) / avg)%Q).
  assert (Havg : (0 < avg)%Q).
  { apply Qzero_false in Eavg.
    assert (H0 : (0 <= avg)%Q).
    { unfold avg. apply Qle_shift_div_l; [reflexivity | lra]. }
    destruct (Qle_lt_or_eq _ _ H0) as [L|L]; [exact L|].
    exfalso. apply Eavg. now symmetry. }
  assert (Hratio : (0 <= ratio)%Q).
  { unfold ratio. apply Qle_shift_div_l; [exact Havg|].
    rewrite Qmult_0_l. apply Qabs_nonneg. }
  destruct (Finite ratio <=? num_0_25) eqn:E; [|reflexivity].
  unfold num_0_25 in *. rewrite div_finite by reflexivity.
  cbn [leb] in E. apply Qle_bool_iff in E.
  unfold in_unit_interval, num_0, num_1. cbn [sub neg add leb].
  assert (Ediv : (ratio / (25 # 100) == ratio * 4)%Q) by field.
  apply andb_true_intro. split; apply Qle_bool_iff; rewrite Ediv; lra.
Qed.

Lemma scoreSimple_unit :
  (forall a b, in_unit_interval (scoreUPC a b) = true) /\
  (forall x y, in_unit_interval (scoreBrand x y) = true) /\
  (forall x y, in_unit_interval (scoreCategory x y) = true) /\
  (forall x y, in_unit_interval (scoreDietPenalty x y) = true).
Proof.
  repeat split.
  - intros a b. unfold scoreUPC. destruct (_ || _); [reflexivity|].
    destruct (scancode a), (scancode b); try reflexivity.
    destruct (String.eqb _ _); reflexivity.
  - intros x y. unfold scoreBrand.
    destruct (_ && _); [reflexivity|]. destruct (_ || _); [reflexivity|].
    destruct x, y; try reflexivity.
    destruct (String.eqb _ _); [reflexivity|].
    destruct (option_jsval_eqb _ _); reflexivity.
  - intros x y. unfold scoreCategory.
    destruct (_ && _); [reflexivity|]. destruct (_ || _); [reflexivity|].
    destruct (option_string_eqb _ _); [reflexivity|].
    destruct (canonicalizeCategory x), (canonicalizeCategory y); try reflexivity.
    destruct (_ && _); reflexivity.
  - intros [] []; reflexivity.
Qed.

Lemma computeFeatureScores_unit (a b : NormalizedProduct) :
  NoDup (tokens a) ->
  sizeNotInfinite a = true -> sizeNotInfinite b = true ->
  priceNotNegative a = true -> priceNotNegative b = true ->
  unitScores (computeFeatureScores a b) = true.
Proof.
  intros N Sa Sb Pa Pb.
  destruct scoreSimple_unit as (Hupc & Hbrand & Hcategory & Hdiet).
  unfold unitScores, attributes, computeFeatureScores.
  cbn [forallb attributeScore Scores.upc Scores.name Scores.brand Scores.size
       Scores.category Scores.price Scores.dietPenalty].
  rewrite Hupc, Hbrand, Hcategory, Hdiet.
  rewrite (scoreSize_unit _ _ Sa Sb), (scoreNumericSimilarity_unit _ _ Pa Pb).
  unfold scoreNameSimilarity.
  rewrite Math_max_unit;
    [reflexivity | now apply scoreNameTokens_unit | apply scoreCharacterBigram_unit].
Qed.

(** X9: For a pair of entities where the A side repeats no token, no size is
    infinite and no price is negative, each of the six scores and the diet
    penalty of [computeFeatureScores] lies in [[0,1]]. *)
Theorem feature_scores_in_unit_interval (a b : NormalizedProduct) :
  NoDup (tokens a) ->
  sizeNotInfinite a = true -> sizeNotInfinite b = true ->
  priceNotNegative a = true -> priceNotNegative b = true ->
  unitScores (computeFeatureScores a b) = true.
Proof.
  intros N Sa Sb Pa Pb. exact (computeFeatureScores_unit a b N Sa Sb Pa Pb).
Qed.

Lemma feature_scores_in_unit_interval_witness :
  unitScores (computeFeatureScores cocaCola coke) = true.
Proof.
  apply (feature_scores_in_unit_interval cocaCola coke).
  - vm_compute. repeat constructor; simpl; intuition discriminate.
  - vm_compute; reflexivity.
  - vm_compute; reflexivity.
  - vm_compute; reflexivity.
  - vm_compute; reflexivity.
Defined.

Lemma attributeScore_mapScores (scores : FeatureScores) (attr : Attribute) :
  attributeScore (mapScores scores) attr = round (attributeScore scores attr).
Proof. destruct attr; reflexivity. Qed.

(** X10: Where no A entity repeats a token, no entity has an infinite size
    and no entity has a negative price, each score written into a record is
    a multiple of 0.01 between 0 and 1. *)
Theorem record_scores_are_rounded
  (productsA productsB : list NormalizedProduct)
  (options : Partial.MatchOptions) (result : MatchResult) (m : MatchRecord) :
  Forall (fun a => NoDup (tokens a)) productsA ->
  forallb sizeNotInfinite productsA = true ->
  forallb sizeNotInfinite productsB = true ->
  forallb priceNotNegative productsA = true ->
  forallb priceNotNegative productsB = true ->
  matchProducts productsA productsB options = Return result ->
  In m (matches result) ->
  (forall attr, hundredth (attributeScore (featureScores m) attr)) /\
  hundredth (Scores.dietPenalty (featureScores m)).
Proof.
  intros N SA SB PA PB H Hm.
  destruct (record_origin _ _ _ _ _ H Hm) as (a & best & Ha & Escan & _ & ->).
  pose proof (scan_kept (resolveOptions options) a productsB) as K.
  rewrite Escan in K. destruct K as (Hb & _ & Escores & _).
  rewrite Forall_forall in N. rewrite forallb_forall in SA, SB, PA, PB.
  pose proof (computeFeatureScores_unit a (Best.product best)
                (N _ Ha) (SA _ Ha) (SB _ Hb) (PA _ Ha) (PB _ Hb)) as U.
  unfold unitScores in U. apply andb_true_iff in U as [Uattrs Udiet].
  rewrite forallb_forall in Uattrs.
  unfold recordOf. cbn [featureScores]. rewrite Escores. split.
  - intro attr. rewrite attributeScore_mapScores.
    assert (Hattr : In attr attributes) by (destruct attr; simpl; tauto).
    destruct (in_unit_interval_finite _ (Uattrs attr Hattr)) as (v & -> & Hv).
    apply round_unit, Hv.
  - cbn [mapScores Scores.dietPenalty].
    destruct (in_unit_interval_finite _ Udiet) as (v & -> & Hv).
    apply round_unit, Hv.
Qed.

Lemma record_scores_are_rounded_witness :
  exists result m,
    matchProducts [cocaCola; dasani] [aquafina; coke] defaults = Return result /\
    In m (matches result) /\
    hundredth (Scores.name (featureScores m)).
Proof.
  eexists. eexists.
  split; [vm_compute; reflexivity|].
  split; [left; reflexivity|].
  match goal with
  | |- hundredth (Scores.name (featureScores ?m)) =>
      refine (proj1 (record_scores_are_rounded [cocaCola; dasani] [aquafina; coke]
                       defaults _ m _ _ _ _ _ _ _) Name);
      [ vm_compute; repeat constructor; simpl; intuition discriminate
      | vm_compute; reflexivity | vm_compute; reflexivity
      | vm_compute; reflexivity | vm_compute; reflexivity
      | vm_compute; reflexivity | left; reflexivity ]
  end.
Defined.

(** ** How the confidence follows the scores *)

Lemma clamp_monotone (x y : Q) :
  (x <= y)%Q ->
  exists u v,
    clamp (Finite x) num_0 num_1 = Finite u /\
    clamp (Finite y) num_0 num_1 = Finite v /\
    (u <= v)%Q /\ (v - u <= y - x)%Q.
Proof.
  intro H. unfold clamp, Math_max, Math_min, num_0, num_1. simpl.
  destruct (Qlt_bool 0 x) eqn:X0; destruct (Qlt_bool 0 y) eqn:Y0; simpl;
    try destruct (Qlt_bool x 1) eqn:X1; try destruct (Qlt_bool y 1) eqn:Y1; simpl;
    eexists; eexists; (split; [reflexivity|]); (split; [reflexivity|]);
    reflect_Q; split; lra.
Qed.

Lemma weights_positive (attrs : list Attribute) :
  attrs <> [] ->
  exists w, total (map attributeWeight attrs) = Finite w /\ (0 < w)%Q.
Proof.
  intro Hne. unfold total, num_0.
  destruct (total_weights attrs 0) as (w & E & _ & Hpos).
  exists w. split; [exact E | now apply Hpos].
Qed.

Lemma total_scores_le (s s' : FeatureScores) (attrs : list Attribute) (q0 q0' : Q) :
  (q0 <= q0')%Q ->
  (forall attr, In attr attrs ->
     exists u u', attributeScore s attr = Finite u /\
                  attributeScore s' attr = Finite u' /\ (u <= u')%Q) ->
  exists x x',
    fold_left add
      (map (fun attr => attributeScore s attr * attributeWeight attr) attrs)
      (Finite q0) = Finite x /\
    fold_left add
      (map (fun attr => attributeScore s' attr * attributeWeight attr) attrs)
      (Finite q0') = Finite x' /\
    (x <= x')%Q.
Proof.
  revert q0 q0'. induction attrs as [|attr rest IH]; intros q0 q0' Hq Hle; simpl.
  - now exists q0, q0'.
  - destruct (Hle attr (or_introl eq_refl)) as (u & u' & -> & -> & Hu).
    assert (Hw : exists w, attributeWeight attr = Finite w /\ (0 < w)%Q).
    { destruct attr; eexists; (split; [reflexivity | reflexivity]). }
    destruct Hw as (w & -> & Hpos). simpl.
    apply IH; [nra|]. intros t Ht. apply Hle. now right.
Qed.

(** X11: For finite scores, raising the score of any attribute with the diet
    penalty unchanged never lowers the confidence. *)
Theorem confidence_monotone_in_scores (s s' : FeatureScores)
  (a b : NormalizedProduct) :
  finiteScores s = true -> finiteScores s' = true ->
  (forall attr, (attributeScore s attr <=? attributeScore s' attr) = true) ->
  Scores.dietPenalty s = Scores.dietPenalty s' ->
  (computeConfidence s a b <=? computeConfidence s' a b) = true.
Proof.
  intros F F' Hle Hdiet. rewrite !computeConfidence_stated.
  unfold statedConfidence.
  destruct (filter (availableTruthy a b) attributes) as [|attr attrs] eqn:Echosen;
    [reflexivity|].
  unfold finiteScores in F, F'.
  apply andb_true_iff in F as [Fattrs Fdiet].
  apply andb_true_iff in F' as [Fattrs' _].
  rewrite forallb_forall in Fattrs, Fattrs'.
  assert (Hall : forall t, In t (attr :: attrs) ->
            exists u u', attributeScore s t = Finite u /\
                         attributeScore s' t = Finite u' /\ (u <= u')%Q).
  { intros t _.
    assert (Ht : In t attributes) by (destruct t; simpl; tauto).
    specialize (Fattrs t Ht). specialize (Fattrs' t Ht). specialize (Hle t).
    destruct (attributeScore s t) as [| |u]; try discriminate.
    destruct (attributeScore s' t) as [| |u']; try discriminate.
    exists u, u'. repeat split. simpl in Hle. now apply Qle_bool_iff. }
  destruct (total_scores_le s s' (attr :: attrs) 0 0 (Qle_refl 0) Hall)
    as (x & x' & Ex & Ex' & Hx).
  destruct (weights_positive (attr :: attrs)) as (w & Ew & Hw); [discriminate|].
  change (total
            (map (fun attr => attributeScore s attr * attributeWeight attr)
               (attr :: attrs)) = Finite x) in Ex.
  change (total
            (map (fun attr => attributeScore s' attr * attributeWeight attr)
               (attr :: attrs)) = Finite x') in Ex'.
  unfold weightedAverage. rewrite Ex, Ex', Ew, <- Hdiet.
  destruct (Scores.dietPenalty s) as [| |d]; try discriminate.
  assert (Hnz : Qzero w = false) by (apply Qzero_false; lra).
  rewrite !(div_finite _ _ Hnz). unfold num_0_05. cbn [mul sub neg add].
  assert (Hdiv : (x / w + - (d * (5 # 100)) <= x' / w + - (d * (5 # 100)))%Q).
  { assert (Hinv : (0 < / w)%Q) by now apply Qinv_lt_0_compat.
    unfold Qdiv. nra. }
  destruct (clamp_monotone _ _ Hdiv) as (u & v & -> & -> & Huv & _).
  simpl. now apply Qle_bool_iff.
Qed.

Lemma confidence_monotone_in_scores_witness :
  (computeConfidence nameOnly cocaCola coke
   <=? computeConfidence (computeFeatureScores cocaCola cocaCola) cocaCola coke)
  = true.
Proof.
  apply (confidence_monotone_in_scores nameOnly
           (computeFeatureScores cocaCola cocaCola) cocaCola coke).
  - vm_compute; reflexivity.
  - vm_compute; reflexivity.
  - intros []; vm_compute; reflexivity.
  - vm_compute; reflexivity.
Defined.

Lemma weightedAverage_ext (attrs : list Attribute) (s s' : FeatureScores) :
  (forall attr, attributeScore s attr = attributeScore s' attr) ->
  weightedAverage attrs s = weightedAverage attrs s'.
Proof.
  intro H. unfold weightedAverage. do 2 f_equal.
  apply map_ext. intro attr. now rewrite H.
Qed.

Lemma withDiet_scores (a b : NormalizedProduct) (flag : bool) :
  (forall attr,
     attributeScore (computeFeatureScores a (withDiet flag b)) attr
     = attributeScore (computeFeatureScores a b) attr) /\
  Scores.dietPenalty (computeFeatureScores a (withDiet flag b))
  = scoreDietPenalty (isDiet a) flag /\
  availableTruthy a (withDiet flag b) = availableTruthy a b.
Proof.
  split; [intros []; reflexivity|]. split; reflexivity.
Qed.

Lemma clamp_strict (x y : Q) :
  (x < y)%Q ->
  exists u v,
    clamp (Finite x) num_0 num_1 = Finite u /\
    clamp (Finite y) num_0 num_1 = Finite v /\
    (u <= v)%Q /\ ((0 < v)%Q -> (v < 1)%Q -> (u < v)%Q).
Proof.
  intro H. unfold clamp, Math_max, Math_min, num_0, num_1. simpl.
  destruct (Qlt_bool 0 x) eqn:X0; destruct (Qlt_bool 0 y) eqn:Y0; simpl;
    try destruct (Qlt_bool x 1) eqn:X1; try destruct (Qlt_bool y 1) eqn:Y1; simpl;
    eexists; eexists; (split; [reflexivity|]); (split; [reflexivity|]);
    reflect_Q; split; try intros; lra.
Qed.

(** X12: Where no size is infinite, a disagreement of the diet flags never
    raises the confidence of a pair: the same B entity with the other diet
    flag scores no higher, and strictly lower whenever the confidence with
    agreeing flags lies strictly between 0 and 1. *)
Theorem diet_mismatch_never_raises_confidence (a b : NormalizedProduct) :
  sizeNotInfinite a = true -> sizeNotInfinite b = true ->
  let agreeing := pairConfidence a (withDiet (isDiet a) b) in
  let mismatched := pairConfidence a (withDiet (negb (isDiet a)) b) in
  (mismatched <=? agreeing) = true /\
  ((num_0 <? agreeing) = true -> (agreeing <? num_1) = true ->
   (mismatched <? agreeing) = true).
Proof.
  intros Sa Sb agreeing mismatched. unfold agreeing, mismatched, pairConfidence.
  rewrite !computeConfidence_stated.
  destruct (withDiet_scores a b (isDiet a)) as (Hattrs & Hdiet & ->).
  destruct (withDiet_scores a b (negb (isDiet a))) as (Hattrs' & Hdiet' & ->).
  pose proof (computeFeatureScores_finite a b Sa Sb) as F.
  unfold finiteScores in F. apply andb_true_iff in F as [Fattrs _].
  unfold statedConfidence.
  destruct (filter (availableTruthy a b) attributes) as [|attr attrs] eqn:Echosen;
    [split; [reflexivity | discriminate]|].
  assert (Hchosen : forallb (fun t => finite (attributeScore (computeFeatureScores a b) t))
                      (attr :: attrs) = true).
  { rewrite <- Echosen. now apply forallb_filter. }
  destruct (total_scores _ (attr :: attrs) 0 Hchosen) as (x & Ex).
  destruct (weights_positive (attr :: attrs)) as (w & Ew & Hw); [discriminate|].
  assert (Hnz : Qzero w = false) by (apply Qzero_false; lra).
  change (total
            (map (fun t => attributeScore (computeFeatureScores a b) t
                           * attributeWeight t) (attr :: attrs)) = Finite x) in Ex.
  rewrite (weightedAverage_ext _ _ _ Hattrs), (weightedAverage_ext _ _ _ Hattrs').
  unfold weightedAverage.
  rewrite Ex, Ew, Hdiet, Hdiet', (div_finite _ _ Hnz).
  assert (E0 : scoreDietPenalty (isDiet a) (isDiet a) = num_0)
    by (destruct (isDiet a); reflexivity).
  assert (E1 : scoreDietPenalty (isDiet a) (negb (isDiet a)) = num_1)
    by (destruct (isDiet a); reflexivity).
  rewrite E0, E1. unfold num_0, num_1, num_0_05. cbn [mul sub neg add].
  assert (Hlt : (x / w + - (1 * (5 # 100)) < x / w + - (0 * (5 # 100)))%Q) by lra.
  destruct (clamp_strict _ _ Hlt) as (u & v & Eu & Ev & Huv & Hstrict).
  unfold num_0, num_1 in Eu, Ev. rewrite Eu, Ev. cbn [leb ltb].
  split; [now apply Qle_bool_iff|].
  intros H0 H1. reflect_Q. now apply Hstrict.
Qed.

Lemma diet_mismatch_never_raises_confidence_witness :
  (pairConfidence cocaCola (withDiet true coke)
   <=? pairConfidence cocaCola (withDiet false coke)) = true /\
  ((num_0 <? pairConfidence cocaCola (withDiet false coke)) = true ->
   (pairConfidence cocaCola (withDiet false coke) <? num_1) = true ->
   (pairConfidence cocaCola (withDiet true coke)
    <? pairConfidence cocaCola (withDiet false coke)) = true).
Proof.
  apply (diet_mismatch_never_raises_confidence cocaCola coke);
    vm_compute; reflexivity.
Defined.

(** ** The brand of a normalized entity *)

Lemma assoc_In (key value : string) (table : list (string * string)) :
  assoc key table = Some value -> In (key, value) table.
Proof.
  induction table as [|[k v] rest IH]; simpl; [discriminate|].
  destruct (String.eqb k key) eqn:E.
  - apply String.eqb_eq in E. intro H. injection H as <-. subst. now left.
  - intro H. right. now apply IH.
Qed.

(** Every value of the synonym table is not empty, is no stop word, and is
    its own canonical brand. *)
Lemma table_values :
  forall key value, In (key, value) BRAND_SYNONYMS ->
    nonempty value = true /\ mem value STOP_WORDS = false /\
    canonicalizeBrand_string value = Some (Str value).
Proof.
  assert (Hall :
    forallb
      (fun entry =>
         nonempty (snd entry) && negb (mem (snd entry) STOP_WORDS) &&
         option_jsval_eqb (canonicalizeBrand_string (snd entry))
           (Some (Str (snd entry))))
      BRAND_SYNONYMS = true) by (vm_compute; reflexivity).
  intros key value Hin. rewrite forallb_forall in Hall.
  specialize (Hall _ Hin). cbn [snd] in Hall.
  apply andb_true_iff in Hall as [Hall Hfix].
  apply andb_true_iff in Hall as [Hne Hstop].
  split; [exact Hne|]. split; [now apply negb_true_iff|].
  destruct (canonicalizeBrand_string value) as [v|]; [|discriminate].
  simpl in Hfix. apply jsval_eqb_eq in Hfix. now subst.
Qed.

(** A string that [extractBrand] returns is not empty and is its own
    canonical brand. *)
Lemma extractBrand_string (rawName x : string) :
  extractBrand rawName = Some (Str x) ->
  nonempty x = true /\ canonicalizeBrand_string x = Some (Str x).
Proof.
  unfold extractBrand.
  destruct (find _ synonymKeys) as [key|] eqn:F.
  - unfold BRAND_SYNONYMS_get.
    destruct (assoc key BRAND_SYNONYMS) as [value|] eqn:E.
    + intro H. injection H as <-.
      destruct (table_values key value (assoc_In _ _ _ E)) as (Hne & _ & Hfix).
      now split.
    + destruct (mem key Object_prototype); discriminate.
  - destruct (split_separators EmptyString (toLowerCase rawName))
      as [|first others] eqn:Etokens; [discriminate|].
    assert (Hfirst : In first (split_separators EmptyString (toLowerCase rawName)))
      by (rewrite Etokens; now left).
    apply toLowerCase_tokens in Hfirst as [Hchars Hne].
    assert (Hcanonical :
      canonicalizeBrand_string first
      = match BRAND_SYNONYMS_get first with
        | Some v => if jsval_truthy v then Some v else Some (Str first)
        | None => Some (Str first)
        end).
    { unfold canonicalizeBrand_string.
      destruct first as [|c rest]; [congruence|]. cbn [nonempty negb].
      now rewrite (token_toLowerCase _ Hchars), (token_trim _ Hchars). }
    assert (Hnonempty : nonempty first = true)
      by (destruct first; [congruence | reflexivity]).
    cbn [first_canonical]. rewrite Hcanonical.
    unfold BRAND_SYNONYMS_get in *.
    destruct (assoc first BRAND_SYNONYMS) as [value|] eqn:E.
    + destruct (table_values first value (assoc_In _ _ _ E)) as (Hv & _ & Hfix).
      cbn [jsval_truthy]. rewrite Hv. cbn [jsval_truthy]. rewrite Hv.
      intro H. injection H as <-. now split.
    + destruct (mem first Object_prototype) eqn:M; cbn [jsval_truthy].
      * discriminate.
      * rewrite Hnonempty. intro H. injection H as <-.
        split; [exact Hnonempty | exact Hcanonical].
Qed.

(** X13: A brand that one of the two normalizers returns is a string, is not
    empty, is the value [extractBrand] found, and is left as it is by
    another [canonicalizeBrand]. *)
Theorem normalizer_brand_is_canonical (r : row) (brand : jsval) :
  normalize365Record_brand r = Return (Some brand) \/
  normalizeHahaRecord_brand r = Return (Some brand) ->
  exists x,
    brand = Str x /\ nonempty x = true /\
    (extractBrand (rawName_of "PRDNAME" r) = Some brand \/
     extractBrand (rawName_of "product_name" r) = Some brand) /\
    canonicalizeBrand (Some brand) = Return (Some brand).
Proof.
  assert (G : forall rawName,
    canonicalizeBrand (extractBrand rawName) = Return (Some brand) ->
    exists x, brand = Str x /\ nonempty x = true /\
              extractBrand rawName = Some brand /\
              canonicalizeBrand (Some brand) = Return (Some brand)).
  { intros rawName H.
    destruct (extractBrand rawName) as [[x|member]|] eqn:E; try discriminate.
    destruct (extractBrand_string _ _ E) as [Hne Hfix].
    cbn [canonicalizeBrand] in H. rewrite Hfix in H. injection H as <-.
    exists x. cbn [canonicalizeBrand]. rewrite Hfix. auto. }
  unfold normalize365Record_brand, normalizeHahaRecord_brand.
  intros [H|H]; destruct (G _ H) as (x & Hx & Hne & He & Hc);
    exists x; auto.
Qed.

Lemma normalizer_brand_is_canonical_witness :
  exists x,
    Str "coca cola" = Str x /\ nonempty x = true /\
    (extractBrand (rawName_of "PRDNAME" [("PRDNAME", "Coca Cola 20oz Can")]%string)
     = Some (Str "coca cola") \/
     extractBrand (rawName_of "product_name" [("PRDNAME", "Coca Cola 20oz Can")]%string)
     = Some (Str "coca cola")) /\
    canonicalizeBrand (Some (Str "coca cola")) = Return (Some (Str "coca cola")).
Proof.
  apply (normalizer_brand_is_canonical
           [("PRDNAME", "Coca Cola 20oz Can")]%string (Str "coca cola")).
  left. vm_compute. reflexivity.
Defined.

(** X14: Two brands that the normalizers returned score 1 when they are the
    same string and 0 otherwise: the 0.7 of [scoreBrand], for distinct
    strings with one canonical form, is not reached. *)
Theorem normalized_brands_score_one_or_zero (r r' : row) (x y : string) :
  normalize365Record_brand r = Return (Some (Str x)) ->
  normalizeHahaRecord_brand r' = Return (Some (Str y)) ->
  scoreBrand (Some x) (Some y) = if String.eqb x y then num_1 else num_0.
Proof.
  intros Hx Hy.
  assert (G : forall rawName z,
    canonicalizeBrand (extractBrand rawName) = Return (Some (Str z)) ->
    nonempty z = true /\ canonicalizeBrand_string z = Some (Str z)).
  { intros rawName z H.
    destruct (extractBrand rawName) as [[s|member]|] eqn:E; try discriminate.
    destruct (extractBrand_string _ _ E) as [Hne Hfix].
    cbn [canonicalizeBrand] in H. rewrite Hfix in H. injection H as <-. auto. }
  destruct (G _ _ Hx) as [Nx Fx]. destruct (G _ _ Hy) as [Ny Fy].
  unfold scoreBrand. cbn [present]. rewrite Nx, Ny. cbn [negb andb orb].
  destruct (String.eqb x y) eqn:E; [reflexivity|].
  rewrite Fx, Fy. cbn [option_jsval_eqb jsval_eqb]. now rewrite E.
Qed.

Lemma normalized_brands_score_one_or_zero_witness :
  scoreBrand (Some "coca cola"%string) (Some "pepsi"%string)
  = if String.eqb "coca cola" "pepsi" then num_1 else num_0.
Proof.
  apply (normalized_brands_score_one_or_zero
           [("PRDNAME", "Coca Cola 20oz Can")]%string
           [("product_name", "Pepsi Cola 12 oz")]%string);
    vm_compute; reflexivity.
Defined.

(** ** Tokens *)

(** X15: A token that [tokenize] returns is a string that is neither empty nor
    a stop word, or a member of [Object.prototype] that a word of the name
    happens to name. *)
Theorem tokens_are_words (value : string) (token : jsval) :
  In token (tokenize value) ->
  match token with
  | Str s => nonempty s = true /\ mem s STOP_WORDS = false
  | Inherited member => mem member Object_prototype = true
  end.
Proof.
  unfold tokenize. destruct (negb (nonempty value)); [intros []|].
  intro H. apply in_map_iff in H as (word & <- & Hword).
  apply filter_In in Hword as [_ Hkeep].
  apply andb_true_iff in Hkeep as [Hne Hstop]. apply negb_true_iff in Hstop.
  unfold canonicalizeToken, BRAND_SYNONYMS_get.
  destruct (assoc word BRAND_SYNONYMS) as [v|] eqn:E.
  - destruct (table_values word v (assoc_In _ _ _ E)) as (Hv & Hvstop & _).
    cbn [jsval_truthy]. rewrite Hv. auto.
  - destruct (mem word Object_prototype) eqn:M; cbn [jsval_truthy]; auto.
Qed.

Lemma tokens_are_words_witness :
  nonempty "coca cola" = true /\ mem "coca cola" STOP_WORDS = false.
Proof.
  apply (tokens_are_words "the coke can" (Str "coca cola")).
  vm_compute. left. reflexivity.
Defined.

(** ** Categories *)

Lemma toLowerCase_idempotent (s : string) : toLowerCase (toLowerCase s) = toLowerCase s.
Proof.
  unfold toLowerCase. induction s as [|c rest IH]; simpl; [reflexivity|].
  now rewrite lower_char_idempotent, IH.
Qed.

Lemma toLowerCase_nonempty (s : string) : nonempty (toLowerCase s) = nonempty s.
Proof. destruct s; reflexivity. Qed.

(** X16: [canonicalizeCategory] is idempotent. *)
Theorem canonicalizeCategory_idempotent (value : option string) :
  canonicalizeCategory (canonicalizeCategory value) = canonicalizeCategory value.
Proof.
  destruct value as [v|]; [|reflexivity].
  remember (canonicalizeCategory (Some v)) as c eqn:Ec.
  unfold canonicalizeCategory in Ec.
  destruct (negb (nonempty v)) eqn:Ev; [now subst c|].
  destruct (includes (toLowerCase v) "soda" || includes (toLowerCase v) "cola")
    eqn:E1; [subst c; vm_compute; reflexivity|].
  destruct (includes (toLowerCase v) "water") eqn:E2; [subst c; vm_compute; reflexivity|].
  destruct (includes (toLowerCase v) "energy") eqn:E3; [subst c; vm_compute; reflexivity|].
  destruct (includes (toLowerCase v) "chips") eqn:E4; [subst c; vm_compute; reflexivity|].
  destruct (includes (toLowerCase v) "candy" || includes (toLowerCase v) "chocolate")
    eqn:E5; [subst c; vm_compute; reflexivity|].
  subst c. unfold canonicalizeCategory.
  rewrite toLowerCase_nonempty, Ev, toLowerCase_idempotent, E1, E2, E3, E4, E5.
  reflexivity.
Qed.

(** ** The shape of a normalized name *)

Lemma space_is_space (c : ascii) : Ascii.eqb c space = true -> is_space c = true.
Proof. intro H. apply Ascii.eqb_eq in H. now subst. Qed.

Lemma all_chars_map_chars (p : ascii -> bool) (f : ascii -> ascii) (s : string) :
  (forall c, p (f c) = true) -> all_chars p (map_chars f s) = true.
Proof.
  intro H. induction s as [|c rest IH]; simpl; [reflexivity|]. now rewrite H, IH.
Qed.

Lemma all_chars_trimStart (p : ascii -> bool) (s : string) :
  all_chars p s = true -> all_chars p (trimStart s) = true.
Proof.
  induction s as [|c rest IH]; simpl; [trivial|].
  intro H. apply andb_true_iff in H as [Hc Hrest].
  destruct (is_space c); [auto | simpl; now rewrite Hc, Hrest].
Qed.

Lemma all_chars_trimEnd (p : ascii -> bool) (s : string) :
  all_chars p s = true -> all_chars p (trimEnd s) = true.
Proof.
  induction s as [|c rest IH]; simpl; [trivial|].
  intro H. apply andb_true_iff in H as [Hc Hrest]. specialize (IH Hrest).
  destruct (trimEnd rest) as [|d kept].
  - destruct (is_space c); simpl; [reflexivity | now rewrite Hc].
  - cbn [all_chars] in *. now rewrite Hc, IH.
Qed.

Lemma all_chars_collapse_spaces (inside : bool) (s : string) :
  all_chars (fun c => is_lower c || is_digit c || is_space c) s = true ->
  all_chars name_char (collapse_spaces inside s) = true.
Proof.
  revert inside. induction s as [|c rest IH]; intros inside H; simpl; [reflexivity|].
  simpl in H. apply andb_true_iff in H as [Hc Hrest].
  destruct (is_space c) eqn:Esp.
  - destruct inside; simpl; auto.
  - simpl. rewrite (IH false Hrest), andb_true_r.
    unfold name_char. rewrite orb_false_r in Hc. now rewrite Hc.
Qed.

(** After a replaced run of white space the next character is no space. *)
Lemma collapse_spaces_head (s : string) (c : ascii) (rest : string) :
  collapse_spaces true s = String c rest -> Ascii.eqb c space = false.
Proof.
  induction s as [|d s' IH]; simpl; [discriminate|].
  destruct (is_space d) eqn:Esp; [exact IH|].
  intro H. injection H as <- _.
  destruct (Ascii.eqb d space) eqn:E; [|reflexivity].
  apply space_is_space in E. congruence.
Qed.

Lemma spaced_once_collapse_spaces (inside : bool) (s : string) :
  spaced_once (collapse_spaces inside s) = true.
Proof.
  revert inside. induction s as [|c rest IH]; intro inside; simpl; [reflexivity|].
  destruct (is_space c) eqn:Esp.
  - destruct inside; [apply IH|].
    cbn [spaced_once]. rewrite (IH true), andb_true_r.
    destruct (collapse_spaces true rest) as [|d tail] eqn:E; [reflexivity|].
    rewrite (collapse_spaces_head _ _ _ E). now rewrite andb_false_r.
  - cbn [spaced_once]. rewrite (IH false), andb_true_r.
    destruct (collapse_spaces false rest); [reflexivity|].
    destruct (Ascii.eqb c space) eqn:E; [|reflexivity].
    apply space_is_space in E. congruence.
Qed.

Lemma spaced_once_tail (c : ascii) (rest : string) :
  spaced_once (String c rest) = true -> spaced_once rest = true.
Proof. cbn [spaced_once]. intro H. now apply andb_true_iff in H as [_ H]. Qed.

Lemma spaced_once_trimStart (s : string) :
  spaced_once s = true -> spaced_once (trimStart s) = true.
Proof.
  induction s as [|c rest IH]; [trivial|].
  intro H. cbn [trimStart]. destruct (is_space c); [|exact H].
  apply IH. exact (spaced_once_tail _ _ H).
Qed.

(** What [trimEnd] keeps starts as the string does. *)
Lemma trimEnd_head (s : string) (d : ascii) (kept : string) :
  trimEnd s = String d kept -> exists rest, s = String d rest.
Proof.
  destruct s as [|c rest]; simpl; [discriminate|].
  destruct (trimEnd rest).
  - destruct (is_space c); [discriminate|]. intro H. injection H as <- _. eauto.
  - intro H. injection H as <- _. eauto.
Qed.

Lemma spaced_once_trimEnd (s : string) :
  spaced_once s = true -> spaced_once (trimEnd s) = true.
Proof.
  induction s as [|c rest IH]; [trivial|].
  intro H. pose proof (spaced_once_tail _ _ H) as Hrest. specialize (IH Hrest).
  cbn [trimEnd]. destruct (trimEnd rest) as [|d kept] eqn:E.
  - destruct (is_space c); reflexivity.
  - destruct (trimEnd_head _ _ _ E) as (rest' & ->).
    cbn [spaced_once] in H |- *. apply andb_true_iff in H as [Hhead _].
    rewrite Hhead. exact IH.
Qed.

Lemma trimEnd_idempotent (s : string) : trimEnd (trimEnd s) = trimEnd s.
Proof.
  induction s as [|c rest IH]; [reflexivity|].
  cbn [trimEnd]. destruct (trimEnd rest) as [|d kept] eqn:E.
  - destruct (is_space c) eqn:Esp; [reflexivity|]. cbn [trimEnd]. now rewrite Esp.
  - cbn [trimEnd]. cbn [trimEnd] in IH. now rewrite IH.
Qed.

Lemma trimStart_head (s : string) :
  match trimStart s with
  | EmptyString => True
  | String c _ => is_space c = false
  end.
Proof.
  induction s as [|c rest IH]; simpl; [exact I|].
  destruct (is_space c) eqn:E; [exact IH | exact E].
Qed.

Lemma trim_idempotent (s : string) : trim (trim s) = trim s.
Proof.
  unfold trim. pose proof (trimStart_head s) as H.
  destruct (trimStart s) as [|c rest]; [reflexivity|].
  assert (Hkeep : exists tail, trimEnd (String c rest) = String c tail).
  { cbn [trimEnd]. destruct (trimEnd rest); [rewrite H|]; eauto. }
  destruct Hkeep as (tail & E).
  rewrite E at 1. cbn [trimStart]. rewrite H, <- E.
  apply trimEnd_idempotent.
Qed.

(** X17: Whatever the input, [normalizeName] returns a string of lower-case
    letters, digits and single spaces, with no space at either end. *)
Theorem normalizeName_shape (value : string) :
  all_chars name_char (normalizeName value) = true /\
  spaced_once (normalizeName value) = true /\
  trim (normalizeName value) = normalizeName value.
Proof.
  unfold normalizeName. split; [|split].
  - unfold trim. apply all_chars_trimEnd, all_chars_trimStart.
    apply all_chars_collapse_spaces, all_chars_map_chars.
    intro c. unfold keep_alnum_space.
    destruct (is_lower c || is_digit c || is_space c) eqn:E; [exact E | reflexivity].
  - unfold trim. apply spaced_once_trimEnd, spaced_once_trimStart.
    apply spaced_once_collapse_spaces.
  - apply trim_idempotent.
Qed.

(** ** Sizes and prices read from text *)

Lemma digits_value_nonneg (s : string) (acc : Z) :
  (0 <= acc)%Z -> (0 <= digits_value acc s)%Z.
Proof.
  revert acc. induction s as [|c rest IH]; intros acc H; cbn [digits_value];
    [exact H|].
  apply IH. lia.
Qed.

Lemma parseFloat_decimal_range (whole fraction : string) :
  notNegative (parseFloat_decimal whole fraction).
Proof.
  unfold parseFloat_decimal.
  set (scale := (10 ^ Z.of_nat (String.length fraction))%Z).
  set (numerator := (digits_value 0 whole * scale + digits_value 0 fraction)%Z).
  destruct (2 ^ 1024 - 2 ^ 970 <=? numerator / scale)%Z; [reflexivity|].
  cbn [notNegative]. unfold Qle. cbn [Qnum Qden].
  assert (0 <= digits_value 0 whole)%Z by (apply digits_value_nonneg; lia).
  assert (0 <= digits_value 0 fraction)%Z by (apply digits_value_nonneg; lia).
  assert (0 < scale)%Z by (apply Z.pow_pos_nonneg; lia).
  nia.
Qed.

Lemma is_digit_value (c : ascii) :
  is_digit c = true -> (Z.of_nat (code c - 48) <= 9)%Z.
Proof.
  unfold is_digit, between. intro H. apply andb_true_iff in H as [H1 H2].
  apply Nat.leb_le in H1, H2. lia.
Qed.

(** A string of [n] digits reads as a number below [10^n]. *)
Lemma digits_value_bound (s : string) (acc : Z) :
  all_chars is_digit s = true -> (0 <= acc)%Z ->
  (digits_value acc s < (acc + 1) * 10 ^ Z.of_nat (String.length s))%Z.
Proof.
  revert acc. induction s as [|c rest IH]; intros acc Hall Hacc.
  - simpl. lia.
  - cbn [all_chars] in Hall. apply andb_true_iff in Hall as [Hc Hrest].
    apply is_digit_value in Hc.
    cbn [digits_value String.length].
    assert (Hstep : (0 <= 10 * acc + Z.of_nat (code c - 48))%Z) by lia.
    specialize (IH _ Hrest Hstep).
    rewrite Nat2Z.inj_succ, Z.pow_succ_r by lia.
    assert (Hpow : (0 < 10 ^ Z.of_nat (String.length rest))%Z)
      by (apply Z.pow_pos_nonneg; lia).
    nia.
Qed.

Lemma take_span_digits (s : string) :
  all_chars is_digit (take (span_length is_digit s) s) = true.
Proof.
  induction s as [|c rest IH]; simpl; [reflexivity|].
  destruct (is_digit c) eqn:E; simpl; [now rewrite E | reflexivity].
Qed.

Lemma take_length (n : nat) (s : string) :
  (String.length (take n s) <= String.length s)%nat.
Proof.
  revert s. induction n as [|k IH]; intros [|c rest]; simpl; try lia.
  specialize (IH rest). lia.
Qed.

(** The digits of at most 308 characters read as a finite number. *)
Lemma parseFloat_decimal_finite (whole fraction : string) :
  all_chars is_digit whole = true -> all_chars is_digit fraction = true ->
  (String.length whole <= 308)%nat ->
  finite (parseFloat_decimal whole fraction) = true.
Proof.
  intros Hwhole Hfraction Hlen. unfold parseFloat_decimal.
  set (scale := (10 ^ Z.of_nat (String.length fraction))%Z).
  set (W := digits_value 0 whole). set (F := digits_value 0 fraction).
  assert (Hscale : (0 < scale)%Z) by (apply Z.pow_pos_nonneg; lia).
  assert (HF : (F < scale)%Z).
  { pose proof (digits_value_bound fraction 0 Hfraction (Z.le_refl 0)) as B.
    fold F in B. unfold scale. lia. }
  assert (HW : (W < 10 ^ Z.of_nat (String.length whole))%Z).
  { pose proof (digits_value_bound whole 0 Hwhole (Z.le_refl 0)) as B.
    fold W in B. lia. }
  assert (Hpow : (10 ^ Z.of_nat (String.length whole) <= 10 ^ 308)%Z)
    by (apply Z.pow_le_mono_r; lia).
  assert (Hdiv : ((W * scale + F) / scale < W + 1)%Z)
    by (apply Z.div_lt_upper_bound; nia).
  assert (Hmax : (10 ^ 308 < 2 ^ 1024 - 2 ^ 970)%Z)
    by (apply Z.ltb_lt; vm_compute; reflexivity).
  destruct (2 ^ 1024 - 2 ^ 970 <=? (W * scale + F) / scale)%Z eqn:E;
    [|reflexivity].
  apply Z.leb_le in E. lia.
Qed.

Lemma match_size_value (s : string) (value : number) (unit : SizeUnit) :
  match_size s = Some (value, unit) ->
  notNegative value /\
  ((String.length s <= 308)%nat -> finite value = true).
Proof.
  unfold match_size.
  destruct (span_length is_digit s =? 0)%nat; [discriminate|].
  destruct (match_unit _); [|discriminate].
  intro H. injection H as <- _. split; [apply parseFloat_decimal_range|].
  intro Hlen. apply parseFloat_decimal_finite.
  - apply take_span_digits.
  - destruct (drop (span_length is_digit s) s) as [|c r]; [reflexivity|].
    destruct (Ascii.eqb c "."%char); [|reflexivity].
    cbn [drop]. apply take_span_digits.
  - pose proof (take_length (span_length is_digit s) s). lia.
Qed.

Lemma find_size_value (s : string) (value : number) (unit : SizeUnit) :
  find_size s = Some (value, unit) ->
  notNegative value /\
  ((String.length s <= 308)%nat -> finite value = true).
Proof.
  induction s as [|c rest IH].
  - cbn [find_size]. destruct (match_size EmptyString) eqn:E; [|discriminate].
    intro H. injection H as ->. now apply match_size_value in E.
  - cbn [find_size]. destruct (match_size (String c rest)) as [found|] eqn:E.
    + intro H. injection H as ->. now apply match_size_value in E.
    + intro H. destruct (IH H) as [Hrange Hfinite].
      split; [exact Hrange|]. intro Hlen. apply Hfinite.
      cbn [String.length] in Hlen. lia.
Qed.

(** X18: A size that [parseSize] reads out of a name is never [NaN] and never
    negative; it is [Infinity] only for a name of more than 308 characters. *)
Theorem parsed_size_is_not_negative (rawName : string) (sizeOz : number) :
  parseSize_sizeOz rawName = Some sizeOz ->
  notNegative sizeOz /\
  ((String.length rawName <= 308)%nat -> finite sizeOz = true).
Proof.
  unfold parseSize_sizeOz.
  destruct (find_size rawName) as [[value unit]|] eqn:E; [|discriminate].
  apply find_size_value in E as [Hrange Hfinite].
  intro H. injection H as <-.
  destruct value as [|negative|q]; cbn [notNegative] in Hrange;
    [contradiction| |].
  - subst negative. split; [destruct unit; reflexivity|].
    intro Hlen. now specialize (Hfinite Hlen).
  - split; [|destruct unit; reflexivity].
    destruct unit; cbn [mul div notNegative]; [exact Hrange | |].
    + nra.
    + change (Qzero (283495 # 10000)) with false. cbn iota. cbn [notNegative].
      apply Qle_shift_div_l; [reflexivity | lra].
Qed.

Lemma parsed_size_is_not_negative_witness :
  notNegative (Finite (338140 # 1000000)%Q) /\
  ((String.length "Water 10 ml" <= 308)%nat ->
   finite (Finite (338140 # 1000000)%Q) = true).
Proof.
  apply (parsed_size_is_not_negative "Water 10 ml").
  vm_compute. reflexivity.
Defined.

Lemma startsWith_minus (s : string) :
  all_chars (fun c => negb (Ascii.eqb c "-"%char)) s = true ->
  startsWith "-" s = false.
Proof.
  destruct s as [|c rest]; [reflexivity|].
  cbn [all_chars]. intro H. apply andb_true_iff in H as [Hc _].
  apply negb_true_iff in Hc. unfold startsWith. cbn [strip_prefix].
  rewrite Ascii.eqb_sym. now rewrite Hc.
Qed.

Lemma all_chars_keep_chars (p q : ascii -> bool) (s : string) :
  all_chars p s = true -> all_chars p (keep_chars q s) = true.
Proof.
  induction s as [|c rest IH]; simpl; [trivial|].
  intro H. apply andb_true_iff in H as [Hc Hrest].
  destruct (q c); simpl; [rewrite Hc|]; auto.
Qed.

Lemma parseNumber_range (value : string) (parsed : number) :
  parseNumber (Some value) = Some parsed ->
  isNaN parsed = false /\
  (all_chars (fun c => negb (Ascii.eqb c "-"%char)) value = true ->
   notNegative parsed).
Proof.
  unfold parseNumber. destruct (negb (nonempty value)); [discriminate|].
  destruct (isNaN (parseFloat_sanitized (keep_chars is_numeric_char value)))
    eqn:Enan; [discriminate|].
  intro H. injection H as <-. split; [exact Enan|].
  intro Hminus.
  pose proof (startsWith_minus _ (all_chars_keep_chars _ is_numeric_char _ Hminus))
    as Hsign.
  unfold parseFloat_sanitized in *. rewrite Hsign in *.
  destruct (_ && _); [discriminate|]. apply parseFloat_decimal_range.
Qed.

(** X19: A number that [parseNumber] returns is never [NaN], and it is neither
    negative nor [-Infinity] when the text has no minus sign. *)
Theorem parsed_number_is_not_negative (value : string) (parsed : number) :
  parseNumber (Some value) = Some parsed ->
  isNaN parsed = false /\
  (all_chars (fun c => negb (Ascii.eqb c "-"%char)) value = true ->
   notNegative parsed).
Proof.
  intro H. exact (parseNumber_range value parsed H).
Qed.

Lemma parsed_number_is_not_negative_witness :
  isNaN (Finite (123450 # 100)%Q) = false /\
  (all_chars (fun c => negb (Ascii.eqb c "-"%char)) "$1,234.50" = true ->
   notNegative (Finite (123450 # 100)%Q)).
Proof.
  apply (parsed_number_is_not_negative "$1,234.50").
  vm_compute. reflexivity.
Defined.

(** Prices of -1 and -3 score 5: the range of the price score needs prices
    that are not negative. *)
Example negative_prices_score_five :
  parseNumber (Some "-1.00"%string) = Some (Finite (- 100 # 100)%Q) /\
  parseNumber (Some "-3.00"%string) = Some (Finite (- 300 # 100)%Q) /\
  same (scoreNumericSimilarity (parseNumber (Some "-1.00"%string))
          (parseNumber (Some "-3.00"%string)) num_0_25)
       (Finite 5).
Proof.
  vm_compute. repeat split.
Qed.

(** X20: Where no column of two rows holds a minus sign, the price score of
    the prices the normalizers read from them lies in [[0,1]]. *)
Theorem prices_without_minus_score_in_unit_interval (r r' : row) :
  (forall field text, In (field, text) r ->
     all_chars (fun c => negb (Ascii.eqb c "-"%char)) text = true) ->
  (forall field text, In (field, text) r' ->
     all_chars (fun c => negb (Ascii.eqb c "-"%char)) text = true) ->
  in_unit_interval
    (scoreNumericSimilarity (normalize365Record_price r)
       (normalizeHahaRecord_price r') num_0_25) = true.
Proof.
  assert (G : forall primary fallback (t : row),
    (forall field text, In (field, text) t ->
       all_chars (fun c => negb (Ascii.eqb c "-"%char)) text = true) ->
    match parseNumber (first_defined primary fallback t) with
    | Some (Finite q) => negb (Qnegative q)
    | _ => true
    end = true).
  { intros primary fallback t Hminus.
    destruct (parseNumber (first_defined primary fallback t)) as [[| |q]|] eqn:E;
      try reflexivity.
    assert (Hfield : exists field text,
              first_defined primary fallback t = Some text /\ In (field, text) t).
    { unfold first_defined in *.
      destruct (assoc primary t) as [text|] eqn:E1.
      - exists primary, text. split; [reflexivity | now apply assoc_In].
      - destruct (assoc fallback t) as [text|] eqn:E2; [|discriminate].
        exists fallback, text. split; [reflexivity | now apply assoc_In]. }
    destruct Hfield as (field & text & Etext & Hin).
    rewrite Etext in E.
    destruct (parseNumber_range _ _ E) as [_ Hrange].
    specialize (Hrange (Hminus _ _ Hin)). cbn [notNegative] in Hrange.
    apply negb_true_iff. destruct (Qnegative q) eqn:N; [|reflexivity].
    apply Qnegative_true in N. lra. }
  intros Hr Hr'. unfold normalize365Record_price, normalizeHahaRecord_price.
  apply scoreNumericSimilarity_unit; apply G; assumption.
Qed.

Lemma prices_without_minus_score_in_unit_interval_witness :
  in_unit_interval
    (scoreNumericSimilarity
       (normalize365Record_price [("PRICE", "$2.49")]%string)
       (normalizeHahaRecord_price [("price_unit", "2.59")]%string) num_0_25) = true.
Proof.
  apply (prices_without_minus_score_in_unit_interval
           [("PRICE", "$2.49")]%string [("price_unit", "2.59")]%string);
    intros field text [E|[]]; injection E as <- <-; reflexivity.
Defined.

(** ** Thresholds that are not numbers *)

Lemma ltb_NaN (x : number) : (x <? NaN) = false.
Proof. destruct x as [|[]|q]; reflexivity. Qed.

Lemma fold_consider_some (resolved : MatchOptions) (a : NormalizedProduct)
  (productsB : list NormalizedProduct) (current : bestMatch) :
  exists best, fold_left (consider resolved a) productsB (Some current) = Some best.
Proof.
  revert current. induction productsB as [|b rest IH]; intro current; simpl.
  - now exists current.
  - unfold consider at 2. destruct (_ <? _); [apply IH|].
    destruct (_ >? _); apply IH.
Qed.

Lemma scan_without_floor (resolved : MatchOptions) (a : NormalizedProduct)
  (productsB : list NormalizedProduct) :
  reviewThreshold resolved = NaN -> productsB <> [] ->
  exists best, scan resolved a productsB = Some best.
Proof.
  intros Hreview Hne. destruct productsB as [|b rest]; [congruence|].
  unfold scan. cbn [fold_left]. unfold consider at 2.
  rewrite Hreview. cbn [mul]. rewrite ltb_NaN. apply fold_consider_some.
Qed.

(** X21: [matchProducts] accepts a threshold that is [NaN].  With such a review
    threshold and a B list that is not empty, no A entity is left unmatched:
    each one gets a record, in input order.  With such an auto-accept
    threshold no record is [auto]. *)
Theorem NaN_thresholds_are_accepted (productsA productsB : list NormalizedProduct)
  (options : Partial.MatchOptions) :
  (reviewThreshold (resolveOptions options) = NaN -> productsB <> [] ->
   exists result,
     matchProducts productsA productsB options = Return result /\
     unmatchedA result = [] /\
     map productA (matches result) = map summarizeProduct productsA) /\
  (autoAcceptThreshold (resolveOptions options) = NaN ->
   exists result,
     matchProducts productsA productsB options = Return result /\
     forall m, In m (matches result) -> decision m = review).
Proof.
  set (resolved := resolveOptions options). split.
  - intros Hreview Hne.
    assert (Hvalid : (reviewThreshold resolved >? autoAcceptThreshold resolved)
                     = false).
    { rewrite Hreview. unfold gtb. destruct (autoAcceptThreshold resolved) as [|[]|q];
        reflexivity. }
    destruct (matchProducts_accepts productsA productsB options Hvalid)
      as [result Hret].
    exists result. split; [exact Hret|].
    assert (Hnone : forall a,
              belowReview resolved (scan resolved a productsB) = false).
    { intro a. destruct (scan_without_floor resolved a productsB Hreview Hne)
        as [best ->].
      unfold belowReview. rewrite Hreview. apply ltb_NaN. }
    split.
    + rewrite (unmatchedA_of_result _ _ _ _ Hret). fold resolved.
      replace (filter _ productsA) with (@nil NormalizedProduct); [reflexivity|].
      symmetry. clear - Hnone. induction productsA as [|a rest IH]; [reflexivity|].
      simpl. now rewrite Hnone.
    + rewrite (matches_of_result _ _ _ _ Hret). fold resolved.
      rewrite recordsFor_productA. f_equal. apply filter_all.
      intros a _. now rewrite Hnone.
  - intro Hauto.
    assert (Hvalid : (reviewThreshold resolved >? autoAcceptThreshold resolved)
                     = false).
    { rewrite Hauto. unfold gtb. reflexivity. }
    destruct (matchProducts_accepts productsA productsB options Hvalid)
      as [result Hret].
    exists result. split; [exact Hret|].
    intros m Hm.
    destruct (record_origin _ _ _ _ _ Hret Hm) as (a & best & _ & _ & _ & ->).
    unfold recordOf. cbn [decision]. fold resolved. rewrite Hauto.
    unfold geb. destruct (Best.confidence best) as [|[]|q]; reflexivity.
Qed.

Lemma NaN_thresholds_are_accepted_witness :
  exists result,
    matchProducts [dasani; appleJuice] [coke] reviewNaN = Return result /\
    unmatchedA result = [] /\
    map productA (matches result) = map summarizeProduct [dasani; appleJuice].
Proof.
  apply (NaN_thresholds_are_accepted [dasani; appleJuice] [coke] reviewNaN);
    [reflexivity | discriminate].
Defined.

(** ** Scoring in both directions *)

(** The token score does not depend on the direction when neither side
    repeats a token. *)
Lemma scoreNameTokens_sym (tokensA tokensB : list jsval) :
  NoDup tokensA -> NoDup tokensB ->
  scoreNameTokens tokensA tokensB = scoreNameTokens tokensB tokensA.
Proof.
  intros NA NB. unfold scoreNameTokens.
  rewrite (orb_comm (List.length tokensA =? 0)%nat).
  destruct (_ || _); [reflexivity|].
  assert (Hunion : List.length (Set_of (tokensA ++ tokensB))
                   = List.length (Set_of (tokensB ++ tokensA))).
  { apply Permutation_length, NoDup_Permutation; try apply Set_of_NoDup.
    intro x. rewrite !Set_of_elements, !in_app_iff. tauto. }
  assert (Hinter : List.length (filter (Set_has (Set_of tokensB)) tokensA)
                   = List.length (filter (Set_has (Set_of tokensA)) tokensB)).
  { apply Permutation_length, NoDup_Permutation; try now apply NoDup_filter.
    intro x. rewrite !filter_In, !Set_has_In, !Set_of_elements. tauto. }
  now rewrite Hunion, Hinter.
Qed.

Lemma Map_get_set (counts : list (string * nat)) (key : string) (n : nat)
  (other : string) :
  Map_get (Map_set counts key n) other
  = if String.eqb key other then Some n else Map_get counts other.
Proof.
  induction counts as [|[k m] rest IH]; simpl.
  - reflexivity.
  - destruct (String.eqb k key) eqn:E; simpl.
    + apply String.eqb_eq in E. subst k.
      destruct (String.eqb key other); reflexivity.
    + rewrite IH. destruct (String.eqb k other) eqn:E1; [|reflexivity].
      destruct (String.eqb key other) eqn:E2; [|reflexivity].
      apply String.eqb_eq in E1, E2. subst. rewrite String.eqb_refl in E.
      discriminate.
Qed.

(** The count that [countOccurrences] holds for a gram is the number of its
    occurrences; a gram that does not occur has no entry. *)
Lemma countOccurrences_get (values : list string) (key : string) :
  Map_get (countOccurrences values) key
  = if (count_occ string_dec values key =? 0)%nat then None
    else Some (count_occ string_dec values key).
Proof.
  unfold countOccurrences.
  assert (G : forall counts,
    Map_get
      (fold_left
         (fun counts value =>
            Map_set counts value
              (match Map_get counts value with Some n => n | None => 0 end + 1)%nat)
         values counts) key
    = match Map_get counts key with
      | Some n => Some (n + count_occ string_dec values key)%nat
      | None =>
          if (count_occ string_dec values key =? 0)%nat then None
          else Some (count_occ string_dec values key)
      end).
  { induction values as [|v rest IH]; intro counts.
    - simpl. destruct (Map_get counts key); [f_equal; lia | reflexivity].
    - cbn [fold_left]. rewrite IH, Map_get_set. cbn [count_occ].
      destruct (string_dec v key) as [->|Hne].
      + rewrite String.eqb_refl.
        destruct (Map_get counts key); cbn [Nat.eqb]; f_equal; lia.
      + apply String.eqb_neq in Hne. rewrite Hne. reflexivity. }
  exact (G []).
Qed.

Lemma countOccurrences_keys (values : list string) (key : string) :
  In key (map fst (countOccurrences values)) <-> In key values.
Proof.
  pose proof (Map_get_None (countOccurrences values) key) as H.
  rewrite countOccurrences_get in H.
  pose proof (count_occ_In string_dec values key) as C.
  destruct (count_occ string_dec values key =? 0)%nat eqn:E.
  - apply Nat.eqb_eq in E. split.
    + intro Hin. exfalso. now apply (proj1 H).
    + intro Hin. apply C in Hin. lia.
  - apply Nat.eqb_neq in E. split.
    + intros _. apply C. lia.
    + intros _. destruct (in_dec string_dec key (map fst (countOccurrences values)))
        as [Hin|Hout]; [exact Hin|].
      apply (proj2 H) in Hout. discriminate.
Qed.

(** The shared-bigram count, as a sum over the distinct grams of one side. *)
Lemma intersection_sum (gramsA gramsB : list string) :
  fold_left
    (fun acc entry =>
       match Map_get (countOccurrences gramsB) (fst entry) with
       | Some countB =>
           if (countB =? 0)%nat then acc
           else (acc + Nat.min (snd entry) countB)%nat
       | None => acc
       end)
    (countOccurrences gramsA) 0%nat
  = list_sum
      (map (fun key => Nat.min (count_occ string_dec gramsA key)
                         (count_occ string_dec gramsB key))
         (map fst (countOccurrences gramsA))).
Proof.
  destruct (countOccurrences_counts gramsA) as (N & _ & _).
  assert (Hentry : forall entry, In entry (countOccurrences gramsA) ->
            snd entry = count_occ string_dec gramsA (fst entry)).
  { intros [k n] Hin. cbn [fst snd].
    pose proof (Map_get_In _ k n N Hin) as G.
    rewrite countOccurrences_get in G.
    destruct (_ =? _)%nat; [discriminate | now injection G]. }
  revert Hentry. generalize (countOccurrences gramsA) as entries.
  assert (G : forall entries acc,
    (forall entry, In entry entries ->
       snd entry = count_occ string_dec gramsA (fst entry)) ->
    fold_left
      (fun acc entry =>
         match Map_get (countOccurrences gramsB) (fst entry) with
         | Some countB =>
             if (countB =? 0)%nat then acc
             else (acc + Nat.min (snd entry) countB)%nat
         | None => acc
         end)
      entries acc
    = (acc +
       list_sum
         (map (fun key => Nat.min (count_occ string_dec gramsA key)
                            (count_occ string_dec gramsB key))
            (map fst entries)))%nat).
  { induction entries as [|[k n] rest IH]; intros acc Hentry; simpl; [lia|].
    rewrite countOccurrences_get.
    pose proof (Hentry (k, n) (or_introl eq_refl)) as Hn. cbn [fst snd] in Hn.
    rewrite IH by (intros e He; apply Hentry; now right).
    destruct (count_occ string_dec gramsB k =? 0)%nat eqn:E.
    - apply Nat.eqb_eq in E. rewrite E, Nat.min_0_r. lia.
    - rewrite E, Hn. lia. }
  intros entries Hentry. now rewrite G.
Qed.

Lemma sum_over_filter (f : string -> nat) (p : string -> bool) (keys : list string) :
  (forall key, In key keys -> p key = false -> f key = 0%nat) ->
  list_sum (map f keys) = list_sum (map f (filter p keys)).
Proof.
  induction keys as [|k rest IH]; intro H; simpl; [reflexivity|].
  rewrite IH by (intros key Hkey; apply H; now right).
  destruct (p k) eqn:E; [reflexivity|].
  rewrite (H k (or_introl eq_refl) E). reflexivity.
Qed.

(** The bigram score does not depend on the direction. *)
Lemma scoreCharacterBigram_sym (a b : string) :
  scoreCharacterBigram a b = scoreCharacterBigram b a.
Proof.
  unfold scoreCharacterBigram.
  set (gramsA := buildBigrams a). set (gramsB := buildBigrams b).
  rewrite (orb_comm (List.length gramsA =? 0)%nat).
  destruct (_ || _); [reflexivity|].
  rewrite !intersection_sum, (Nat.add_comm (List.length gramsA)).
  do 3 f_equal.
  destruct (countOccurrences_counts gramsA) as (NA & _ & _).
  destruct (countOccurrences_counts gramsB) as (NB & _ & _).
  set (shared := fun key => Nat.min (count_occ string_dec gramsA key)
                              (count_occ string_dec gramsB key)).
  assert (Eflip :
    map (fun key => Nat.min (count_occ string_dec gramsB key)
                      (count_occ string_dec gramsA key))
      (map fst (countOccurrences gramsB))
    = map shared (map fst (countOccurrences gramsB))).
  { apply map_ext. intro key. apply Nat.min_comm. }
  rewrite Eflip.
  rewrite (sum_over_filter shared
             (fun key => negb (count_occ string_dec gramsB key =? 0)%nat)
             (map fst (countOccurrences gramsA))).
  2:{ intros key _ E. apply negb_false_iff, Nat.eqb_eq in E.
      unfold shared. rewrite E. apply Nat.min_0_r. }
  rewrite (sum_over_filter shared
             (fun key => negb (count_occ string_dec gramsA key =? 0)%nat)
             (map fst (countOccurrences gramsB))).
  2:{ intros key _ E. apply negb_false_iff, Nat.eqb_eq in E.
      unfold shared. rewrite E. apply Nat.min_0_l. }
  apply Permutation_list_sum, Permutation_map, NoDup_Permutation;
    try now apply NoDup_filter.
  intro key. rewrite !filter_In, !countOccurrences_keys, !negb_true_iff, !Nat.eqb_neq.
  rewrite (count_occ_In string_dec gramsA key), (count_occ_In string_dec gramsB key).
  lia.
Qed.

Lemma same_refl (x : number) : same x x.
Proof. destruct x as [|s|a]; simpl; [exact I | reflexivity | reflexivity]. Qed.

Lemma Qzero_same (a b : Q) : (a == b)%Q -> Qzero a = Qzero b.
Proof.
  intro H. destruct (Qzero a) eqn:Ea, (Qzero b) eqn:Eb; try reflexivity;
    reflect_Q; exfalso; [apply Eb | apply Ea]; lra.
Qed.

Lemma Qnegative_same (a b : Q) : (a == b)%Q -> Qnegative a = Qnegative b.
Proof.
  intro H. destruct (Qnegative a) eqn:Ea, (Qnegative b) eqn:Eb; try reflexivity.
  - apply Qnegative_true in Ea. assert (L : (b < 0)%Q) by lra.
    apply Qnegative_true in L. congruence.
  - apply Qnegative_true in Eb. assert (L : (a < 0)%Q) by lra.
    apply Qnegative_true in L. congruence.
Qed.

Lemma Qlt_bool_same (a b c d : Q) :
  (a == c)%Q -> (b == d)%Q -> Qlt_bool a b = Qlt_bool c d.
Proof.
  intros H1 H2. destruct (Qlt_bool a b) eqn:E, (Qlt_bool c d) eqn:E';
    try reflexivity; reflect_Q; exfalso; lra.
Qed.

Lemma Qle_bool_same (a b c d : Q) :
  (a == c)%Q -> (b == d)%Q -> Qle_bool a b = Qle_bool c d.
Proof.
  intros H1 H2. destruct (Qle_bool a b) eqn:E, (Qle_bool c d) eqn:E';
    try reflexivity; reflect_Q; exfalso; lra.
Qed.

Lemma Qeq_bool_same (a b c d : Q) :
  (a == c)%Q -> (b == d)%Q -> Qeq_bool a b = Qeq_bool c d.
Proof.
  intros H1 H2. destruct (Qeq_bool a b) eqn:E, (Qeq_bool c d) eqn:E';
    try reflexivity; reflect_Q; exfalso; [apply E' | apply E]; lra.
Qed.

(** Case analysis on numbers that are equal in value. *)
Ltac same_cases :=
  intros;
  repeat match goal with
  | x : number |- _ => destruct x as [|[]|?]
  end;
  simpl in *; try contradiction; try discriminate; try exact I; try reflexivity.

Lemma same_neg (x x' : number) : same x x' -> same (neg x) (neg x').
Proof. same_cases. lra. Qed.

Lemma same_add (x x' y y' : number) :
  same x x' -> same y y' -> same (x + y) (x' + y').
Proof. same_cases. lra. Qed.

Lemma same_sub (x x' y y' : number) :
  same x x' -> same y y' -> same (x - y) (x' - y').
Proof. intros Hx Hy. unfold sub. apply same_add; [exact Hx | now apply same_neg]. Qed.

Lemma same_mul (x x' y y' : number) :
  same x x' -> same y y' -> same (x * y) (x' * y').
Proof.
  same_cases;
    try match goal with
    | H : (?a == ?b)%Q |- context [Qzero ?a] =>
        rewrite (Qzero_same a b H), (Qnegative_same a b H);
        destruct (Qzero b); simpl; trivial
    end.
  match goal with
  | H1 : (_ == _)%Q, H2 : (_ == _)%Q |- _ => now rewrite H1, H2
  end.
Qed.

Lemma same_div (x x' y y' : number) :
  same x x' -> same y y' -> same (x / y) (x' / y').
Proof.
  same_cases;
    try match goal with
    | H : (?a == ?b)%Q |- context [Qnegative ?a] =>
        rewrite (Qnegative_same a b H); reflexivity
    end.
  match goal with
  | H1 : (?a == ?c)%Q, H2 : (?b == ?d)%Q |- context [Qzero ?b] =>
      rewrite (Qzero_same b d H2), (Qzero_same a c H1), (Qnegative_same a c H1);
      destruct (Qzero d); [destruct (Qzero c); simpl; trivial|];
      simpl; now rewrite H1, H2
  end.
Qed.

Lemma same_ltb (x x' y y' : number) :
  same x x' -> same y y' -> (x <? y) = (x' <? y').
Proof. same_cases. now apply Qlt_bool_same. Qed.

Lemma same_leb (x x' y y' : number) :
  same x x' -> same y y' -> (x <=? y) = (x' <=? y').
Proof. same_cases. now apply Qle_bool_same. Qed.

Lemma same_eqb (x x' y y' : number) :
  same x x' -> same y y' -> (x === y) = (x' === y').
Proof. same_cases. now apply Qeq_bool_same. Qed.

Lemma same_Math_max (x x' y y' : number) :
  same x x' -> same y y' -> same (Math_max x y) (Math_max x' y').
Proof.
  same_cases; try assumption.
  match goal with
  | H1 : (?a == ?c)%Q, H2 : (?b == ?d)%Q |- context [Qlt_bool ?a ?b] =>
      rewrite (Qlt_bool_same a b c d H1 H2); destruct (Qlt_bool c d); assumption
  end.
Qed.

Lemma same_Math_min (x x' y y' : number) :
  same x x' -> same y y' -> same (Math_min x y) (Math_min x' y').
Proof.
  same_cases; try assumption.
  match goal with
  | H1 : (?a == ?c)%Q, H2 : (?b == ?d)%Q |- context [Qlt_bool ?a ?b] =>
      rewrite (Qlt_bool_same a b c d H1 H2); destruct (Qlt_bool c d); assumption
  end.
Qed.

Lemma same_clamp (x x' : number) :
  same x x' -> same (clamp x num_0 num_1) (clamp x' num_0 num_1).
Proof.
  intro H. unfold clamp.
  apply same_Math_min; [apply same_refl|].
  apply same_Math_max; [apply same_refl | exact H].
Qed.

Lemma Math_abs_difference_sym (x y : number) :
  same (Math_abs (x - y)) (Math_abs (y - x)).
Proof.
  destruct x as [|[]|a], y as [|[]|b]; try (simpl; trivial; fail).
  cbn [Math_abs sub neg add same].
  change (Qabs (a - b) == Qabs (b - a))%Q. now rewrite Qabs_Qminus.
Qed.

Lemma Math_max_sym (x y : number) : same (Math_max x y) (Math_max y x).
Proof.
  destruct x as [|[]|a], y as [|[]|b]; simpl; trivial; try reflexivity.
  destruct (Qlt_bool a b) eqn:E, (Qlt_bool b a) eqn:E'; simpl; reflect_Q;
    try reflexivity; lra.
Qed.

Lemma add_sym (x y : number) : same (x + y) (y + x).
Proof.
  destruct x as [|[]|a], y as [|[]|b]; simpl; trivial; try reflexivity. lra.
Qed.

(** The size score does not depend on the direction. *)
Lemma scoreSize_sym (x y : option number) : same (scoreSize x y) (scoreSize y x).
Proof.
  destruct x as [x|], y as [y|]; try apply same_refl.
  unfold scoreSize. rewrite (orb_comm (negb (truthy x))).
  destruct (_ || _); [apply same_refl|].
  apply same_clamp, same_Math_max; [apply same_refl|].
  apply same_sub; [apply same_refl|].
  apply same_mul; [|apply same_refl].
  apply same_div; [apply Math_abs_difference_sym | apply Math_max_sym].
Qed.

(** The price score does not depend on the direction. *)
Lemma scoreNumericSimilarity_sym (x y : option number) (tolerance : number) :
  same (scoreNumericSimilarity x y tolerance) (scoreNumericSimilarity y x tolerance).
Proof.
  destruct x as [x|], y as [y|]; try apply same_refl.
  unfold scoreNumericSimilarity.
  rewrite (andb_comm (x === num_0)), (orb_comm (x === num_0)).
  destruct (_ && _); [apply same_refl|].
  destruct (_ || _); [apply same_refl|].
  assert (Havg : same ((x + y) / num_2) ((y + x) / num_2))
    by (apply same_div; [apply add_sym | apply same_refl]).
  rewrite (same_eqb _ _ _ _ Havg (same_refl num_0)).
  destruct (_ === _); [apply same_refl|].
  assert (Hratio : same (Math_abs (x - y) / ((x + y) / num_2))
                        (Math_abs (y - x) / ((y + x) / num_2)))
    by (apply same_div; [apply Math_abs_difference_sym | exact Havg]).
  rewrite (same_leb _ _ _ _ Hratio (same_refl tolerance)).
  destruct (_ <=? _); [|apply same_refl].
  apply same_sub; [apply same_refl|].
  apply same_div; [exact Hratio | apply same_refl].
Qed.

Lemma jsval_eqb_sym (v w : jsval) : jsval_eqb v w = jsval_eqb w v.
Proof. destruct v, w; simpl; try reflexivity; apply String.eqb_sym. Qed.

Lemma scoreSimple_sym :
  (forall a b, scoreUPC a b = scoreUPC b a) /\
  (forall x y, scoreBrand x y = scoreBrand y x) /\
  (forall x y, scoreCategory x y = scoreCategory y x) /\
  (forall x y, scoreDietPenalty x y = scoreDietPenalty y x).
Proof.
  repeat split.
  - intros a b. unfold scoreUPC.
    rewrite (orb_comm (negb (present (scancode a)))).
    destruct (_ || _); [reflexivity|].
    destruct (scancode a), (scancode b); try reflexivity.
    now rewrite String.eqb_sym.
  - intros x y. unfold scoreBrand.
    rewrite (andb_comm (negb (present x))), (orb_comm (negb (present x))).
    destruct (_ && _); [reflexivity|]. destruct (_ || _); [reflexivity|].
    destruct x as [x|], y as [y|]; try reflexivity.
    rewrite (String.eqb_sym x y). destruct (String.eqb y x); [reflexivity|].
    destruct (canonicalizeBrand_string x) as [v|],
             (canonicalizeBrand_string y) as [w|]; try reflexivity.
    simpl. now rewrite jsval_eqb_sym.
  - intros x y. unfold scoreCategory.
    rewrite (andb_comm (negb (present x))), (orb_comm (negb (present x))).
    destruct (_ && _); [reflexivity|]. destruct (_ || _); [reflexivity|].
    destruct (canonicalizeCategory x) as [u|], (canonicalizeCategory y) as [v|];
      try reflexivity.
    simpl. rewrite (String.eqb_sym u v). destruct (String.eqb v u); [reflexivity|].
    rewrite (andb_comm (nonempty u)), (String.eqb_sym (first_word u)).
    reflexivity.
  - intros [] []; reflexivity.
Qed.

Lemma computeFeatureScores_sym (a b : NormalizedProduct) :
  NoDup (tokens a) -> NoDup (tokens b) ->
  (forall attr,
     same (attributeScore (computeFeatureScores a b) attr)
          (attributeScore (computeFeatureScores b a) attr)) /\
  Scores.dietPenalty (computeFeatureScores a b)
  = Scores.dietPenalty (computeFeatureScores b a).
Proof.
  intros Na Nb.
  destruct scoreSimple_sym as (Hupc & Hbrand & Hcategory & Hdiet).
  split; [|apply Hdiet].
  intros []; cbn [attributeScore computeFeatureScores Scores.upc Scores.name
                  Scores.brand Scores.size Scores.category Scores.price].
  - rewrite Hupc. apply same_refl.
  - unfold scoreNameSimilarity.
    rewrite (scoreNameTokens_sym _ _ Na Nb), scoreCharacterBigram_sym.
    apply same_refl.
  - rewrite Hbrand. apply same_refl.
  - apply scoreSize_sym.
  - rewrite Hcategory. apply same_refl.
  - apply scoreNumericSimilarity_sym.
Qed.

Lemma total_same (f g : Attribute -> number) (attrs : list Attribute)
  (x y : number) :
  (forall attr, same (f attr) (g attr)) -> same x y ->
  same (fold_left add (map f attrs) x) (fold_left add (map g attrs) y).
Proof.
  intro H. revert x y. induction attrs as [|attr rest IH]; intros x y Hxy; simpl.
  - exact Hxy.
  - apply IH. now apply same_add.
Qed.

Lemma statedConfidence_same (available : Attribute -> bool)
  (s s' : FeatureScores) :
  (forall attr, same (attributeScore s attr) (attributeScore s' attr)) ->
  Scores.dietPenalty s = Scores.dietPenalty s' ->
  same (statedConfidence available s) (statedConfidence available s').
Proof.
  intros Hattrs Hdiet. unfold statedConfidence.
  destruct (filter available attributes) as [|attr attrs]; [apply same_refl|].
  apply same_clamp, same_sub; [|rewrite Hdiet; apply same_refl].
  unfold weightedAverage. apply same_div; [|apply same_refl].
  unfold total. apply total_same; [|apply same_refl].
  intro t. apply same_mul; [apply Hattrs | apply same_refl].
Qed.

(** X22: Where neither entity repeats a token, scoring a pair in either
    direction gives the same scores and the same confidence (as values). *)
Theorem confidence_is_symmetric (a b : NormalizedProduct) :
  NoDup (tokens a) -> NoDup (tokens b) ->
  (forall attr,
     same (attributeScore (computeFeatureScores a b) attr)
          (attributeScore (computeFeatureScores b a) attr)) /\
  Scores.dietPenalty (computeFeatureScores a b)
  = Scores.dietPenalty (computeFeatureScores b a) /\
  same (pairConfidence a b) (pairConfidence b a).
Proof.
  intros Na Nb.
  destruct (computeFeatureScores_sym a b Na Nb) as [Hattrs Hdiet].
  split; [exact Hattrs|]. split; [exact Hdiet|].
  unfold pairConfidence. rewrite !computeConfidence_stated.
  assert (Havailable : filter (availableTruthy a b) attributes
                       = filter (availableTruthy b a) attributes).
  { apply filter_ext. intros []; cbn [availableTruthy];
      try reflexivity; apply andb_comm. }
  unfold statedConfidence at 2. rewrite <- Havailable.
  fold (statedConfidence (availableTruthy a b) (computeFeatureScores b a)).
  now apply statedConfidence_same.
Qed.

Lemma confidence_is_symmetric_witness :
  same (pairConfidence cocaCola coke) (pairConfidence coke cocaCola).
Proof.
  apply (confidence_is_symmetric cocaCola coke);
    vm_compute; repeat constructor; simpl; intuition discriminate.
Defined.

(** With a repeated token the direction matters: "Pepsi Pepsi" against
    "Pepsi" has token score 2, "Pepsi" against "Pepsi Pepsi" has 1. *)
Example repeated_token_breaks_symmetry :
  same (scoreNameTokens (tokenize "pepsi pepsi") (tokenize "pepsi")) (Finite 2) /\
  same (scoreNameTokens (tokenize "pepsi") (tokenize "pepsi pepsi")) (Finite 1).
Proof.
  vm_compute. repeat split.
Qed.

(** ** A entities are matched one by one *)

Lemma mem_app (x : string) (l l' : list string) :
  mem x (l ++ l') = mem x l || mem x l'.
Proof. unfold mem. apply existsb_app. Qed.

(** X23: The A entities are matched independently of one another: the
    records and [unmatchedA] of [matchProducts] on a concatenation of two A
    lists are the concatenations of those on each list, and [unmatchedB]
    holds the B entities whose identifier neither run claims. *)
Theorem A_entities_are_matched_independently
  (productsA productsA' productsB : list NormalizedProduct)
  (options : Partial.MatchOptions) (result : MatchResult) :
  matchProducts (productsA ++ productsA') productsB options = Return result ->
  exists first second,
    matchProducts productsA productsB options = Return first /\
    matchProducts productsA' productsB options = Return second /\
    matches result = matches first ++ matches second /\
    unmatchedA result = unmatchedA first ++ unmatchedA second /\
    unmatchedB result
    = map summarizeProduct
        (filter
           (fun b => negb (mem (sourceId b) (map matchedBId (matches first)))
                     && negb (mem (sourceId b) (map matchedBId (matches second))))
           productsB).
Proof.
  intro H.
  destruct (matchProducts_returns _ _ _ _ H) as [Hvalid _].
  destruct (matchProducts_accepts productsA productsB options Hvalid)
    as [first Hfirst].
  destruct (matchProducts_accepts productsA' productsB options Hvalid)
    as [second Hsecond].
  exists first, second.
  split; [exact Hfirst|]. split; [exact Hsecond|].
  assert (HM : matches result = matches first ++ matches second).
  { rewrite (matches_of_result _ _ _ _ H), (matches_of_result _ _ _ _ Hfirst),
      (matches_of_result _ _ _ _ Hsecond).
    apply flat_map_app. }
  split; [exact HM|]. split.
  - rewrite (unmatchedA_of_result _ _ _ _ H), (unmatchedA_of_result _ _ _ _ Hfirst),
      (unmatchedA_of_result _ _ _ _ Hsecond).
    now rewrite filter_app, map_app.
  - rewrite (claimed_ids_of_result _ _ _ _ H), HM. f_equal.
    apply filter_ext. intro b. now rewrite map_app, mem_app, negb_orb.
Qed.

Lemma A_entities_are_matched_independently_witness :
  exists result first second,
    matchProducts ([cocaCola; dasani] ++ [cokeCan]) [coke; aquafina] defaults
    = Return result /\
    matchProducts [cocaCola; dasani] [coke; aquafina] defaults = Return first /\
    matchProducts [cokeCan] [coke; aquafina] defaults = Return second /\
    matches result = matches first ++ matches second.
Proof.
  assert (Hrun : exists result,
            matchProducts ([cocaCola; dasani] ++ [cokeCan]) [coke; aquafina] defaults
            = Return result) by (eexists; vm_compute; reflexivity).
  destruct Hrun as [result Hrun]. exists result.
  destruct (A_entities_are_matched_independently _ _ _ _ _ Hrun)
    as (first & second & H1 & H2 & HM & _).
  exists first, second. auto.
Defined.

(** ** More candidates *)

Lemma ltb_raised (c c' r : number) :
  (c <? r) = false -> (c <=? c') = true -> (c' <? r) = false.
Proof. destruct c as [|[]|x], c' as [|[]|y], r as [|[]|z]; by_cases. Qed.

(** Where every confidence is a number, an entity that has a candidate at
    or above the review threshold among some B entities has one among any
    larger collection of B entities. *)
Lemma belowReview_more_candidates (resolved : MatchOptions) (a : NormalizedProduct)
  (productsB productsB' : list NormalizedProduct) :
  (forall b, In b productsB' -> isNaN (pairConfidence a b) = false) ->
  incl productsB productsB' ->
  belowReview resolved (scan resolved a productsB') = true ->
  belowReview resolved (scan resolved a productsB) = true.
Proof.
  intros Hnum Hincl Hbelow.
  assert (Hnum0 : forall b, In b productsB -> isNaN (pairConfidence a b) = false)
    by (intros b Hb; apply Hnum, Hincl, Hb).
  pose proof (scan_firstMaximum resolved a productsB Hnum0) as F.
  pose proof (scan_firstMaximum resolved a productsB' Hnum) as F'.
  destruct (scan resolved a productsB) as [k|]; [|reflexivity].
  cbn [firstMaximum] in F. destruct F as (Econf & Hkept & before & after & E & _).
  assert (Hk : In (Best.product k) productsB').
  { apply Hincl. rewrite E. apply in_or_app. right. now left. }
  unfold belowReview in *.
  destruct (Best.confidence k <? reviewThreshold resolved) eqn:Ek; [reflexivity|].
  exfalso.
  destruct (scan resolved a productsB') as [k'|]; cbn [firstMaximum] in F'.
  - destruct F' as (Econf' & _ & before' & after' & E' & Hbefore & Hafter).
    assert (Hle : (Best.confidence k <=? Best.confidence k') = true).
    { rewrite Econf. rewrite E' in Hk.
      apply in_app_or in Hk as [Hk|[Hk|Hk]].
      - now apply ltb_leb, Hbefore.
      - rewrite <- Hk, <- Econf'.
        assert (Hn : isNaN (Best.confidence k') = false).
        { rewrite Econf'. apply Hnum. rewrite E'. apply in_or_app. right. now left. }
        destruct (Best.confidence k') as [|[]|q]; try discriminate; try reflexivity.
        simpl. apply Qle_bool_iff. lra.
      - now apply Hafter. }
    rewrite (ltb_raised _ _ _ Ek Hle) in Hbelow. discriminate.
  - specialize (F' _ Hk). rewrite <- Econf in F'. congruence.
Qed.

(** X24: Where no entity has an infinite size, offering more B candidates
    never leaves an A entity unmatched that was matched before: every entry
    of [unmatchedA] against the larger B list is an entry of [unmatchedA]
    against the smaller one. *)
Theorem more_candidates_keep_matches
  (productsA productsB productsB' : list NormalizedProduct)
  (options : Partial.MatchOptions) (result result' : MatchResult) :
  forallb sizeNotInfinite productsA = true ->
  forallb sizeNotInfinite productsB' = true ->
  incl productsB productsB' ->
  matchProducts productsA productsB options = Return result ->
  matchProducts productsA productsB' options = Return result' ->
  incl (unmatchedA result') (unmatchedA result).
Proof.
  intros HA HB Hincl H H'.
  rewrite (unmatchedA_of_result _ _ _ _ H), (unmatchedA_of_result _ _ _ _ H').
  apply incl_map_filter. intros a Ha.
  apply belowReview_more_candidates; [|exact Hincl].
  intros b Hb. rewrite forallb_forall in HA, HB.
  apply unit_not_NaN, pairConfidence_unit; auto.
Qed.

Lemma more_candidates_keep_matches_witness :
  exists result result',
    matchProducts [cocaCola; dasani] [aquafina] defaults = Return result /\
    matchProducts [cocaCola; dasani] [coke; aquafina] defaults = Return result' /\
    incl (unmatchedA result') (unmatchedA result).
Proof.
  eexists. eexists.
  split; [vm_compute; reflexivity|].
  split; [vm_compute; reflexivity|].
  match goal with
  | |- incl (unmatchedA ?r') (unmatchedA ?r) =>
      apply (more_candidates_keep_matches [cocaCola; dasani] [aquafina]
               [coke; aquafina] defaults r r');
      [ vm_compute; reflexivity | vm_compute; reflexivity
      | intros b [<-|[]]; right; left; reflexivity
      | vm_compute; reflexivity | vm_compute; reflexivity ]
  end.
Defined.
